(** * Cloudflare DDNS: reconciliation engine and scheduler

    A shallow embedding of the TypeScript sources of the DDNS worker
    (provider client, address resolver, target discovery, record
    reconciler, scheduler) together with the properties its
    specification states about them.

    Conventions of the embedding.
    - A JavaScript string is a [string]: a sequence of 8-bit code units.
      [trim] and [toLowerCase] act on the ASCII range, which is the range
      DNS names, record ids and addresses live in; a statement about what
      they compute is made for ASCII text.
    - A JavaScript number that the code only stores and compares (TTL, HTTP
      status, error code, page counters) is a [Z].
    - An [async] function is a function of the outside world: it takes the
      world, returns either a value or the thrown error, and the world it
      leaves behind.  A throw keeps the world reached so far: writes that
      already went out to the provider stay applied.
    - Logging has no effect on any result and is left out. *)

From Stdlib Require Import String Ascii List Bool Arith ZArith Lia.
From Stdlib Require Import Sorting.Sorted Sorting.Permutation.
Import ListNotations.
Local Open Scope string_scope.
Local Open Scope list_scope.

Set Implicit Arguments.

(* ================================================================== *)
(** ** JavaScript values shared by all components                      *)
(* ================================================================== *)

(** [cloudflare/client.ts]: [CloudflareErrorItem]. *)
Record CloudflareErrorItem := {
  err_code : Z;
  err_message : string
}.

(** A thrown JavaScript value.  [CloudflareApiError] extends [Error]; a
    value that is not an [Error] instance can be thrown as well.  The text
    of [stack] is chosen by the engine: the model carries it as data. *)
Inductive JsError :=
| CloudflareApiError (message : string) (stack : option string)
                     (status : Z) (errors : list CloudflareErrorItem)
                     (body : option string)
| PlainError (message : string) (stack : option string)
| NonError.

(** [new Error(message)] at a throw site of the modelled code.  The
    engine gives every such error a stack text; the model does not
    invent one and writes [None] for it, so no statement about an error
    made here says anything about its stack. *)
Definition newError (message : string) : JsError := PlainError message None.

(** [new CloudflareApiError(message, status, errors, body)]. *)
Definition newCloudflareApiError (message : string) (status : Z)
    (errors : list CloudflareErrorItem) (body : option string) : JsError :=
  CloudflareApiError message None status errors body.

(** The settlement of a promise: fulfilled with a value or rejected. *)
Inductive Outcome (A : Type) :=
| Ok (a : A)
| Throw (e : JsError).
Arguments Ok {A} a.
Arguments Throw {A} e.

(** An asynchronous computation over the outside world [W]. *)
Definition Async (W A : Type) := W -> Outcome A * W.

Definition ret {W A} (a : A) : Async W A := fun w => (Ok a, w).
Definition throw {W A} (e : JsError) : Async W A := fun w => (Throw e, w).
Definition bind {W A B} (m : Async W A) (k : A -> Async W B) : Async W B :=
  fun w => match m w with
           | (Ok a, w') => k a w'
           | (Throw e, w') => (Throw e, w')
           end.

Declare Scope async_scope.
Delimit Scope async_scope with async.
Notation "'let*' x ':=' m 'in' k" := (bind m (fun x => k))
  (at level 10, x name, m at level 100, k at level 200) : async_scope.
Notation "m ';;' k" := (bind m (fun _ => k))
  (at level 100, k at level 200, right associativity) : async_scope.
Local Open Scope async_scope.

(* ================================================================== *)
(** ** Strings                                                         *)
(* ================================================================== *)

(** Strings are sequences of 8-bit characters.  On ASCII text (every
    character below 128) they are the strings of the code and [trim] and
    [toLowerCase] below are [String.prototype.trim] and
    [String.prototype.toLowerCase].  Outside ASCII the code's functions
    also strip Unicode white space (U+00A0, U+FEFF, U+2028, ...) and
    lower-case non-ASCII letters, which these definitions do not: a
    statement that depends on what the two functions compute is made for
    ASCII text only. *)

(** White space removed by [String.prototype.trim] in the ASCII range:
    tab, line feed, vertical tab, form feed, carriage return, space. *)
Definition isWhiteSpace (c : ascii) : bool :=
  let n := nat_of_ascii c in
  ((n =? 32) || ((9 <=? n) && (n <=? 13)))%nat.

Fixpoint trimStart (s : string) : string :=
  match s with
  | EmptyString => EmptyString
  | String c r => if isWhiteSpace c then trimStart r else s
  end.

Fixpoint trimEnd (s : string) : string :=
  match s with
  | EmptyString => EmptyString
  | String c r =>
      match trimEnd r with
      | EmptyString => if isWhiteSpace c then EmptyString else String c EmptyString
      | r' => String c r'
      end
  end.

Definition trim (s : string) : string := trimEnd (trimStart s).

Definition lowerChar (c : ascii) : ascii :=
  let n := nat_of_ascii c in
  if ((65 <=? n) && (n <=? 90))%nat then ascii_of_nat (n + 32) else c.

Fixpoint toLowerCase (s : string) : string :=
  match s with
  | EmptyString => EmptyString
  | String c r => String (lowerChar c) (toLowerCase r)
  end.

(** [s.endsWith(suffix)]: [s] is the suffix, or its tail ends with it. *)
Fixpoint endsWith (s suffix : string) : bool :=
  String.eqb s suffix ||
  match s with
  | EmptyString => false
  | String _ r => endsWith r suffix
  end.

(* ================================================================== *)
(** ** Provider data model ([cloudflare/client.ts])                    *)
(* ================================================================== *)

Record CloudflareZone := {
  zone_id : string;
  zone_name : string
}.

Inductive CloudflareDnsRecordType :=
| A | AAAA | CNAME | TXT | NS | MX | SRV | PTR | CAA | LOC | CERT | DNSKEY
| DS | NAPTR | SMIMEA | SSHFP | SVCB | TLSA | URI.

Definition type_eqb (a b : CloudflareDnsRecordType) : bool :=
  match a, b with
  | A, A | AAAA, AAAA | CNAME, CNAME | TXT, TXT | NS, NS | MX, MX
  | SRV, SRV | PTR, PTR | CAA, CAA | LOC, LOC | CERT, CERT
  | DNSKEY, DNSKEY | DS, DS | NAPTR, NAPTR | SMIMEA, SMIMEA
  | SSHFP, SSHFP | SVCB, SVCB | TLSA, TLSA | URI, URI => true
  | _, _ => false
  end.

(** The string a record type is in JavaScript. *)
Definition typeName (t : CloudflareDnsRecordType) : string :=
  match t with
  | A => "A" | AAAA => "AAAA" | CNAME => "CNAME" | TXT => "TXT" | NS => "NS"
  | MX => "MX" | SRV => "SRV" | PTR => "PTR" | CAA => "CAA" | LOC => "LOC"
  | CERT => "CERT" | DNSKEY => "DNSKEY" | DS => "DS" | NAPTR => "NAPTR"
  | SMIMEA => "SMIMEA" | SSHFP => "SSHFP" | SVCB => "SVCB" | TLSA => "TLSA"
  | URI => "URI"
  end.

Record CloudflareDnsRecord := {
  rec_id : string;
  rec_type : CloudflareDnsRecordType;
  rec_name : string;
  rec_content : string;
  rec_proxied : bool;
  rec_ttl : Z
}.

(** The two record types an input may have: ["A" | "AAAA"]. *)
Inductive AddressRecordType := InputA | InputAAAA.

Definition recordTypeOf (t : AddressRecordType) : CloudflareDnsRecordType :=
  match t with InputA => A | InputAAAA => AAAA end.

Record DnsRecordInput := {
  in_type : AddressRecordType;
  in_name : string;
  in_content : string;
  in_proxied : bool;
  in_ttl : Z
}.

(** The public methods of [CloudflareClient] the update code calls, as an
    interface over the world they act on.  [listDnsRecords] takes the
    optional [name] and [type] of its query. *)
Record Client (W : Type) := {
  listZones : Async W (list CloudflareZone);
  listDnsRecords :
    string -> option string -> option CloudflareDnsRecordType ->
    Async W (list CloudflareDnsRecord);
  createDnsRecord : string -> DnsRecordInput -> Async W CloudflareDnsRecord;
  updateDnsRecord :
    string -> string -> DnsRecordInput -> Async W CloudflareDnsRecord;
  deleteDnsRecord : string -> string -> Async W unit
}.

(** [config.ts]: [AppConfig]. *)
Record AppConfig := {
  apiToken : string;
  hostnameTargets : list string;
  zoneTargets : list string;
  blacklist : list string;
  includeIPv4 : bool;
  includeIPv6 : bool;
  updateIntervalSeconds : Z;
  proxied : bool
}.

(** [update/ip-resolver.ts]: [ResolvedIpAddresses]. *)
Record ResolvedIpAddresses := {
  ipv4 : option string;
  ipv6 : option string
}.

(* ================================================================== *)
(** ** Record reconciler ([update/reconcile.ts])                       *)
(* ================================================================== *)

Inductive RecordChangeKind := create | update | delete | skip.

Record RecordChange := {
  kind : RecordChangeKind;
  recordType : CloudflareDnsRecordType;
  hostname : string;
  zoneId : string;
  zoneName : string;
  reason : option string
}.

Record PartitionedRecords := {
  aRecords : list CloudflareDnsRecord;
  aaaaRecords : list CloudflareDnsRecord;
  cnameRecords : list CloudflareDnsRecord
}.

Definition AUTO_TTL : Z := 1.

(** One turn of the loop of [partitionRecords]: push the record on the
    array of its type, or drop it. *)
Definition partitionStep (acc : PartitionedRecords)
    (record : CloudflareDnsRecord) : PartitionedRecords :=
  if type_eqb (rec_type record) A then
    {| aRecords := aRecords acc ++ [record];
       aaaaRecords := aaaaRecords acc;
       cnameRecords := cnameRecords acc |}
  else if type_eqb (rec_type record) AAAA then
    {| aRecords := aRecords acc;
       aaaaRecords := aaaaRecords acc ++ [record];
       cnameRecords := cnameRecords acc |}
  else if type_eqb (rec_type record) CNAME then
    {| aRecords := aRecords acc;
       aaaaRecords := aaaaRecords acc;
       cnameRecords := cnameRecords acc ++ [record] |}
  else acc.

Definition partitionRecords (records : list CloudflareDnsRecord)
    : PartitionedRecords :=
  fold_left partitionStep records
    {| aRecords := []; aaaaRecords := []; cnameRecords := [] |}.

Definition shouldUpdate (existing : CloudflareDnsRecord)
    (desired : DnsRecordInput) : bool :=
  if negb (String.eqb (rec_content existing) (in_content desired)) then true
  else if negb (Bool.eqb (rec_proxied existing) (in_proxied desired)) then true
  else if negb (Z.eqb (rec_ttl existing) (in_ttl desired)) then true
  else false.

Definition mkChange (k : RecordChangeKind) (t : CloudflareDnsRecordType)
    (hostname zoneId zoneName : string) (reason : option string)
    : RecordChange :=
  {| kind := k; recordType := t; hostname := hostname; zoneId := zoneId;
     zoneName := zoneName; reason := reason |}.

Section Reconciler.
Context {W : Type}.
Variable client : Client W.

(** The loop of [deleteRecords], with the changes pushed so far. *)
Fixpoint deleteRecordsFrom (zoneId zoneName hostname : string)
    (records : list CloudflareDnsRecord) (changes : list RecordChange)
    : Async W (list RecordChange) :=
  match records with
  | [] => ret changes
  | record :: rest =>
      deleteDnsRecord client zoneId (rec_id record) ;;
      deleteRecordsFrom zoneId zoneName hostname rest
        (changes ++
         [mkChange delete (rec_type record) hostname zoneId zoneName None])
  end.

Definition deleteRecords (zoneId zoneName hostname : string)
    (records : list CloudflareDnsRecord) : Async W (list RecordChange) :=
  deleteRecordsFrom zoneId zoneName hostname records [].

Definition ensureRecord (zoneId zoneName hostname : string)
    (desired : DnsRecordInput)
    (existingRecords : list CloudflareDnsRecord)
    : Async W (list RecordChange) :=
  match existingRecords with
  | [] =>
      let* created := createDnsRecord client zoneId desired in
      ret [mkChange create (rec_type created) hostname zoneId zoneName None]
  | primary :: duplicates =>
      let* changes :=
        (if shouldUpdate primary desired then
           let* updated :=
             updateDnsRecord client zoneId (rec_id primary) desired in
           ret [mkChange update (rec_type updated)
                  hostname zoneId zoneName None]
         else
           ret [mkChange skip (rec_type primary)
                  hostname zoneId zoneName (Some "unchanged")]) in
      let* duplicateChanges :=
        deleteRecords zoneId zoneName hostname duplicates in
      ret (changes ++ duplicateChanges)
  end.

Definition reconcileHostname (config : AppConfig)
    (zoneId zoneName hostname : string) (ips : ResolvedIpAddresses)
    : Async W (list RecordChange) :=
  let* records := listDnsRecords client zoneId (Some hostname) None in
  let parts := partitionRecords records in
  let changes := [] in
  let* changes :=
    (if (0 <? length (cnameRecords parts))%nat then
       let* deleted :=
         deleteRecords zoneId zoneName hostname (cnameRecords parts) in
       ret (changes ++ deleted)
     else ret changes) in
  let* changes :=
    (if includeIPv4 config then
       match ipv4 ips with
       | None => throw (newError "IPv4 address not resolved")
       | Some address =>
           let desired :=
             {| in_type := InputA; in_name := hostname;
                in_content := address; in_proxied := proxied config;
                in_ttl := AUTO_TTL |} in
           let* applied :=
             ensureRecord zoneId zoneName hostname desired
               (aRecords parts) in
           ret (changes ++ applied)
       end
     else if (0 <? length (aRecords parts))%nat then
       let* deleted :=
         deleteRecords zoneId zoneName hostname (aRecords parts) in
       ret (changes ++ deleted)
     else ret changes) in
  let* changes :=
    (if includeIPv6 config then
       match ipv6 ips with
       | None => throw (newError "IPv6 address not resolved")
       | Some address =>
           let desired :=
             {| in_type := InputAAAA; in_name := hostname;
                in_content := address; in_proxied := proxied config;
                in_ttl := AUTO_TTL |} in
           let* applied :=
             ensureRecord zoneId zoneName hostname desired
               (aaaaRecords parts) in
           ret (changes ++ applied)
       end
     else if (0 <? length (aaaaRecords parts))%nat then
       let* deleted :=
         deleteRecords zoneId zoneName hostname (aaaaRecords parts) in
       ret (changes ++ deleted)
     else ret changes) in
  ret changes.
End Reconciler.

(* ================================================================== *)
(** ** Target discovery ([update/targets.ts])                          *)
(* ================================================================== *)

Record ZoneHostTargets := {
  zone : CloudflareZone;
  hostnames : list string
}.

(** A JavaScript [Map] with string keys: the entries in insertion order.
    [set] on a key already present replaces the value where the key
    stands; on a new key it appends the entry. *)
Definition JsMap (V : Type) := list (string * V).

Fixpoint map_get {V} (m : JsMap V) (k : string) : option V :=
  match m with
  | [] => None
  | (k', v) :: rest => if String.eqb k' k then Some v else map_get rest k
  end.

Definition map_has {V} (m : JsMap V) (k : string) : bool :=
  match map_get m k with Some _ => true | None => false end.

Fixpoint map_set {V} (m : JsMap V) (k : string) (v : V) : JsMap V :=
  match m with
  | [] => [(k, v)]
  | (k', v') :: rest =>
      if String.eqb k' k then (k', v) :: rest
      else (k', v') :: map_set rest k v
  end.

Definition map_values {V} (m : JsMap V) : list V := List.map snd m.

(** [new Map(entries)]. *)
Definition map_from {V} (entries : list (string * V)) : JsMap V :=
  fold_left (fun m e => map_set m (fst e) (snd e)) entries [].

(** A JavaScript [Set] of strings, used only through [has]. *)
Definition set_has (s : list string) (k : string) : bool :=
  existsb (String.eqb k) s.

(** [Array.prototype.sort()] on strings: ascending by code units. *)
Fixpoint insertSorted (x : string) (l : list string) : list string :=
  match l with
  | [] => [x]
  | y :: rest => if String.ltb x y then x :: l else y :: insertSorted x rest
  end.

Definition sortStrings (l : list string) : list string :=
  fold_left (fun acc x => insertSorted x acc) l [].

Definition HOST_RECORD_TYPES : list CloudflareDnsRecordType := [A; AAAA; CNAME].

Definition normalizeHostname (value : string) : string :=
  toLowerCase (trim value).

Definition appendHostname (buckets : JsMap (JsMap string))
    (zoneId hostname : string) : JsMap (JsMap string) :=
  let canonical := normalizeHostname hostname in
  let bucket :=
    match map_get buckets zoneId with Some b => b | None => [] end in
  let bucket :=
    if negb (map_has bucket canonical) then map_set bucket canonical hostname
    else bucket in
  map_set buckets zoneId bucket.

(** The test of the loop body of [findZoneForHostname]. *)
Definition zoneMatches (canonical : string) (z : CloudflareZone) : bool :=
  let zoneName := normalizeHostname (zone_name z) in
  String.eqb canonical zoneName || endsWith canonical ("." ++ zoneName).

Definition findZoneStep (canonical : string) (found : option CloudflareZone)
    (z : CloudflareZone) : option CloudflareZone :=
  let zoneName := normalizeHostname (zone_name z) in
  if zoneMatches canonical z then
    match found with
    | None => Some z
    | Some m =>
        if (String.length (normalizeHostname (zone_name m))
              <? String.length zoneName)%nat
        then Some z else found
    end
  else found.

Definition findZoneForHostname (hostname : string)
    (zones : list CloudflareZone) : option CloudflareZone :=
  let canonical := normalizeHostname hostname in
  fold_left (findZoneStep canonical) zones None.

Definition isBlacklisted (hostname : string) (blacklist : list string)
    : bool :=
  let canonical := normalizeHostname hostname in
  set_has blacklist canonical.

Definition collectStep (blacklist : list string) (bucket : JsMap string)
    (record : CloudflareDnsRecord) : JsMap string :=
  if negb (existsb (type_eqb (rec_type record)) HOST_RECORD_TYPES) then bucket
  else if isBlacklisted (rec_name record) blacklist then bucket
  else
    let canonical := normalizeHostname (rec_name record) in
    if negb (map_has bucket canonical)
    then map_set bucket canonical (rec_name record)
    else bucket.

Definition collectHostnamesFromZoneRecords
    (records : list CloudflareDnsRecord) (blacklist : list string)
    : list string :=
  map_values (fold_left (collectStep blacklist) records []).

Section Discovery.
Context {W : Type}.
Variable client : Client W.

(** First loop of [collectZoneTargets]: the explicit hostnames. *)
Fixpoint forHostnameTargets (zones : list CloudflareZone)
    (blacklist : list string) (targets : list string)
    (buckets : JsMap (JsMap string)) : Async W (JsMap (JsMap string)) :=
  match targets with
  | [] => ret buckets
  | hostname :: rest =>
      if isBlacklisted hostname blacklist then
        forHostnameTargets zones blacklist rest buckets
      else
        match findZoneForHostname hostname zones with
        | None =>
            throw (newError
                     ("No Cloudflare zone found for hostname " ++ hostname))
        | Some z =>
            forHostnameTargets zones blacklist rest
              (appendHostname buckets (zone_id z) hostname)
        end
  end.

(** Second loop of [collectZoneTargets]: the whole zones. *)
Fixpoint forZoneTargets (zonesByName : JsMap CloudflareZone)
    (blacklist : list string) (targets : list string)
    (buckets : JsMap (JsMap string)) : Async W (JsMap (JsMap string)) :=
  match targets with
  | [] => ret buckets
  | zoneName :: rest =>
      let normalizedZoneName := normalizeHostname zoneName in
      match map_get zonesByName normalizedZoneName with
      | None =>
          throw (newError
                   ("No Cloudflare zone found for domain " ++ zoneName))
      | Some z =>
          let buckets := appendHostname buckets (zone_id z) (zone_name z) in
          let* records := listDnsRecords client (zone_id z) None None in
          let names := collectHostnamesFromZoneRecords records blacklist in
          let buckets :=
            fold_left (fun b name => appendHostname b (zone_id z) name)
              names buckets in
          forZoneTargets zonesByName blacklist rest buckets
      end
  end.

(** The [map] over [buckets.entries()] that builds the results. *)
Fixpoint buildResults (zonesById : JsMap CloudflareZone)
    (entries : list (string * JsMap string))
    : Async W (list ZoneHostTargets) :=
  match entries with
  | [] => ret []
  | (zoneId, names) :: rest =>
      match map_get zonesById zoneId with
      | None => throw (newError ("Missing zone metadata for " ++ zoneId))
      | Some z =>
          let* more := buildResults zonesById rest in
          ret ({| zone := z; hostnames := sortStrings (map_values names) |}
               :: more)
      end
  end.

Definition collectZoneTargets (config : AppConfig)
    : Async W (list ZoneHostTargets) :=
  let* zones := listZones client in
  if (length zones =? 0)%nat then
    throw (newError "No Cloudflare zones available for the configured token")
  else
    let buckets : JsMap (JsMap string) := [] in
    let blacklist := List.map normalizeHostname (blacklist config) in
    let zonesByName :=
      map_from (List.map (fun z => (normalizeHostname (zone_name z), z))
                  zones) in
    let zonesById := map_from (List.map (fun z => (zone_id z, z)) zones) in
    let* buckets :=
      forHostnameTargets zones blacklist (hostnameTargets config) buckets in
    let* buckets :=
      forZoneTargets zonesByName blacklist (zoneTargets config) buckets in
    buildResults zonesById buckets.
End Discovery.

(* ================================================================== *)
(** ** An in-memory provider                                           *)
(* ================================================================== *)

(** The provider as the update code sees it when nothing else writes to
    it: the zones of the token and the DNS records, each stored with the
    id of its zone.  It implements [Client]; the update code is run
    against it in the scenarios below. *)
Record Provider := {
  prov_zones : list CloudflareZone;
  prov_records : list (string * CloudflareDnsRecord)
}.

Definition owns (zoneId recordId : string)
    (e : string * CloudflareDnsRecord) : bool :=
  String.eqb (fst e) zoneId && String.eqb (rec_id (snd e)) recordId.

Definition queryMatches (zoneId : string) (name : option string)
    (type : option CloudflareDnsRecordType)
    (e : string * CloudflareDnsRecord) : bool :=
  String.eqb (fst e) zoneId &&
  match name with Some n => String.eqb (rec_name (snd e)) n | None => true end &&
  match type with Some t => type_eqb (rec_type (snd e)) t | None => true end.

(** An id no stored record has: longer than every one of them. *)
Definition freshId (records : list (string * CloudflareDnsRecord)) : string :=
  String "r" (String.concat "" (List.map (fun e => rec_id (snd e)) records)).

Definition recordOfInput (id : string) (input : DnsRecordInput)
    : CloudflareDnsRecord :=
  {| rec_id := id; rec_type := recordTypeOf (in_type input);
     rec_name := in_name input; rec_content := in_content input;
     rec_proxied := in_proxied input; rec_ttl := in_ttl input |}.

Definition notFound : JsError :=
  newCloudflareApiError "Cloudflare API request failed with status 404" 404
    [{| err_code := 81044; err_message := "Record does not exist." |}] None.

Definition providerClient : Client Provider := {|
  listZones := fun p => (Ok (prov_zones p), p);
  listDnsRecords := fun zoneId name type p =>
    (Ok (List.map snd (filter (queryMatches zoneId name type) (prov_records p))),
     p);
  createDnsRecord := fun zoneId input p =>
    let r := recordOfInput (freshId (prov_records p)) input in
    (Ok r, {| prov_zones := prov_zones p;
              prov_records := prov_records p ++ [(zoneId, r)] |});
  updateDnsRecord := fun zoneId recordId input p =>
    if existsb (owns zoneId recordId) (prov_records p) then
      let r := recordOfInput recordId input in
      (Ok r, {| prov_zones := prov_zones p;
                prov_records :=
                  List.map (fun e => if owns zoneId recordId e
                                     then (zoneId, r) else e)
                    (prov_records p) |})
    else (Throw notFound, p);
  deleteDnsRecord := fun zoneId recordId p =>
    if existsb (owns zoneId recordId) (prov_records p) then
      (Ok tt, {| prov_zones := prov_zones p;
                 prov_records :=
                   filter (fun e => negb (owns zoneId recordId e))
                     (prov_records p) |})
    else (Throw notFound, p)
|}.

(* ================================================================== *)
(** ** HTTP as seen through [fetch]                                    *)
(* ================================================================== *)

(** A request as it is handed to the platform.  [req_url] is the text
    of the address before it is parsed: the resolver passes the text to
    [fetch], which parses it; the provider client passes it to
    [new URL] and the URL to [fetch].  Parsing normalises the text
    (percent-encoding, dot segments) and throws a [TypeError] for a text
    that is no URL, and that is the platform's doing: it is part of
    [Fetch] below, whose rejection stands for the [TypeError] as well as
    for a failure of the network. *)
Record HttpRequest := {
  req_url : string;
  req_method : string;
  req_headers : list (string * string);
  req_body : option string
}.

Record HttpResponse := {
  resp_status : Z;
  resp_statusText : string;
  resp_body : string
}.

(** [response.ok]: the status is in the range 200-299. *)
Definition resp_ok (r : HttpResponse) : bool :=
  ((200 <=? resp_status r) && (resp_status r <=? 299))%Z.

(** The address text parsed, then [fetch], then the body text read;
    each may reject. *)
Definition Fetch (W : Type) := HttpRequest -> Async W HttpResponse.

(* ================================================================== *)
(** ** Address resolver ([update/ip-resolver.ts])                      *)
(* ================================================================== *)

(** [Promise.all]: fulfilled with all the values when every promise is
    fulfilled, rejected as soon as one is rejected.  All promises were
    started before and run concurrently; the model runs them one after
    the other in array order and takes the first rejection in that
    order.  Which rejection wins when several reject, and what of the
    other lookup has happened by then, depends on timing in the code:
    the model supports no statement about either. *)
Fixpoint promiseAll {A} (settled : list (Outcome A)) : Outcome (list A) :=
  match settled with
  | [] => Ok []
  | Throw e :: _ => Throw e
  | Ok a :: rest =>
      match promiseAll rest with
      | Ok values => Ok (a :: values)
      | Throw e => Throw e
      end
  end.

Definition orElse {A} (x y : option A) : option A :=
  match x with Some _ => x | None => y end.

Section Resolver.
Context {W : Type}.
Variable fetch : Fetch W.
(** [isIP] of [node:net]: 4, 6, or 0 for a string that is no address. *)
Variable isIP : string -> nat.

Definition fetchText (url : string) : Async W string :=
  let* response :=
    fetch {| req_url := url; req_method := "GET"; req_headers := [];
             req_body := None |} in
  if negb (resp_ok response) then
    throw (newError ("Failed to fetch IP from " ++ url ++ ": "
                     ++ resp_statusText response))
  else ret (resp_body response).

(** [ipSchema.parse]: throws for a string that [isIP] rejects.  The
    code throws a [ZodError], an [Error] whose message is zod's
    rendering of the issue list; the model keeps the message of the one
    issue in its place, and no statement is made about the text of this
    error. *)
Definition ipSchema_parse (value : string) : Async W string :=
  if (isIP value =? 0)%nat then throw (newError "Invalid IP response")
  else ret value.

Definition requestIPv4 : Async W string :=
  let* body := fetchText "https://api.ipify.org" in
  let text := trim body in
  ipSchema_parse text ;;
  ret text.

Definition requestIPv6 : Async W string :=
  let* body := fetchText "https://api64.ipify.org" in
  let text := trim body in
  ipSchema_parse text ;;
  ret text.

(** Calling an async function starts it: its requests go out when the
    task is pushed, before the length test and before [Promise.all]. *)
Definition startTask (enabled : bool) (task : Async W ResolvedIpAddresses)
    (w : W) : list (Outcome ResolvedIpAddresses) * W :=
  if enabled then let (o, w') := task w in ([o], w') else ([], w).

Definition mergeAddresses (state entry : ResolvedIpAddresses)
    : ResolvedIpAddresses :=
  {| ipv4 := orElse (ipv4 entry) (ipv4 state);
     ipv6 := orElse (ipv6 entry) (ipv6 state) |}.

Definition resolvePublicAddresses (includeIPv4 includeIPv6 : bool)
    : Async W ResolvedIpAddresses :=
  fun w =>
    let (tasks4, w1) :=
      startTask includeIPv4
        (let* ip := requestIPv4 in ret {| ipv4 := Some ip; ipv6 := None |})
        w in
    let (tasks6, w2) :=
      startTask includeIPv6
        (let* ip := requestIPv6 in ret {| ipv4 := None; ipv6 := Some ip |})
        w1 in
    let tasks := tasks4 ++ tasks6 in
    if (length tasks =? 0)%nat then
      (Throw (newError "At least one IP version must be requested"), w2)
    else
      match promiseAll tasks with
      | Throw e => (Throw e, w2)
      | Ok results =>
          (Ok (fold_left mergeAddresses results
                 {| ipv4 := None; ipv6 := None |}), w2)
      end.
End Resolver.

(* ================================================================== *)
(** ** Update orchestrator ([update/index.ts])                         *)
(* ================================================================== *)

Record UpdateSummary := {
  timestamp : string;
  durationMs : Z;
  zoneCount : nat;
  hostnameCount : nat;
  changes : list RecordChange
}.

Section Orchestrator.
Context {W : Type}.
Variable client : Client W.
Variable fetch : Fetch W.
Variable isIP : string -> nat.
(** [Date.now()] and [new Date(ms).toISOString()]. *)
Variable dateNow : W -> Z.
Variable toISOString : Z -> string.

Fixpoint forHostnames (config : AppConfig) (z : CloudflareZone)
    (names : list string) (ips : ResolvedIpAddresses)
    (acc : list RecordChange * nat) : Async W (list RecordChange * nat) :=
  match names with
  | [] => ret acc
  | name :: rest =>
      let* changes :=
        reconcileHostname client config (zone_id z) (zone_name z) name ips in
      forHostnames config z rest ips (fst acc ++ changes, S (snd acc))
  end.

Fixpoint forZones (config : AppConfig) (targets : list ZoneHostTargets)
    (ips : ResolvedIpAddresses) (acc : list RecordChange * nat)
    : Async W (list RecordChange * nat) :=
  match targets with
  | [] => ret acc
  | t :: rest =>
      let* acc := forHostnames config (zone t) (hostnames t) ips acc in
      forZones config rest ips acc
  end.

Definition performUpdate (config : AppConfig) : Async W UpdateSummary :=
  fun w =>
    let startedAt := dateNow w in
    (let* ips :=
       resolvePublicAddresses fetch isIP
         (includeIPv4 config) (includeIPv6 config) in
     let* zoneTargets := collectZoneTargets client config in
     let* done := forZones config zoneTargets ips ([], 0) in
     fun w' =>
       let finishedAt := dateNow w' in
       (Ok {| timestamp := toISOString startedAt;
              durationMs := finishedAt - startedAt;
              zoneCount := length zoneTargets;
              hostnameCount := snd done;
              changes := fst done |}, w')) w.
End Orchestrator.

(* ================================================================== *)
(** ** Scheduler ([scheduler.ts])                                      *)
(* ================================================================== *)

Record SchedulerError := {
  se_timestamp : string;
  se_message : string;
  se_stack : option string;
  se_status : option Z;
  se_apiErrors : option (list CloudflareErrorItem);
  se_responseBody : option string
}.

Record SchedulerSnapshot := {
  snap_running : bool;
  snap_lastSuccess : option UpdateSummary;
  snap_lastError : option SchedulerError
}.

(** The variables [createScheduler] closes over.  [timer] holds the
    delay in milliseconds that was given to [setInterval] when the timer
    was armed, or [None] for [null]. *)
Record SchedulerVars := {
  timer : option Z;
  running : bool;
  lastSuccess : option UpdateSummary;
  lastError : option SchedulerError
}.

(** [setInterval] of Node: the period it arms is the delay it is given
    when that is between 1 and [TIMEOUT_MAX] = 2^31 - 1 milliseconds,
    and 1 millisecond for any other delay. *)
Definition TIMEOUT_MAX : Z := 2147483647.

Definition intervalOf (delay : Z) : Z :=
  if (1 <=? delay)%Z && (delay <=? TIMEOUT_MAX)%Z then delay else 1%Z.

Definition initialVars : SchedulerVars :=
  {| timer := None; running := false; lastSuccess := None;
     lastError := None |}.

(** The [catch] block of [execute]: [baseFailure] overlaid with
    [cloudflareFailure]. *)
Definition failureOf (now : string) (error : JsError) : SchedulerError :=
  match error with
  | CloudflareApiError message stack status errors body =>
      {| se_timestamp := now; se_message := message; se_stack := stack;
         se_status := Some status; se_apiErrors := Some errors;
         se_responseBody := body |}
  | PlainError message stack =>
      {| se_timestamp := now; se_message := message; se_stack := stack;
         se_status := None; se_apiErrors := None; se_responseBody := None |}
  | NonError =>
      {| se_timestamp := now; se_message := "Unknown error";
         se_stack := None; se_status := None; se_apiErrors := None;
         se_responseBody := None |}
  end.

(** [execute] up to its [await]: the guard on [running], then the flag is
    set and [performUpdate] is called.  The boolean tells whether
    [performUpdate] was called. *)
Definition execute_enter (s : SchedulerVars) : SchedulerVars * bool :=
  if running s then (s, false)
  else ({| timer := timer s; running := true;
           lastSuccess := lastSuccess s; lastError := lastError s |}, true).

(** [execute] after its [await]: the [try], [catch] and [finally] blocks,
    once the promise of [performUpdate] is settled with [o]; [now] is the
    text of [new Date().toISOString()] at the catch. *)
Definition execute_settle (now : string) (o : Outcome UpdateSummary)
    (s : SchedulerVars) : SchedulerVars :=
  match o with
  | Ok summary =>
      {| timer := timer s; running := false;
         lastSuccess := Some summary; lastError := None |}
  | Throw error =>
      {| timer := timer s; running := false;
         lastSuccess := lastSuccess s;
         lastError := Some (failureOf now error) |}
  end.

Definition snapshot (s : SchedulerVars) : SchedulerSnapshot :=
  {| snap_running := running s; snap_lastSuccess := lastSuccess s;
     snap_lastError := lastError s |}.

Section SchedulerRun.
Context {W : Type}.
(** [performUpdate(client, config)] and the clock read at the catch. *)
Variable pass : Async W UpdateSummary.
Variable nowISO : W -> string.

(** One call of [execute] run to its end with nothing in between. *)
Definition execute (s : SchedulerVars) (w : W) : SchedulerVars * W :=
  let (s1, called) := execute_enter s in
  if called then
    let (o, w') := pass w in (execute_settle (nowISO w') o s1, w')
  else (s1, w).

(** [trigger]: [await execute(); return lastSuccess ?? null]. *)
Definition trigger (s : SchedulerVars) (w : W)
    : option UpdateSummary * SchedulerVars * W :=
  let (s', w') := execute s w in (lastSuccess s', s', w').
End SchedulerRun.

(** The scheduler between its awaits.  JavaScript runs each of these
    events to its end before the next: a request to run a pass
    ([start], a timer tick, [trigger]) executes [execute] up to its
    await; the settlement of a pending [performUpdate] executes the rest.
    [pending] counts the calls of [performUpdate] not yet settled,
    [calls] all calls made. *)
Record System := {
  vars : SchedulerVars;
  pending : nat;
  calls : nat
}.

Inductive Event :=
| EvStart (intervalMs : Z)
| EvStop
| EvTick
| EvTrigger
| EvSettle (now : string) (o : Outcome UpdateSummary).

Definition initialSystem : System :=
  {| vars := initialVars; pending := 0; calls := 0 |}.

Definition requestPass (sys : System) : System :=
  let (s, called) := execute_enter (vars sys) in
  {| vars := s;
     pending := if called then S (pending sys) else pending sys;
     calls := if called then S (calls sys) else calls sys |}.

Definition setTimer (t : option Z) (sys : System) : System :=
  {| vars := {| timer := t; running := running (vars sys);
                lastSuccess := lastSuccess (vars sys);
                lastError := lastError (vars sys) |};
     pending := pending sys; calls := calls sys |}.

(** [None]: the event cannot happen in this state (a tick without an
    armed timer, a settlement with no call pending). *)
Definition step (ev : Event) (sys : System) : option System :=
  match ev with
  | EvStart intervalMs =>
      match timer (vars sys) with
      | Some _ => Some sys
      | None => Some (setTimer (Some intervalMs) (requestPass sys))
      end
  | EvStop => Some (setTimer None sys)
  | EvTick =>
      match timer (vars sys) with
      | Some _ => Some (requestPass sys)
      | None => None
      end
  | EvTrigger => Some (requestPass sys)
  | EvSettle now o =>
      match pending sys with
      | O => None
      | S n => Some {| vars := execute_settle now o (vars sys);
                       pending := n; calls := calls sys |}
      end
  end.

Fixpoint run (events : list Event) (sys : System) : option System :=
  match events with
  | [] => Some sys
  | ev :: rest =>
      match step ev sys with
      | Some sys' => run rest sys'
      | None => None
      end
  end.

(* ================================================================== *)
(** ** Provider client internals ([cloudflare/client.ts])              *)
(* ================================================================== *)

Record CloudflareResultInfo := {
  page : Z;
  per_page : Z;
  total_count : Z;
  total_pages : Z;
  count : Z
}.

(** The envelope.  [errors] may be missing from a body: the code reads
    it as [parsed.errors ?? []]. *)
Record CloudflareResponse (T : Type) := {
  success : bool;
  result : T;
  errors : option (list CloudflareErrorItem);
  messages : list string;
  result_info : option CloudflareResultInfo
}.

(** What [JSON.parse(rawBody) as CloudflareResponse<T>] gives: a syntax
    error is thrown, or the text is the JSON [null], or it is a value
    read at the envelope type. *)
Inductive JsonParse (T : Type) :=
| ParseThrows
| ParsedNull
| Parsed (envelope : CloudflareResponse T).
Arguments ParseThrows {T}.
Arguments ParsedNull {T}.
Arguments Parsed {T} envelope.

Record RequestOptions := {
  opt_method : option string;
  opt_body : option DnsRecordInput;
  opt_searchParams : option (list (string * string))
}.

Definition defaultOptions : RequestOptions :=
  {| opt_method := None; opt_body := None; opt_searchParams := None |}.

Definition statusMessage (numberToString : Z -> string) (status : Z)
    : string :=
  "Cloudflare API request failed with status " ++ numberToString status.

(** The platform the client runs on: [fetch] (which here takes the
    address as text and parses it, see [HttpRequest]), [JSON.parse] at
    each result type, [JSON.stringify] of a record input,
    [Number.prototype.toString], the text of a [URLSearchParams], and
    the text of an address with search parameters appended to its
    query (a text that does not parse when the address does not). *)
Record Platform (W : Type) := {
  fetch : Fetch W;
  JSON_parse : forall T : Type, string -> JsonParse T;
  JSON_stringify : DnsRecordInput -> string;
  numberToString : Z -> string;
  searchParamsToString : list (string * string) -> string;
  appendSearchParams : string -> list (string * string) -> string
}.

(** The fields of a [CloudflareClient] object. *)
Record ClientObject := {
  token : string;
  baseUrl : string;
  pageSize : Z
}.

Module CloudflareClient.
Section Methods.
Context {W : Type}.
Variable platform : Platform W.
Variable this : ClientObject.

(** [request].  The address is built as the text [baseUrl + path] and
    given to [new URL]; the model hands the text to the platform, whose
    [fetch] stands for [new URL] followed by [fetch]: a text that is no
    URL makes the one reject as it makes the other throw, before
    anything is sent, and [request] is rejected with that error in both
    cases. *)
Definition request (T : Type) (path : string) (options : RequestOptions)
    : Async W (CloudflareResponse T) :=
  let url := (baseUrl this ++ path)%string in
  let url :=
    match opt_searchParams options with
    | Some params => appendSearchParams platform url params
    | None => url
    end in
  let init :=
    {| req_url := url;
       req_method :=
         match opt_method options with Some m => m | None => "GET" end;
       req_headers := [("Authorization", ("Bearer " ++ token this)%string);
                       ("Content-Type", "application/json")];
       req_body := option_map (JSON_stringify platform) (opt_body options) |} in
  let* response := fetch platform init in
  let rawBody := resp_body response in
  let* parsed :=
    (if (0 <? String.length rawBody)%nat then
       match JSON_parse platform T rawBody with
       | ParseThrows =>
           throw (newCloudflareApiError
                    "Cloudflare API returned non-JSON response"
                    (resp_status response) [] (Some rawBody))
       | ParsedNull => ret None
       | Parsed envelope => ret (Some envelope)
       end
     else ret None) in
  match parsed with
  | None =>
      if negb (resp_ok response) then
        throw (newCloudflareApiError
                 (statusMessage (numberToString platform)
                    (resp_status response))
                 (resp_status response) [] (Some rawBody))
      else
        throw (newCloudflareApiError
                 "Cloudflare API returned an empty response"
                 (resp_status response) [] (Some rawBody))
  | Some envelope =>
      if negb (resp_ok response) || negb (success envelope) then
        throw (newCloudflareApiError
                 (statusMessage (numberToString platform)
                    (resp_status response))
                 (resp_status response)
                 (match errors envelope with Some l => l | None => [] end)
                 (Some rawBody))
      else ret envelope
  end.

(** The loop of [fetchAllPages].  The server decides when it ends, so
    the model counts the turns it may still take: [None] when [fuel]
    turns did not reach the last page. *)
Fixpoint fetchAllPagesFrom (T : Type) (fuel : nat) (path : string)
    (params : JsMap string) (items : list T) (pageNo : Z)
    (w : W) : option (Outcome (list T) * W) :=
  match fuel with
  | O => None
  | S fuel' =>
      let nextParams :=
        map_set (map_set params "page" (numberToString platform pageNo))
          "per_page" (numberToString platform (pageSize this)) in
      match request (list T)
              (path ++ "?" ++ searchParamsToString platform nextParams)%string
              defaultOptions w with
      | (Throw e, w') => Some (Throw e, w')
      | (Ok response, w') =>
          let items := items ++ result response in
          let hasMore :=
            match result_info response with
            | Some info => (page info <? total_pages info)%Z
            | None => false
            end in
          if hasMore
          then fetchAllPagesFrom fuel' path params items (pageNo + 1) w'
          else Some (Ok items, w')
      end
  end.

Definition fetchAllPages (T : Type) (fuel : nat) (path : string)
    (params : JsMap string) (w : W) : option (Outcome (list T) * W) :=
  fetchAllPagesFrom fuel path params [] 1 w.

Definition listZones (fuel : nat)
    : W -> option (Outcome (list CloudflareZone) * W) :=
  fetchAllPages CloudflareZone fuel "/zones" [].

Definition getZoneByName (name : string) : Async W (option CloudflareZone) :=
  let params :=
    searchParamsToString platform
      [("name", name); ("status", "active"); ("match", "all")] in
  let* response :=
    request (list CloudflareZone) ("/zones?" ++ params)%string
      defaultOptions in
  match result response with
  | [] => ret None
  | z :: _ => ret (Some z)
  end.

Definition listDnsRecords (fuel : nat) (zoneId : string)
    (name : option string) (type : option CloudflareDnsRecordType)
    : W -> option (Outcome (list CloudflareDnsRecord) * W) :=
  let searchParams : JsMap string := [] in
  let searchParams :=
    match name with
    | Some n => map_set searchParams "name" n
    | None => searchParams
    end in
  let searchParams :=
    match type with
    | Some t => map_set searchParams "type" (typeName t)
    | None => searchParams
    end in
  fetchAllPages CloudflareDnsRecord fuel
    ("/zones/" ++ zoneId ++ "/dns_records")%string
    searchParams.

Definition createDnsRecord (zoneId : string) (input : DnsRecordInput)
    : Async W CloudflareDnsRecord :=
  let* response :=
    request CloudflareDnsRecord
      ("/zones/" ++ zoneId ++ "/dns_records")%string
      {| opt_method := Some "POST"; opt_body := Some input;
         opt_searchParams := None |} in
  ret (result response).

Definition updateDnsRecord (zoneId recordId : string)
    (input : DnsRecordInput) : Async W CloudflareDnsRecord :=
  let* response :=
    request CloudflareDnsRecord
      ("/zones/" ++ zoneId ++ "/dns_records/" ++ recordId)%string
      {| opt_method := Some "PUT"; opt_body := Some input;
         opt_searchParams := None |} in
  ret (result response).

Definition deleteDnsRecord (zoneId recordId : string) : Async W unit :=
  request CloudflareDnsRecord
    ("/zones/" ++ zoneId ++ "/dns_records/" ++ recordId)%string
    {| opt_method := Some "DELETE"; opt_body := None;
       opt_searchParams := None |} ;;
  ret tt.
End Methods.
End CloudflareClient.

(* ================================================================== *)
(** ** Change totals ([update/index.ts], [dashboard/status.ts])        *)
(* ================================================================== *)

(** [Record<RecordChangeKind, number>]: one counter per kind. *)
Record KindCounts := {
  n_create : nat;
  n_update : nat;
  n_delete : nat;
  n_skip : nat
}.

Definition noCounts : KindCounts :=
  {| n_create := 0; n_update := 0; n_delete := 0; n_skip := 0 |}.

(** [counts[entry.kind] += 1]. *)
Definition bumpKind (counts : KindCounts) (entry : RecordChange)
    : KindCounts :=
  match kind entry with
  | create => {| n_create := n_create counts + 1; n_update := n_update counts;
                 n_delete := n_delete counts; n_skip := n_skip counts |}
  | update => {| n_create := n_create counts; n_update := n_update counts + 1;
                 n_delete := n_delete counts; n_skip := n_skip counts |}
  | delete => {| n_create := n_create counts; n_update := n_update counts;
                 n_delete := n_delete counts + 1; n_skip := n_skip counts |}
  | skip => {| n_create := n_create counts; n_update := n_update counts;
               n_delete := n_delete counts; n_skip := n_skip counts + 1 |}
  end.

(** [update/index.ts]: the [for] loop over the entries. *)
Definition summarizeChangeKinds (entries : list RecordChange) : KindCounts :=
  fold_left bumpKind entries noCounts.

(** [dashboard/status.ts]: the same totals written as a [reduce]; every
    key is present in the initial object, so [acc[kind] ?? 0] is
    [acc[kind]]. *)
Definition summarizeKinds (changes : list RecordChange) : KindCounts :=
  fold_left (fun acc change => bumpKind acc change) changes
    {| n_create := 0; n_update := 0; n_delete := 0; n_skip := 0 |}.

(* ================================================================== *)
(** ** Configuration ([config.ts])                                     *)
(* ================================================================== *)

(** A synchronous computation that may throw. *)
Definition andThen {A B} (m : Outcome A) (k : A -> Outcome B) : Outcome B :=
  match m with
  | Ok a => k a
  | Throw e => Throw e
  end.

Notation "'let?' x ':=' m 'in' k" := (andThen m (fun x => k))
  (at level 10, x name, m at level 100, k at level 200) : async_scope.

(** [process.env]: a variable is a string or undefined. *)
Definition Env := string -> option string.

(** [value.split(",")]. *)
Fixpoint splitComma (value : string) : list string :=
  match value with
  | EmptyString => [EmptyString]
  | String c rest =>
      if Ascii.eqb c ","%char then EmptyString :: splitComma rest
      else
        match splitComma rest with
        | first :: more => String c first :: more
        | [] => [String c EmptyString]
        end
  end.

Definition isBlank (value : option string) : bool :=
  match value with
  | None => true
  | Some v => (String.length (trim v) =? 0)%nat
  end.

Definition parseBoolean (value : option string) (fallback : bool)
    (key : string) : Outcome bool :=
  match value with
  | None => Ok fallback
  | Some v =>
      if (String.length (trim v) =? 0)%nat then Ok fallback
      else
        let normalized := toLowerCase (trim v) in
        if String.eqb normalized "true" then Ok true
        else if String.eqb normalized "false" then Ok false
        else Throw (newError (key ++ " must be either "
                              ++ String (ascii_of_nat 34) "true"
                              ++ String (ascii_of_nat 34) " or "
                              ++ String (ascii_of_nat 34) "false"
                              ++ String (ascii_of_nat 34) ""))
  end.

Section ParseInterval.
(** [Number.parseInt(value, 10)]: [None] for [NaN]. *)
Variable parseInt : string -> option Z.

Definition parseInterval (value : option string) (fallback : Z)
    (key : string) : Outcome Z :=
  match value with
  | None => Ok fallback
  | Some v =>
      if (String.length (trim v) =? 0)%nat then Ok fallback
      else
        match parseInt v with
        | None => Throw (newError (key ++ " must be a positive integer"))
        | Some parsed =>
            if (parsed <=? 0)%Z
            then Throw (newError (key ++ " must be a positive integer"))
            else Ok parsed
        end
  end.

Definition parseList (value : option string) : list string :=
  match value with
  | None => []
  | Some v =>
      if (String.length (trim v) =? 0)%nat then []
      else
        filter (fun entry => (0 <? String.length entry)%nat)
          (List.map trim (splitComma v))
  end.

(** [envSchema.parse]: the token must be a string of length at least
    one; the schema throws its issue otherwise. *)
Definition envSchema_parse (env : Env) : Outcome Env :=
  match env "CLOUDFLARE_API_TOKEN" with
  | None => Throw (newError "Required")
  | Some t =>
      if (String.length t <? 1)%nat
      then Throw (newError "CLOUDFLARE_API_TOKEN is required")
      else Ok env
  end.

Definition loadConfig (env : Env) : Outcome AppConfig :=
  let? parsed := envSchema_parse env in
  let hostnameTargets := parseList (parsed "TARGET_HOSTNAMES") in
  let zoneTargets := parseList (parsed "TARGET_ZONES") in
  if (length hostnameTargets =? 0)%nat && (length zoneTargets =? 0)%nat then
    Throw (newError
      "Configure at least one entry in TARGET_HOSTNAMES or TARGET_ZONES")
  else
    let blacklist := parseList (parsed "BLACKLIST_HOSTNAMES") in
    let? includeIPv4 :=
      parseBoolean (parsed "INCLUDE_IPV4") true "INCLUDE_IPV4" in
    let? includeIPv6 :=
      parseBoolean (parsed "INCLUDE_IPV6") false "INCLUDE_IPV6" in
    if negb includeIPv4 && negb includeIPv6 then
      Throw (newError "INCLUDE_IPV4 and INCLUDE_IPV6 cannot both be false")
    else
      let? updateIntervalSeconds :=
        parseInterval (parsed "UPDATE_INTERVAL_SECONDS") 300
          "UPDATE_INTERVAL_SECONDS" in
      let? proxied :=
        parseBoolean (parsed "CLOUDFLARE_PROXIED") true "CLOUDFLARE_PROXIED" in
      Ok {| apiToken :=
              match parsed "CLOUDFLARE_API_TOKEN" with
              | Some t => t
              | None => EmptyString
              end;
            hostnameTargets := hostnameTargets;
            zoneTargets := zoneTargets;
            blacklist := blacklist;
            includeIPv4 := includeIPv4;
            includeIPv6 := includeIPv6;
            updateIntervalSeconds := updateIntervalSeconds;
            proxied := proxied |}.
End ParseInterval.

(* ================================================================== *)
(** ** Worker start-up ([runtime.ts], [www/app/actions.ts])            *)
(* ================================================================== *)

(** The module state of [runtime.ts]: the flag [schedulerStarted] and
    the scheduler it created.  [shouldAutoStart] is fixed when the
    module loads: [process.env.NEXT_PHASE !== "phase-production-build"]. *)
Record Runtime := {
  schedulerStarted : bool;
  scheduler : System
}.

Definition shouldAutoStart (env : Env) : bool :=
  match env "NEXT_PHASE" with
  | Some phase => negb (String.eqb phase "phase-production-build")
  | None => true
  end.

(** [scheduler.start()] for a configuration: the event of the scheduler
    with the delay [updateIntervalSeconds * 1000] given to [setInterval];
    the period Node arms for it is [intervalOf] of that delay.  The
    event always happens. *)
Definition start (config : AppConfig) (sys : System) : System :=
  match step (EvStart (updateIntervalSeconds config * 1000)) sys with
  | Some sys' => sys'
  | None => sys
  end.

Definition ensureSchedulerStarted (autoStart : bool) (config : AppConfig)
    (rt : Runtime) : Runtime :=
  if negb autoStart then rt
  else if schedulerStarted rt then rt
  else {| schedulerStarted := true; scheduler := start config (scheduler rt) |}.

(** The module body of [runtime.ts]: the scheduler is created, and
    started when [shouldAutoStart]. *)
Definition loadRuntime (autoStart : bool) (config : AppConfig) : Runtime :=
  let rt := {| schedulerStarted := false; scheduler := initialSystem |} in
  if autoStart then ensureSchedulerStarted autoStart config rt else rt.

(** [triggerUpdate] of [actions.ts] up to the await inside [trigger]:
    [ensureSchedulerStarted()], then the request of [trigger]. *)
Definition triggerUpdate_request (autoStart : bool) (config : AppConfig)
    (rt : Runtime) : Runtime :=
  let rt := ensureSchedulerStarted autoStart config rt in
  {| schedulerStarted := schedulerStarted rt;
     scheduler := requestPass (scheduler rt) |}.

(* ================================================================== *)
(** ** Vocabulary of the properties                                    *)
(* ================================================================== *)

Definition kind_eqb (a b : RecordChangeKind) : bool :=
  match a, b with
  | create, create | update, update | delete, delete | skip, skip => true
  | _, _ => false
  end.

(** How many changes of a kind a change list holds. *)
Definition countKind (k : RecordChangeKind) (l : list RecordChange) : nat :=
  length (filter (fun c => kind_eqb (kind c) k) l).

(** The change [deleteRecords] pushes for a record. *)
Definition deleteChange (zoneId zoneName hostname : string)
    (record : CloudflareDnsRecord) : RecordChange :=
  mkChange delete (rec_type record) hostname zoneId zoneName None.

(** The existing record is not what is desired: content, proxy flag or
    TTL differs. *)
Definition differs (existing : CloudflareDnsRecord)
    (desired : DnsRecordInput) : Prop :=
  rec_content existing <> in_content desired \/
  rec_proxied existing <> in_proxied desired \/
  rec_ttl existing <> in_ttl desired.

Definition hasType (t : CloudflareDnsRecordType) (r : CloudflareDnsRecord)
    : bool :=
  type_eqb (rec_type r) t.

(** The input [reconcileHostname] builds for an address family. *)
Definition desiredRecord (t : AddressRecordType) (config : AppConfig)
    (hostname address : string) : DnsRecordInput :=
  {| in_type := t; in_name := hostname; in_content := address;
     in_proxied := proxied config; in_ttl := AUTO_TTL |}.

(** No provider call of the client ever throws. *)
Definition Reliable {W} (client : Client W) : Prop :=
  (forall z i w, exists r w', createDnsRecord client z i w = (Ok r, w')) /\
  (forall z id i w, exists r w', updateDnsRecord client z id i w = (Ok r, w')) /\
  (forall z id w, exists w', deleteDnsRecord client z id w = (Ok tt, w')).

(** A client that accepts every call and stores nothing: the world is
    the number of calls made. *)
Definition countingClient : Client nat := {|
  listZones := fun n => (Ok [], S n);
  listDnsRecords := fun _ _ _ n => (Ok [], S n);
  createDnsRecord := fun _ input n => (Ok (recordOfInput "new" input), S n);
  updateDnsRecord := fun _ id input n => (Ok (recordOfInput id input), S n);
  deleteDnsRecord := fun _ _ n => (Ok tt, S n)
|}.

(** *** Example data *)

Definition exampleZone : CloudflareZone :=
  {| zone_id := "z1"; zone_name := "example.com" |}.

Definition apiZone : CloudflareZone :=
  {| zone_id := "z2"; zone_name := "api.example.com" |}.

Definition mkRecord (id : string) (t : CloudflareDnsRecordType)
    (name content : string) : CloudflareDnsRecord :=
  {| rec_id := id; rec_type := t; rec_name := name; rec_content := content;
     rec_proxied := true; rec_ttl := 1 |}.

Definition homeA1 := mkRecord "a1" A "home.example.com" "198.51.100.7".
Definition homeA2 := mkRecord "a2" A "home.example.com" "203.0.113.5".
Definition homeA3 := mkRecord "a3" A "home.example.com" "192.0.2.1".
Definition homeCname :=
  mkRecord "c1" CNAME "home.example.com" "origin.example.net".
Definition homeAAAA := mkRecord "q1" AAAA "home.example.com" "2001:db8::1".

Definition exampleConfig : AppConfig :=
  {| apiToken := "token"; hostnameTargets := ["home.example.com"];
     zoneTargets := []; blacklist := []; includeIPv4 := true;
     includeIPv6 := false; updateIntervalSeconds := 300; proxied := true |}.

Definition exampleIps : ResolvedIpAddresses :=
  {| ipv4 := Some "203.0.113.5"; ipv6 := None |}.

Definition exampleProvider (records : list CloudflareDnsRecord) : Provider :=
  {| prov_zones := [exampleZone];
     prov_records := List.map (fun r => ("z1", r)) records |}.

(** The block of [reconcileHostname] for one address family, which the
    function has once for A/IPv4 and once for AAAA/IPv6: converge to the
    resolved address when the family is managed, delete the existing
    records of the type when it is not. *)
Definition familyStep {W} (client : Client W) (config : AppConfig)
    (zoneId zoneName hostname : string) (t : AddressRecordType)
    (enabled : bool) (address : option string) (unresolved : string)
    (existing : list CloudflareDnsRecord) : Async W (list RecordChange) :=
  if enabled then
    match address with
    | None => throw (newError unresolved)
    | Some a =>
        ensureRecord client zoneId zoneName hostname
          (desiredRecord t config hostname a) existing
    end
  else deleteRecords client zoneId zoneName hostname existing.

(** The A block followed by the AAAA block of [reconcileHostname], on the
    records listed for the hostname. *)
Definition addressSteps {W} (client : Client W) (config : AppConfig)
    (zoneId zoneName hostname : string) (ips : ResolvedIpAddresses)
    (records : list CloudflareDnsRecord) : Async W (list RecordChange) :=
  let* changesA :=
    familyStep client config zoneId zoneName hostname InputA
      (includeIPv4 config) (ipv4 ips) "IPv4 address not resolved"
      (filter (hasType A) records) in
  let* changesAAAA :=
    familyStep client config zoneId zoneName hostname InputAAAA
      (includeIPv6 config) (ipv6 ips) "IPv6 address not resolved"
      (filter (hasType AAAA) records) in
  ret (changesA ++ changesAAAA).

(** *** The in-memory provider seen from one hostname *)

Definition entryId (e : string * CloudflareDnsRecord) : string :=
  rec_id (snd e).

(** Record ids are unique across the provider. *)
Definition UniqueIds (p : Provider) : Prop :=
  NoDup (List.map entryId (prov_records p)).

(** The entry is a record of type [t] named [h] in zone [z]. *)
Definition classOf (z h : string) (t : CloudflareDnsRecordType)
    (e : string * CloudflareDnsRecord) : bool :=
  String.eqb (fst e) z && String.eqb (rec_name (snd e)) h &&
  type_eqb (rec_type (snd e)) t.

(** The records of type [t] the provider lists for hostname [h]. *)
Definition bucket (z h : string) (t : CloudflareDnsRecordType)
    (p : Provider) : list CloudflareDnsRecord :=
  List.map snd (filter (classOf z h t) (prov_records p)).

(** The record is none of the records of [l], by id. *)
Definition notAmong (l : list CloudflareDnsRecord) (r : CloudflareDnsRecord)
    : bool :=
  negb (existsb (fun d => String.eqb (rec_id r) (rec_id d)) l).

(** The entry is none of the records of [l] in zone [z]. *)
Definition keeps (z : string) (l : list CloudflareDnsRecord)
    (e : string * CloudflareDnsRecord) : bool :=
  negb (existsb (fun d => owns z (rec_id d) e) l).

(** The record with id [i] replaced by [r']. *)
Definition swap (i : string) (r' r : CloudflareDnsRecord)
    : CloudflareDnsRecord :=
  if String.eqb (rec_id r) i then r' else r.

Definition withRecords (p : Provider)
    (records : list (string * CloudflareDnsRecord)) : Provider :=
  {| prov_zones := prov_zones p; prov_records := records |}.

(** The records of an address type are converged: there is exactly one
    and it needs no update towards the resolved address. *)
Definition Converged (t : AddressRecordType) (config : AppConfig)
    (h address : string) (l : list CloudflareDnsRecord) : Prop :=
  exists r, l = [r] /\ rec_type r = recordTypeOf t /\
            shouldUpdate r (desiredRecord t config h address) = false.

(** The [skip] change of an unchanged record. *)
Definition unchanged (t : CloudflareDnsRecordType)
    (zoneId zoneName hostname : string) : RecordChange :=
  mkChange skip t hostname zoneId zoneName (Some "unchanged").

(** The state of one address family of a hostname after a reconciliation:
    converged when the family is managed, no record when it is not. *)
Definition Settled (config : AppConfig) (z h : string)
    (t : AddressRecordType) (enabled : bool) (address : option string)
    (p : Provider) : Prop :=
  if enabled
  then exists a, address = Some a /\
                 Converged t config h a (bucket z h (recordTypeOf t) p)
  else bucket z h (recordTypeOf t) p = [].

(** What a second reconciliation reports: one unchanged record for each
    managed family. *)
Definition secondPass (config : AppConfig) (z zn h : string)
    : list RecordChange :=
  (if includeIPv4 config then [unchanged A z zn h] else []) ++
  (if includeIPv6 config then [unchanged AAAA z zn h] else []).

(** *** Zone ownership *)


Definition nameLength (z : CloudflareZone) : nat :=
  String.length (normalizeHostname (zone_name z)).

(** The accumulator of [findZoneForHostname] after the zones [seen]. *)
Definition BestOf (canonical : string) (seen : list CloudflareZone)
    (found : option CloudflareZone) : Prop :=
  match found with
  | None => forall z, In z seen -> zoneMatches canonical z = false
  | Some m =>
      In m seen /\ zoneMatches canonical m = true /\
      forall z, In z seen -> zoneMatches canonical z = true ->
                nameLength z <= nameLength m
  end.


(** Target discovery against the example provider with one more zone. *)
Definition twoZones : Provider :=
  {| prov_zones := [exampleZone; apiZone]; prov_records := [] |}.





(** A whole zone whose apex hostname is blacklisted. *)
Definition apexConfig : AppConfig :=
  {| apiToken := "token"; hostnameTargets := [];
     zoneTargets := ["example.com"]; blacklist := ["example.com"];
     includeIPv4 := true; includeIPv6 := false;
     updateIntervalSeconds := 300; proxied := true |}.

Definition apexProvider : Provider :=
  exampleProvider [mkRecord "a0" A "example.com" "198.51.100.7";
                   mkRecord "a1" A "www.example.com" "198.51.100.7"].

(** *** Scheduler examples *)

Definition oldSummary : UpdateSummary :=
  {| timestamp := "2024-01-01T00:00:00.000Z"; durationMs := 120;
     zoneCount := 1; hostnameCount := 1;
     changes := [mkChange create A "home.example.com" "z1" "example.com" None] |}.

Definition newSummary : UpdateSummary :=
  {| timestamp := "2024-01-01T00:05:00.000Z"; durationMs := 80;
     zoneCount := 1; hostnameCount := 1;
     changes := [unchanged A "z1" "example.com" "home.example.com"] |}.

(** A scheduler at rest that retains an earlier success. *)
Definition afterSuccess : SchedulerVars :=
  {| timer := Some 300000%Z; running := false; lastSuccess := Some oldSummary;
     lastError := None |}.

Definition rateLimited : JsError :=
  newCloudflareApiError "Cloudflare API request failed with status 429" 429
    [{| err_code := 971; err_message := "Rate limited" |}] (Some "{}").

(** Passes over a world that only counts them: one that fails with a
    provider error and one that succeeds. *)
Definition failingPass : Async nat UpdateSummary :=
  fun n => (Throw rateLimited, S n).

Definition succeedingPass : Async nat UpdateSummary :=
  fun n => (Ok newSummary, S n).

Definition fixedClock : nat -> string :=
  fun _ => "2024-01-01T00:05:01.000Z".

(** *** Address lookups *)

Definition lookupRequest (url : string) : HttpRequest :=
  {| req_url := url; req_method := "GET"; req_headers := [];
     req_body := None |}.

(** The lookup at [url] started in world [w] fails: the request is
    rejected, or answered with a status outside 200-299, or the trimmed
    body is no IP address for [isIP]. *)
Definition LookupFails {W} (fetch : Fetch W) (isIP : string -> nat)
    (url : string) (w : W) : Prop :=
  match fetch (lookupRequest url) w with
  | (Throw _, _) => True
  | (Ok response, _) =>
      resp_ok response = false \/ isIP (trim (resp_body response)) = 0
  end.

(** A network that records the URL of every request made: it answers
    the IPv4 echo service with an address and the dual-stack one with an
    error page. *)
Definition loggingFetch : Fetch (list string) :=
  fun request urls =>
    let urls := urls ++ [req_url request] in
    if String.eqb (req_url request) "https://api.ipify.org" then
      (Ok {| resp_status := 200; resp_statusText := "OK";
             resp_body := "203.0.113.5" ++ String (ascii_of_nat 10) "" |}, urls)
    else
      (Ok {| resp_status := 200; resp_statusText := "OK";
             resp_body := "<html>busy</html>" |}, urls).

(** An address test for the examples: the one address they use. *)
Definition exampleIsIP (s : string) : nat :=
  if String.eqb s "203.0.113.5" then 4 else 0.

(** *** Responses of the provider *)

(** The envelope is what a response delivered: some request was
    answered with an ok status and a non-empty body that parsed as this
    envelope, and the envelope reports success. *)
Definition Delivered {W} (platform : Platform W) (T : Type)
    (envelope : CloudflareResponse T) : Prop :=
  exists request w response w',
    fetch platform request w = (Ok response, w') /\
    resp_ok response = true /\
    resp_body response <> "" /\
    JSON_parse platform T (resp_body response) = Parsed envelope /\
    success envelope = true.

(** A platform whose provider answers every request with status 200
    and no body; its parser is never reached. *)
Definition emptyPlatform : Platform unit := {|
  fetch := fun _ w =>
    (Ok {| resp_status := 200; resp_statusText := "OK"; resp_body := "" |}, w);
  JSON_parse := fun _ _ => ParseThrows;
  JSON_stringify := fun _ => "";
  numberToString := fun _ => "200";
  searchParamsToString := fun _ => "";
  appendSearchParams := fun url _ => url
|}.

Definition exampleClient : ClientObject :=
  {| token := "token"; baseUrl := "https://api.cloudflare.com/client/v4";
     pageSize := 100 |}.

(** *** The blacklist *)

(** The names of the zones that the configured whole zones resolve to:
    the apex hostnames [collectZoneTargets] adds. *)
Definition configuredApexes (zonesByName : JsMap CloudflareZone)
    (targets : list string) : list string :=
  flat_map (fun zoneName =>
              match map_get zonesByName (normalizeHostname zoneName) with
              | Some z => [zone_name z]
              | None => []
              end) targets.

(** Every hostname in the buckets is off the blacklist or an apex. *)
Definition Clean (blacklist apexes : list string)
    (buckets : JsMap (JsMap string)) : Prop :=
  forall zoneId bucket k v,
    In (zoneId, bucket) buckets -> In (k, v) bucket ->
    isBlacklisted v blacklist = false \/ In v apexes.

(** *** A whole pass *)

(** The world of a pass in the examples: the in-memory provider, the
    URLs requested from the echo services, and a clock that advances by
    one millisecond per provider call. *)
Record PassWorld := {
  pw_provider : Provider;
  pw_urls : list string;
  pw_clock : Z
}.

Definition onProvider {A} (m : Async Provider A) : Async PassWorld A :=
  fun w =>
    let (o, p) := m (pw_provider w) in
    (o, {| pw_provider := p; pw_urls := pw_urls w;
           pw_clock := (pw_clock w + 1)%Z |}).

Definition passClient : Client PassWorld := {|
  listZones := onProvider (listZones providerClient);
  listDnsRecords := fun z n t => onProvider (listDnsRecords providerClient z n t);
  createDnsRecord := fun z i => onProvider (createDnsRecord providerClient z i);
  updateDnsRecord :=
    fun z id i => onProvider (updateDnsRecord providerClient z id i);
  deleteDnsRecord := fun z id => onProvider (deleteDnsRecord providerClient z id)
|}.

Definition passFetch : Fetch PassWorld :=
  fun request w =>
    let (o, urls) := loggingFetch request (pw_urls w) in
    (o, {| pw_provider := pw_provider w; pw_urls := urls;
           pw_clock := pw_clock w |}).

Definition passWorld (records : list CloudflareDnsRecord) : PassWorld :=
  {| pw_provider := exampleProvider records; pw_urls := []; pw_clock := 0 |}.

Definition examplePass (records : list CloudflareDnsRecord)
    : Outcome UpdateSummary :=
  fst (performUpdate passClient passFetch exampleIsIP pw_clock
         (fun _ => "2024-01-01T00:00:00.000Z") exampleConfig
         (passWorld records)).

(** *** Further vocabulary *)

(** The record is none of the three types the reconciler manages. *)
Definition unmanagedType (r : CloudflareDnsRecord) : bool :=
  negb (hasType A r || hasType AAAA r || hasType CNAME r).

(** How many changes one address family contributes: the existing
    records, and at least one change when the family is managed. *)
Definition familyChanges (enabled : bool) (existing : nat) : nat :=
  if enabled then Nat.max 1 existing else existing.

(** The entry is a record that a reconciliation of hostname [h] in zone
    [z] manages: named [h], in [z], of type A, AAAA or CNAME. *)
Definition managedBy (z h : string) (e : string * CloudflareDnsRecord)
    : bool :=
  classOf z h A e || classOf z h AAAA e || classOf z h CNAME e.

(** The provider [p1] has the zones of [p] and the same records apart
    from those a reconciliation of hostname [h] in zone [z] manages. *)
Definition Untouched (z h : string) (p p1 : Provider) : Prop :=
  prov_zones p1 = prov_zones p /\
  forall e, managedBy z h e = false ->
            (In e (prov_records p1) <-> In e (prov_records p)).

(** The record is what the reconciler wants for the hostname: of the
    type of the family, named [h], holding the address, with the
    configured proxy flag and the automatic TTL. *)
Definition isDesired (t : AddressRecordType) (config : AppConfig)
    (h address : string) (r : CloudflareDnsRecord) : Prop :=
  rec_type r = recordTypeOf t /\ rec_name r = h /\
  rec_content r = address /\ rec_proxied r = proxied config /\
  rec_ttl r = AUTO_TTL.

(** The strings ascend by code units: none is below its predecessor. *)
Definition Ascending (l : list string) : Prop :=
  Sorted (fun a b => String.ltb b a = false) l.

(** The buckets of [collectZoneTargets] are in order: one bucket per
    zone id; no bucket is empty; a bucket has one entry per canonical
    form, mapped to a hostname of that form. *)
Definition GoodBuckets (buckets : JsMap (JsMap string)) : Prop :=
  NoDup (List.map fst buckets) /\
  forall zoneId bucket,
    In (zoneId, bucket) buckets ->
    bucket <> [] /\ NoDup (List.map fst bucket) /\
    forall k v, In (k, v) bucket -> normalizeHostname v = k.

(** The record is of a type that names a host. *)
Definition isHostRecord (r : CloudflareDnsRecord) : bool :=
  existsb (type_eqb (rec_type r)) HOST_RECORD_TYPES.

(** The bucket of [collectHostnamesFromZoneRecords] after the records
    [seen]: one entry per canonical form; every entry is the name of a
    host record seen that is off the blacklist; every such record seen
    has its canonical form in the bucket. *)
Definition Collected (blacklist : list string)
    (seen : list CloudflareDnsRecord) (bucket : JsMap string) : Prop :=
  NoDup (List.map fst bucket) /\
  (forall k v, In (k, v) bucket ->
     normalizeHostname v = k /\
     exists r, In r seen /\ rec_name r = v /\ isHostRecord r = true /\
               isBlacklisted v blacklist = false) /\
  (forall r, In r seen -> isHostRecord r = true ->
     isBlacklisted (rec_name r) blacklist = false ->
     In (normalizeHostname (rec_name r)) (List.map fst bucket)).

(** *** Configuration *)

(** The character occurs in the string. *)
Fixpoint hasChar (c : ascii) (s : string) : bool :=
  match s with
  | EmptyString => false
  | String d r => Ascii.eqb d c || hasChar c r
  end.

(** An environment for the examples: a token, two hostnames written
    with spaces and an empty entry, and a period of one minute. *)
Definition exampleEnv : Env :=
  fun key =>
    if String.eqb key "CLOUDFLARE_API_TOKEN" then Some "token"
    else if String.eqb key "TARGET_HOSTNAMES"
    then Some " home.example.com, ,vpn.example.com "
    else if String.eqb key "UPDATE_INTERVAL_SECONDS" then Some "60"
    else None.

(** A [parseInt] for the examples: it reads the one number they use. *)
Definition exampleParseInt (s : string) : option Z :=
  if String.eqb s "60" then Some 60%Z else None.

(** Every bucket is filed under the id of a listed zone. *)
Definition KnownIds (zones : list CloudflareZone)
    (buckets : JsMap (JsMap string)) : Prop :=
  forall zoneId, In zoneId (List.map fst buckets) ->
                 In zoneId (List.map zone_id zones).

(** A pass that fails with a plain [Error], as [reconcileHostname]
    throws one, carrying the stack the engine gave it. *)
Definition unresolved : JsError :=
  PlainError "IPv4 address not resolved"
    (Some "Error: IPv4 address not resolved at reconcileHostname").

Definition unresolvedPass : Async nat UpdateSummary :=
  fun n => (Throw unresolved, S n).



(** *** ASCII text *)

Definition isAsciiChar (c : ascii) : bool := (nat_of_ascii c <? 128)%nat.

(** Every character of the string is below 128: on such text the
    strings and the string functions of the model are those of the
    code. *)
Fixpoint isAsciiString (s : string) : bool :=
  match s with
  | EmptyString => true
  | String c r => isAsciiChar c && isAsciiString r
  end.

(* ================================================================== *)
(** * Properties                                                       *)
(* ================================================================== *)

(** ** The record reconciler *)

Lemma type_eqb_eq a b : type_eqb a b = true <-> a = b.
Proof. split; [destruct a, b; simpl; congruence | intros ->; destruct b; reflexivity]. Qed.

Lemma shouldUpdate_differs existing desired :
  shouldUpdate existing desired = true <-> differs existing desired.
Proof.
  unfold shouldUpdate, differs.
  destruct (String.eqb_spec (rec_content existing) (in_content desired)) as [Hc|Hc]; simpl.
  2:{ split; auto. }
  destruct (Bool.eqb (rec_proxied existing) (in_proxied desired)) eqn:Hp; simpl.
  2:{ split; auto. intros _. right; left. intros E. rewrite E in Hp.
      rewrite Bool.eqb_reflx in Hp. discriminate. }
  apply Bool.eqb_prop in Hp.
  destruct (Z.eqb_spec (rec_ttl existing) (in_ttl desired)) as [Ht|Ht]; simpl.
  - split; [discriminate | intros [H|[H|H]]; contradiction].
  - split; auto.
Qed.

Section ReconcilerFacts.
Context {W : Type}.
Variable client : Client W.
Variables zoneId zoneName hostname : string.

Let del := deleteChange zoneId zoneName hostname.

Lemma deleteRecordsFrom_ok records : forall acc w changes w',
  deleteRecordsFrom client zoneId zoneName hostname records acc w
    = (Ok changes, w') ->
  changes = acc ++ List.map del records.
Proof.
  induction records as [|r rest IH]; intros acc w changes w' H; simpl in H.
  - unfold ret in H. inversion H. now rewrite app_nil_r.
  - unfold bind in H.
    destruct (deleteDnsRecord client zoneId (rec_id r) w) as [[[]|e] w1];
      [|discriminate].
    apply IH in H. rewrite H, <- app_assoc. reflexivity.
Qed.

Lemma deleteRecords_ok records w changes w' :
  deleteRecords client zoneId zoneName hostname records w = (Ok changes, w') ->
  changes = List.map del records.
Proof. intros H. apply deleteRecordsFrom_ok in H. exact H. Qed.

Lemma deleteRecords_nil w :
  deleteRecords client zoneId zoneName hostname [] w = (Ok [], w).
Proof. reflexivity. Qed.

Lemma deleteRecordsFrom_reliable (R : Reliable client) records :
  forall acc w, exists changes w',
    deleteRecordsFrom client zoneId zoneName hostname records acc w
      = (Ok changes, w').
Proof.
  induction records as [|r rest IH]; intros acc w; simpl.
  - now exists acc, w.
  - unfold bind. destruct R as (_ & _ & Rd).
    destruct (Rd zoneId (rec_id r) w) as [w1 E]. rewrite E. apply IH.
Qed.

(** Against a client whose calls never throw, [ensureRecord] returns. *)
Lemma ensureRecord_reliable (R : Reliable client) desired existing w :
  exists changes w',
    ensureRecord client zoneId zoneName hostname desired existing w
      = (Ok changes, w').
Proof.
  destruct existing as [|primary duplicates]; simpl; unfold bind, ret.
  - destruct R as (Rc & _). destruct (Rc zoneId desired w) as (r & w1 & E).
    rewrite E. eauto.
  - destruct (shouldUpdate primary desired).
    + destruct R as (Rc & Ru & Rd).
      destruct (Ru zoneId (rec_id primary) desired w) as (r & w1 & E).
      rewrite E.
      destruct (deleteRecordsFrom_reliable (conj Rc (conj Ru Rd)) duplicates [] w1)
        as (c & w2 & E2).
      unfold deleteRecords. rewrite E2. eauto.
    + destruct (deleteRecordsFrom_reliable R duplicates [] w) as (c & w2 & E2).
      unfold deleteRecords. rewrite E2. eauto.
Qed.

Lemma countKind_app k l1 l2 :
  countKind k (l1 ++ l2) = countKind k l1 + countKind k l2.
Proof. unfold countKind. now rewrite filter_app, length_app. Qed.

Lemma countKind_deletes k records :
  countKind k (List.map del records)
    = if kind_eqb delete k then length records else 0.
Proof.
  unfold countKind. subst del.
  induction records as [|r rest IH]; simpl.
  - now destruct k.
  - destruct k; simpl in *; congruence.
Qed.
End ReconcilerFacts.

Lemma countKind_cons k c l :
  countKind k (c :: l) = (if kind_eqb (kind c) k then 1 else 0) + countKind k l.
Proof. unfold countKind. simpl. now destruct (kind_eqb (kind c) k). Qed.

(** Counting the kinds of a change followed by deletions. *)
Ltac count_changes :=
  rewrite ?countKind_cons, ?countKind_app, ?countKind_deletes,
    ?length_app, ?length_map;
  simpl; rewrite ?length_map; lia.

(** C1.  [ensureRecord] against any client.  With no existing record it
    asks the provider to create the desired record: when that call
    returns, [ensureRecord] returns exactly one [create] change in the
    world the call left; when the call throws, so does [ensureRecord].
    With [n >= 1] existing records the first is the primary: when its
    content, proxy flag or TTL differs from the desired ones the
    provider is asked to update that record, and the first change is an
    [update]; otherwise no call is made for it and the first change is a
    [skip] with reason "unchanged".  Then the [n - 1] records after the
    first are deleted, whatever they hold, and the changes are the first
    change followed by one [delete] for each of them, in the world the
    deletions left; a call that throws makes [ensureRecord] throw.  So
    whenever [ensureRecord] returns there is one [create] for [n = 0]
    and one [update] or [skip] with [n - 1] deletions for [n >= 1], and
    it returns whenever the calls of the client do. *)
Theorem ensureRecord_changes :
  forall (W : Type) (client : Client W) (zoneId zoneName hostname : string)
         (desired : DnsRecordInput) (existing : list CloudflareDnsRecord)
         (w : W),
    let run :=
      ensureRecord client zoneId zoneName hostname desired existing w in
    match existing with
    | [] =>
        match createDnsRecord client zoneId desired w with
        | (Ok created, w1) =>
            run = (Ok [mkChange create (rec_type created)
                         hostname zoneId zoneName None], w1)
        | (Throw e, w1) => run = (Throw e, w1)
        end
    | primary :: duplicates =>
        let finish (first : RecordChange) (w1 : W) :=
          match deleteRecords client zoneId zoneName hostname duplicates w1
          with
          | (Ok _, w') =>
              run = (Ok (first ::
                         List.map (deleteChange zoneId zoneName hostname)
                           duplicates), w')
          | (Throw e, w') => run = (Throw e, w')
          end in
        (differs primary desired ->
           match updateDnsRecord client zoneId (rec_id primary) desired w with
           | (Ok updated, w1) =>
               finish (mkChange update (rec_type updated)
                         hostname zoneId zoneName None) w1
           | (Throw e, w1) => run = (Throw e, w1)
           end) /\
        (~ differs primary desired ->
           finish (mkChange skip (rec_type primary)
                     hostname zoneId zoneName (Some "unchanged")) w)
    end /\
    (forall changes w', run = (Ok changes, w') ->
       match existing with
       | [] => countKind create changes = 1 /\ length changes = 1
       | primary :: duplicates =>
           (differs primary desired ->
              countKind update changes = 1 /\ countKind skip changes = 0) /\
           (~ differs primary desired ->
              countKind skip changes = 1 /\ countKind update changes = 0) /\
           countKind update changes + countKind skip changes = 1 /\
           countKind delete changes = length existing - 1 /\
           countKind create changes = 0 /\
           length changes = length existing
       end) /\
    (Reliable client -> exists changes w', run = (Ok changes, w')).
Proof.
  intros W client zoneId zoneName hostname desired existing w run.
  assert (match existing with
          | [] =>
              match createDnsRecord client zoneId desired w with
              | (Ok created, w1) =>
                  run = (Ok [mkChange create (rec_type created)
                               hostname zoneId zoneName None], w1)
              | (Throw e, w1) => run = (Throw e, w1)
              end
          | primary :: duplicates =>
              let finish (first : RecordChange) (w1 : W) :=
                match deleteRecords client zoneId zoneName hostname
                        duplicates w1 with
                | (Ok _, w') =>
                    run = (Ok (first ::
                               List.map (deleteChange zoneId zoneName hostname)
                                 duplicates), w')
                | (Throw e, w') => run = (Throw e, w')
                end in
              (differs primary desired ->
                 match updateDnsRecord client zoneId (rec_id primary)
                         desired w with
                 | (Ok updated, w1) =>
                     finish (mkChange update (rec_type updated)
                               hostname zoneId zoneName None) w1
                 | (Throw e, w1) => run = (Throw e, w1)
                 end) /\
              (~ differs primary desired ->
                 finish (mkChange skip (rec_type primary)
                           hostname zoneId zoneName (Some "unchanged")) w)
          end) as Does.
  { subst run. destruct existing as [|primary duplicates]; simpl;
      unfold bind, ret.
    - destruct (createDnsRecord client zoneId desired w) as [[created|e] w1];
        reflexivity.
    - pose proof (shouldUpdate_differs primary desired) as Hd. split.
      + intros Hy. apply Hd in Hy. rewrite Hy.
        destruct (updateDnsRecord client zoneId (rec_id primary) desired w)
          as [[updated|e] w1]; [|reflexivity].
        destruct (deleteRecords client zoneId zoneName hostname duplicates w1)
          as [[dups|e] w2] eqn:Hdel; [|reflexivity].
        apply deleteRecords_ok in Hdel. now subst dups.
      + intros Hn.
        destruct (shouldUpdate primary desired) eqn:Hs;
          [exfalso; apply Hn, Hd; reflexivity|].
        destruct (deleteRecords client zoneId zoneName hostname duplicates w)
          as [[dups|e] w2] eqn:Hdel; [|reflexivity].
        apply deleteRecords_ok in Hdel. now subst dups. }
  split; [exact Does|]. split.
  - intros changes w' H.
    destruct existing as [|primary duplicates].
    + destruct (createDnsRecord client zoneId desired w) as [[created|e] w1];
        rewrite Does in H; [|discriminate].
      inversion H; subst. split; reflexivity.
    + destruct Does as [Dy Dn]. cbv zeta in Dy, Dn.
      pose proof (shouldUpdate_differs primary desired) as Hd.
      destruct (shouldUpdate primary desired) eqn:Hs.
      * assert (differs primary desired) as Hy by (apply Hd; reflexivity).
        specialize (Dy Hy).
        destruct (updateDnsRecord client zoneId (rec_id primary) desired w)
          as [[updated|e] w1]; [|rewrite Dy in H; discriminate].
        destruct (deleteRecords client zoneId zoneName hostname duplicates w1)
          as [[dups|e] w2]; rewrite Dy in H; [|discriminate].
        inversion H; subst.
        split; [intros _; split; count_changes|].
        split; [intros Hn; contradiction|].
        repeat split; count_changes.
      * assert (~ differs primary desired) as Hn
          by (intros Hy; apply Hd in Hy; discriminate).
        specialize (Dn Hn).
        destruct (deleteRecords client zoneId zoneName hostname duplicates w)
          as [[dups|e] w2]; rewrite Dn in H; [|discriminate].
        inversion H; subst.
        split; [intros Hy; contradiction|].
        split; [intros _; split; count_changes|].
        repeat split; count_changes.
  - intros R. subst run.
    apply (@ensureRecord_reliable W client zoneId zoneName hostname R).
Qed.

Lemma ensureRecord_changes_witness :
  let desired :=
    desiredRecord InputA exampleConfig "home.example.com" "203.0.113.5" in
  let ensure existing :=
    ensureRecord providerClient "z1" "example.com" "home.example.com"
      desired existing (exampleProvider existing) in
  ensure []
    = (Ok [mkChange create A "home.example.com" "z1" "example.com" None],
       exampleProvider [recordOfInput "r" desired]) /\
  ensure [homeA2]
    = (Ok [mkChange skip A "home.example.com" "z1" "example.com"
             (Some "unchanged")],
       exampleProvider [homeA2]) /\
  ensure [homeA1; homeA2; homeA3]
    = (Ok [mkChange update A "home.example.com" "z1" "example.com" None;
           mkChange delete A "home.example.com" "z1" "example.com" None;
           mkChange delete A "home.example.com" "z1" "example.com" None],
       exampleProvider [recordOfInput "a1" desired]).
Proof.
  intros desired ensure.
  pose proof (@ensureRecord_changes Provider providerClient "z1" "example.com"
                "home.example.com" desired [] (exampleProvider [])) as H0.
  pose proof (@ensureRecord_changes Provider providerClient "z1" "example.com"
                "home.example.com" desired [homeA2] (exampleProvider [homeA2]))
    as H1.
  pose proof (@ensureRecord_changes Provider providerClient "z1" "example.com"
                "home.example.com" desired [homeA1; homeA2; homeA3]
                (exampleProvider [homeA1; homeA2; homeA3])) as H3.
  cbv zeta in H0, H1, H3.
  destruct H0 as (H0 & _). destruct H1 as ((_ & H1) & _).
  destruct H3 as ((H3 & _) & _).
  split; [exact H0|]. split.
  - apply H1. intros [D|[D|D]]; apply D; reflexivity.
  - apply H3. left. discriminate.
Defined.

(** A reliable client exists, and against it [ensureRecord] returns for
    any existing records: the client that accepts every call. *)
Lemma countingClient_Reliable : Reliable countingClient.
Proof. repeat split; intros; simpl; eauto. Qed.

Example ensureRecord_returns existing n :
  exists changes n',
    ensureRecord countingClient "z1" "example.com" "home.example.com"
      (desiredRecord InputA exampleConfig "home.example.com" "203.0.113.5")
      existing n = (Ok changes, n') /\
    length changes = Nat.max 1 (length existing).
Proof.
  destruct (ensureRecord_reliable "z1" "example.com" "home.example.com"
              countingClient_Reliable
              (desiredRecord InputA exampleConfig "home.example.com"
                 "203.0.113.5") existing n) as (changes & n' & E).
  exists changes, n'. split; [exact E|].
  destruct existing as [|primary duplicates]; simpl in E; unfold bind, ret in E.
  - inversion E. reflexivity.
  - destruct (shouldUpdate primary _); simpl in E;
      destruct (deleteRecords countingClient "z1" "example.com"
                  "home.example.com" duplicates _) as [[dups|e] n2] eqn:D;
      try discriminate; apply deleteRecords_ok in D; inversion E; subst;
      simpl; now rewrite length_map.
Qed.

Lemma partitionRecords_from records : forall acc,
  fold_left partitionStep records acc =
    {| aRecords := aRecords acc ++ filter (hasType A) records;
       aaaaRecords := aaaaRecords acc ++ filter (hasType AAAA) records;
       cnameRecords := cnameRecords acc ++ filter (hasType CNAME) records |}.
Proof.
  induction records as [|r rest IH]; intros [a q c]; simpl.
  - now rewrite !app_nil_r.
  - rewrite IH. unfold partitionStep, hasType.
    destruct (rec_type r); simpl; rewrite <- ?app_assoc; reflexivity.
Qed.

Lemma partitionRecords_filter records :
  partitionRecords records =
    {| aRecords := filter (hasType A) records;
       aaaaRecords := filter (hasType AAAA) records;
       cnameRecords := filter (hasType CNAME) records |}.
Proof. unfold partitionRecords. now rewrite partitionRecords_from. Qed.

Section ReconcileSteps.
Context {W : Type}.
Variable client : Client W.
Variable config : AppConfig.
Variables zoneId zoneName hostname : string.
Variable ips : ResolvedIpAddresses.

Lemma bind_ext {A B} (m : Async W A) (k k' : A -> Async W B) w :
  (forall a w', k a w' = k' a w') -> bind m k w = bind m k' w.
Proof. intros H. unfold bind. destruct (m w) as [[a|e] w']; auto. Qed.

Lemma bind_bind {A B C} (m : Async W A) (k1 : A -> Async W B)
    (k2 : B -> Async W C) w :
  bind (bind m k1) k2 w = bind m (fun a => bind (k1 a) k2) w.
Proof. unfold bind. destruct (m w) as [[a|e] w']; reflexivity. Qed.

(** The guard [records.length > 0] in front of [deleteRecords] changes
    nothing: on an empty list [deleteRecords] makes no call. *)
Lemma guarded_delete {B} records (acc : list RecordChange)
    (k : list RecordChange -> Async W B) w :
  bind (if (0 <? length records)%nat then
          let* deleted :=
            deleteRecords client zoneId zoneName hostname records in
          ret (acc ++ deleted)
        else ret acc) k w =
  bind (deleteRecords client zoneId zoneName hostname records)
       (fun deleted => k (acc ++ deleted)) w.
Proof.
  destruct records as [|r rest].
  - unfold bind, ret. simpl. unfold ret. now rewrite app_nil_r.
  - cbn [length Nat.ltb Nat.leb]. rewrite bind_bind. reflexivity.
Qed.

Lemma family_block {B} (t : AddressRecordType) (enabled : bool)
    (address : option string) (unresolved : string)
    (existing : list CloudflareDnsRecord) (acc : list RecordChange)
    (k : list RecordChange -> Async W B) w :
  bind (if enabled then
          match address with
          | None => throw (newError unresolved)
          | Some a =>
              let desired :=
                {| in_type := t; in_name := hostname; in_content := a;
                   in_proxied := proxied config; in_ttl := AUTO_TTL |} in
              let* applied :=
                ensureRecord client zoneId zoneName hostname desired existing in
              ret (acc ++ applied)
          end
        else if (0 <? length existing)%nat then
          let* deleted :=
            deleteRecords client zoneId zoneName hostname existing in
          ret (acc ++ deleted)
        else ret acc) k w =
  bind (familyStep client config zoneId zoneName hostname t enabled address
          unresolved existing)
       (fun c => k (acc ++ c)) w.
Proof.
  unfold familyStep. destruct enabled.
  - destruct address as [a|]; [|reflexivity].
    cbv zeta. rewrite bind_bind. reflexivity.
  - apply guarded_delete.
Qed.

(** [reconcileHostname] is its three steps in sequence: the CNAME
    deletions, the A block, the AAAA block. *)
Lemma reconcileHostname_steps w :
  reconcileHostname client config zoneId zoneName hostname ips w =
  (let* records := listDnsRecords client zoneId (Some hostname) None in
   let* deleted :=
     deleteRecords client zoneId zoneName hostname
       (filter (hasType CNAME) records) in
   let* changesA :=
     familyStep client config zoneId zoneName hostname InputA
       (includeIPv4 config) (ipv4 ips) "IPv4 address not resolved"
       (filter (hasType A) records) in
   let* changesAAAA :=
     familyStep client config zoneId zoneName hostname InputAAAA
       (includeIPv6 config) (ipv6 ips) "IPv6 address not resolved"
       (filter (hasType AAAA) records) in
   ret (deleted ++ changesA ++ changesAAAA)) w.
Proof.
  unfold reconcileHostname. apply bind_ext. intros records w0.
  rewrite partitionRecords_filter.
  cbn [aRecords aaaaRecords cnameRecords]. cbv zeta.
  rewrite guarded_delete. apply bind_ext. intros deleted w1.
  rewrite family_block. apply bind_ext. intros changesA w2.
  rewrite family_block. apply bind_ext. intros changesAAAA w3.
  unfold ret. now rewrite app_assoc.
Qed.
End ReconcileSteps.

Lemma bind_Ok {W A B} (m : Async W A) (k : A -> Async W B) w b w' :
  bind m k w = (Ok b, w') ->
  exists a w1, m w = (Ok a, w1) /\ k a w1 = (Ok b, w').
Proof.
  unfold bind. destruct (m w) as [[a|e] w1]; [eauto | discriminate].
Qed.

Lemma ret_Ok {W A} (a b : A) (w w' : W) :
  ret a w = (Ok b, w') -> a = b /\ w = w'.
Proof. unfold ret. intros H. now inversion H. Qed.

(** C2.  [reconcileHostname] is, for every client and whatever the
    outcome of its calls: the listing of the records of the hostname,
    then the deletion of every CNAME record listed, then the A and AAAA
    blocks.  So when it returns, the records were read first, then every
    CNAME record among them was deleted, one [delete] change each, and
    only from the world so reached were the A and AAAA blocks run; the
    changes are the CNAME deletions followed by those of the two
    blocks.  For a hostname whose
    records are one CNAME record and no A record, with IPv4 managed and
    IPv6 not, the changes are the deletion of the CNAME, then the
    [create] of the A record the provider was asked for, then the
    deletions of the AAAA records listed, of which the scenario has
    none.  And the scenario is produced: when the listing holds the one
    CNAME record and no A or AAAA record, the IPv4 address is resolved
    and the provider accepts the deletion and then the creation,
    [reconcileHostname] returns exactly the [delete] of the CNAME
    followed by the [create] of the A record, in the world the creation
    left. *)
Theorem reconcileHostname_cname_first :
  forall (W : Type) (client : Client W) (config : AppConfig)
         (zoneId zoneName hostname : string) (ips : ResolvedIpAddresses)
         (w : W),
    reconcileHostname client config zoneId zoneName hostname ips w
      = (let* records := listDnsRecords client zoneId (Some hostname) None in
         let* deleted :=
           deleteRecords client zoneId zoneName hostname
             (filter (hasType CNAME) records) in
         let* rest :=
           addressSteps client config zoneId zoneName hostname ips records in
         ret (deleted ++ rest)) w /\
    (forall changes w',
       reconcileHostname client config zoneId zoneName hostname ips w
         = (Ok changes, w') ->
       exists records w0 w1 rest,
         listDnsRecords client zoneId (Some hostname) None w
           = (Ok records, w0) /\
         deleteRecords client zoneId zoneName hostname
           (filter (hasType CNAME) records) w0
           = (Ok (List.map (deleteChange zoneId zoneName hostname)
                    (filter (hasType CNAME) records)), w1) /\
         addressSteps client config zoneId zoneName hostname ips records w1
           = (Ok rest, w') /\
         changes = List.map (deleteChange zoneId zoneName hostname)
                     (filter (hasType CNAME) records) ++ rest /\
         (forall c,
            filter (hasType CNAME) records = [c] ->
            filter (hasType A) records = [] ->
            includeIPv4 config = true -> includeIPv6 config = false ->
            exists address created w2,
              ipv4 ips = Some address /\
              createDnsRecord client zoneId
                (desiredRecord InputA config hostname address) w1
                = (Ok created, w2) /\
              changes =
                [deleteChange zoneId zoneName hostname c;
                 mkChange create (rec_type created)
                   hostname zoneId zoneName None]
                ++ List.map (deleteChange zoneId zoneName hostname)
                     (filter (hasType AAAA) records))) /\
    (forall records w0 c w1 address created w2,
       listDnsRecords client zoneId (Some hostname) None w
         = (Ok records, w0) ->
       filter (hasType CNAME) records = [c] ->
       filter (hasType A) records = [] ->
       filter (hasType AAAA) records = [] ->
       includeIPv4 config = true -> includeIPv6 config = false ->
       ipv4 ips = Some address ->
       deleteDnsRecord client zoneId (rec_id c) w0 = (Ok tt, w1) ->
       createDnsRecord client zoneId
         (desiredRecord InputA config hostname address) w1
         = (Ok created, w2) ->
       reconcileHostname client config zoneId zoneName hostname ips w
         = (Ok [deleteChange zoneId zoneName hostname c;
                mkChange create (rec_type created)
                  hostname zoneId zoneName None], w2)).
Proof.
  intros W client config zoneId zoneName hostname ips w. split; [|split].
  - rewrite reconcileHostname_steps.
    apply bind_ext. intros records w0. apply bind_ext. intros deleted w1.
    unfold addressSteps. rewrite bind_bind.
    apply bind_ext. intros changesA w2. rewrite bind_bind.
    apply bind_ext. intros changesAAAA w3. reflexivity.
  - intros changes w' H.
    rewrite reconcileHostname_steps in H.
    apply bind_Ok in H. destruct H as (records & w0 & Hl & H).
    apply bind_Ok in H. destruct H as (deleted & w1 & Hd & H).
    pose proof (deleteRecords_ok _ _ _ _ _ _ Hd) as ->.
    apply bind_Ok in H. destruct H as (cA & w2 & HA & H).
    apply bind_Ok in H. destruct H as (cQ & w3 & HQ & H).
    apply ret_Ok in H. destruct H as [<- <-].
    exists records, w0, w1, (cA ++ cQ). repeat split; auto.
    + unfold addressSteps, bind. rewrite HA, HQ. reflexivity.
    + intros c Hc Ha H4 H6. rewrite Hc, Ha, H4 in *. rewrite H6 in HQ.
      unfold familyStep in HA, HQ.
      destruct (ipv4 ips) as [address|]; [|discriminate].
      simpl in HA. apply bind_Ok in HA.
      destruct HA as (created & w2' & Hc' & HA).
      apply ret_Ok in HA. destruct HA as [<- <-].
      apply deleteRecords_ok in HQ. subst cQ.
      exists address, created, w2'. auto.
  - intros records w0 c w1 address created w2 Hl Hc Ha Hq H4 H6 Hip Hdel Hcr.
    rewrite reconcileHostname_steps. unfold bind at 1. rewrite Hl.
    rewrite Hc, Ha, Hq, H4, H6, Hip.
    unfold bind at 1. unfold deleteRecords at 1. simpl.
    unfold bind at 1. rewrite Hdel. unfold ret at 1.
    unfold familyStep, bind. simpl. unfold bind. rewrite Hcr.
    reflexivity.
Qed.

Lemma reconcileHostname_cname_first_witness :
  reconcileHostname providerClient exampleConfig "z1" "example.com"
    "home.example.com" exampleIps (exampleProvider [homeCname])
  = (Ok [mkChange delete CNAME "home.example.com" "z1" "example.com" None;
         mkChange create A "home.example.com" "z1" "example.com" None],
     exampleProvider
       [recordOfInput "r"
          (desiredRecord InputA exampleConfig "home.example.com"
             "203.0.113.5")]).
Proof.
  destruct (@reconcileHostname_cname_first Provider providerClient
              exampleConfig "z1" "example.com" "home.example.com" exampleIps
              (exampleProvider [homeCname])) as (_ & _ & Scenario).
  apply (Scenario [homeCname] (exampleProvider [homeCname]) homeCname
           (exampleProvider []) "203.0.113.5"
           (recordOfInput "r"
              (desiredRecord InputA exampleConfig "home.example.com"
                 "203.0.113.5")));
    reflexivity.
Defined.

(** ** The in-memory provider *)

Lemma filter_twice {A} (f g : A -> bool) l :
  filter f (filter g l) = filter (fun x => g x && f x) l.
Proof.
  induction l as [|x l IH]; simpl; [reflexivity|].
  destruct (g x); simpl; [destruct (f x)|]; now rewrite IH.
Qed.

Lemma NoDup_map_filter {A B} (f : A -> B) (g : A -> bool) l :
  NoDup (List.map f l) -> NoDup (List.map f (filter g l)).
Proof.
  induction l as [|x l IH]; simpl; intros H; [constructor|].
  inversion H as [|? ? Hx Hl]; subst. destruct (g x); simpl; auto.
  constructor; auto. intros Hin. apply Hx.
  apply in_map_iff in Hin. destruct Hin as (y & Hy & Hin).
  apply filter_In in Hin. apply in_map_iff. exists y. tauto.
Qed.

Lemma NoDup_map_inj {A B} (f : A -> B) l x y :
  NoDup (List.map f l) -> In x l -> In y l -> f x = f y -> x = y.
Proof.
  induction l as [|a l IH]; simpl; intros H Hx Hy E; [contradiction|].
  inversion H as [|? ? Ha Hl]; subst.
  destruct Hx as [->|Hx], Hy as [->|Hy]; auto.
  - exfalso. apply Ha. rewrite E. now apply in_map.
  - exfalso. apply Ha. rewrite <- E. now apply in_map.
Qed.

Lemma existsb_same {A} (f g : A -> bool) l :
  (forall x, f x = g x) -> existsb f l = existsb g l.
Proof. intros H. induction l as [|x l IH]; simpl; congruence. Qed.

Lemma filter_all {A} (f : A -> bool) l :
  (forall x, In x l -> f x = true) -> filter f l = l.
Proof.
  induction l as [|x l IH]; simpl; intros H; [reflexivity|].
  rewrite (H x) by auto. f_equal. auto.
Qed.

Lemma filter_none {A} (f : A -> bool) l :
  (forall x, In x l -> f x = false) -> filter f l = [].
Proof.
  induction l as [|x l IH]; simpl; intros H; [reflexivity|].
  rewrite (H x) by auto. auto.
Qed.

Lemma notAmong_true l r :
  notAmong l r = true <-> ~ In (rec_id r) (List.map rec_id l).
Proof.
  unfold notAmong. rewrite negb_true_iff. split.
  - intros H Hin. apply in_map_iff in Hin. destruct Hin as (d & E & Hd).
    assert (existsb (fun d => String.eqb (rec_id r) (rec_id d)) l = true).
    { apply existsb_exists. exists d. split; auto.
      apply String.eqb_eq. congruence. }
    congruence.
  - intros H. apply not_true_is_false. intros E.
    apply existsb_exists in E. destruct E as (d & Hd & E).
    apply String.eqb_eq in E. apply H. rewrite E. now apply in_map.
Qed.

Lemma notAmong_false l r :
  notAmong l r = false <-> In (rec_id r) (List.map rec_id l).
Proof.
  destruct (notAmong l r) eqn:E.
  - apply notAmong_true in E. split; [discriminate | contradiction].
  - split; auto. intros _.
    destruct (in_dec string_dec (rec_id r) (List.map rec_id l)); auto.
    apply notAmong_true in n. congruence.
Qed.

(** Deleting all but the first of records with distinct ids keeps the
    first alone; deleting all of them keeps none. *)
Lemma notAmong_rest x l :
  NoDup (List.map rec_id (x :: l)) -> filter (notAmong l) (x :: l) = [x].
Proof.
  intros H. inversion H as [|? ? Hx Hl]; subst. simpl.
  rewrite (proj2 (notAmong_true l x) Hx). f_equal.
  apply filter_none. intros d Hd. apply notAmong_false. now apply in_map.
Qed.

Lemma notAmong_self l : filter (notAmong l) l = [].
Proof.
  apply filter_none. intros d Hd. apply notAmong_false. now apply in_map.
Qed.

Section ProviderFacts.
Variables z zn h : string.

Lemma classOf_true t e :
  classOf z h t e = true <->
  fst e = z /\ rec_name (snd e) = h /\ rec_type (snd e) = t.
Proof.
  unfold classOf. rewrite !andb_true_iff, !String.eqb_eq, type_eqb_eq.
  tauto.
Qed.

(** What [partitionRecords] finds in the listing of the hostname. *)
Lemma listed_bucket t p :
  filter (hasType t)
    (List.map snd (filter (queryMatches z (Some h) None) (prov_records p)))
  = bucket z h t p.
Proof.
  unfold bucket. induction (prov_records p) as [|e l IH]; simpl; [reflexivity|].
  unfold queryMatches, classOf in *.
  destruct (String.eqb (fst e) z), (String.eqb (rec_name (snd e)) h); simpl;
    auto.
  unfold hasType at 1.
  destruct (type_eqb (rec_type (snd e)) t); simpl; now rewrite <- IH.
Qed.

Lemma bucket_In t p r :
  In r (bucket z h t p) <->
  In (z, r) (prov_records p) /\ rec_name r = h /\ rec_type r = t.
Proof.
  unfold bucket. rewrite in_map_iff. split.
  - intros ([z' r'] & E & Hin). simpl in E. subst r'.
    apply filter_In in Hin. destruct Hin as [Hin Hc].
    apply classOf_true in Hc. simpl in Hc. destruct Hc as (-> & Hn & Ht). auto.
  - intros (Hin & Hn & Ht). exists (z, r). split; auto.
    apply filter_In. split; auto. apply classOf_true. auto.
Qed.

Lemma bucket_NoDup t p :
  UniqueIds p -> NoDup (List.map rec_id (bucket z h t p)).
Proof.
  unfold UniqueIds, bucket. intros H. rewrite map_map.
  now apply NoDup_map_filter.
Qed.

Lemma bucket_id_inj t1 t2 p r1 r2 :
  UniqueIds p -> In r1 (bucket z h t1 p) -> In r2 (bucket z h t2 p) ->
  rec_id r1 = rec_id r2 -> r1 = r2.
Proof.
  intros U H1 H2 E. apply bucket_In in H1, H2.
  destruct H1 as (H1 & _), H2 as (H2 & _).
  assert ((z, r1) = (z, r2)) as X by
    (eapply (NoDup_map_inj entryId); eauto).
  now inversion X.
Qed.

(** *** Deleting records *)

Lemma deleteRecordsFrom_provider l : forall acc p,
  NoDup (List.map rec_id l) ->
  (forall d, In d l -> In (z, d) (prov_records p)) ->
  deleteRecordsFrom providerClient z zn h l acc p =
    (Ok (acc ++ List.map (deleteChange z zn h) l),
     withRecords p (filter (keeps z l) (prov_records p))).
Proof.
  induction l as [|d l IH]; intros acc [zs recs] N Hin; simpl in *.
  - unfold ret, withRecords. simpl. rewrite app_nil_r.
    rewrite filter_all; auto.
  - unfold bind. simpl.
    assert (existsb (owns z (rec_id d)) recs = true) as ->.
    { apply existsb_exists. exists (z, d). split; auto.
      unfold owns. simpl. now rewrite !String.eqb_refl. }
    inversion N as [|? ? Nd Nl]; subst.
    rewrite IH; auto.
    + unfold withRecords. simpl. rewrite <- app_assoc. simpl.
      rewrite filter_twice. do 2 f_equal.
      apply filter_ext. intros e. unfold keeps. simpl.
      now rewrite negb_orb.
    + simpl. intros d' Hd'. apply filter_In. split; auto.
      unfold owns. simpl. rewrite String.eqb_refl. simpl.
      apply negb_true_iff, String.eqb_neq. intros E. apply Nd.
      rewrite <- E. now apply in_map.
Qed.

Lemma keeps_UniqueIds l p :
  UniqueIds p -> UniqueIds (withRecords p (filter (keeps z l) (prov_records p))).
Proof. unfold UniqueIds. simpl. apply NoDup_map_filter. Qed.

Lemma keeps_bucket l t p :
  bucket z h t (withRecords p (filter (keeps z l) (prov_records p)))
  = filter (notAmong l) (bucket z h t p).
Proof.
  unfold bucket. simpl. induction (prov_records p) as [|e recs IH]; simpl;
    [reflexivity|].
  destruct (classOf z h t e) eqn:C.
  - pose proof (proj1 (proj1 (classOf_true t e) C)) as Hz.
    assert (keeps z l e = notAmong l (snd e)) as K.
    { unfold keeps, notAmong. f_equal. apply existsb_same.
      intros d. unfold owns. rewrite Hz, String.eqb_refl. reflexivity. }
    simpl. rewrite <- K. destruct (keeps z l e); simpl; rewrite ?C; simpl;
      now rewrite IH.
  - destruct (keeps z l e); simpl; rewrite ?C; exact IH.
Qed.
End ProviderFacts.

Lemma length_append_sum s1 s2 :
  String.length (s1 ++ s2) = String.length s1 + String.length s2.
Proof. induction s1 as [|c s1 IH]; simpl; auto. Qed.

Lemma concat_covers x l :
  In x l -> String.length x <= String.length (String.concat "" l).
Proof.
  induction l as [|y l IH]; simpl; [contradiction|].
  intros [->|Hx].
  - destruct l; [lia|]. rewrite length_append_sum. lia.
  - destruct l as [|y' l]; [contradiction|].
    rewrite length_append_sum. specialize (IH Hx). simpl in *. lia.
Qed.

Lemma freshId_fresh records : ~ In (freshId records) (List.map entryId records).
Proof.
  intros H. apply concat_covers in H. unfold freshId in H. simpl in H.
  unfold entryId in H. lia.
Qed.

Section ProviderWrites.
Variables z h : string.

(** *** Creating a record *)

Lemma create_provider input p :
  UniqueIds p ->
  let r := recordOfInput (freshId (prov_records p)) input in
  let p1 := withRecords p (prov_records p ++ [(z, r)]) in
  createDnsRecord providerClient z input p = (Ok r, p1) /\
  UniqueIds p1 /\
  forall t, bucket z h t p1 =
            bucket z h t p ++ (if classOf z h t (z, r) then [r] else []).
Proof.
  intros U r p1. split; [reflexivity|]. split.
  - unfold UniqueIds, p1. simpl. rewrite map_app. apply NoDup_app; auto.
    + simpl. constructor; [intros []|constructor].
    + intros a Ha [<-|[]]. now apply freshId_fresh in Ha.
  - intros t. unfold bucket, p1. simpl. rewrite filter_app, map_app. simpl.
    now destruct (classOf z h t (z, r)).
Qed.

(** *** Updating a record *)

Lemma update_provider primary input t p :
  UniqueIds p -> In primary (bucket z h t p) ->
  in_name input = h -> recordTypeOf (in_type input) = t ->
  let i := rec_id primary in
  let r := recordOfInput i input in
  let p1 :=
    withRecords p
      (List.map (fun e => if owns z i e then (z, r) else e) (prov_records p)) in
  updateDnsRecord providerClient z i input p = (Ok r, p1) /\
  UniqueIds p1 /\
  forall t', bucket z h t' p1 = List.map (swap i r) (bucket z h t' p).
Proof.
  intros U Hin Hname Htype i r p1.
  apply bucket_In in Hin. destruct Hin as (Hin & Hn & Ht).
  split; [|split].
  - simpl.
    assert (existsb (owns z i) (prov_records p) = true) as ->; [|reflexivity].
    apply existsb_exists. exists (z, primary). split; auto.
    unfold owns, i. simpl. now rewrite !String.eqb_refl.
  - unfold UniqueIds, p1. simpl. rewrite map_map.
    erewrite map_ext; [exact U|]. intros e. simpl.
    destruct (owns z i e) eqn:O; [|reflexivity].
    unfold owns in O. apply andb_true_iff in O. destruct O as [_ O].
    apply String.eqb_eq in O. unfold entryId. simpl. now rewrite O.
  - intros t'. unfold bucket, p1. simpl.
    assert (forall l, (forall e, In e l -> In e (prov_records p)) ->
              List.map snd (filter (classOf z h t')
                (List.map (fun e => if owns z i e then (z, r) else e) l))
              = List.map (swap i r) (List.map snd (filter (classOf z h t') l)))
      as G; [|apply G; auto].
    induction l as [|e l IH]; intros Hl; simpl; [reflexivity|].
    assert (forall e', In e' l -> In e' (prov_records p)) as Hl'
      by (intros; apply Hl; now right).
    specialize (IH Hl').
    destruct (owns z i e) eqn:O.
    + assert (e = (z, primary)) as ->.
      { apply (NoDup_map_inj entryId (prov_records p)); auto.
        - apply Hl. now left.
        - unfold owns in O. apply andb_true_iff in O. destruct O as [_ O].
          now apply String.eqb_eq in O. }
      assert (classOf z h t' (z, r) = classOf z h t' (z, primary)) as ->.
      { unfold classOf, r. simpl. now rewrite Hname, Htype, Hn, Ht. }
      destruct (classOf z h t' (z, primary)); simpl; [|exact IH].
      rewrite IH. unfold swap at 2. fold i. now rewrite String.eqb_refl.
    + destruct (classOf z h t' e) eqn:C; simpl; [|exact IH].
      apply classOf_true in C. destruct C as (Hz & _).
      unfold owns in O. rewrite Hz, String.eqb_refl in O. simpl in O.
      rewrite IH. unfold swap at 2. now rewrite O.
Qed.
End ProviderWrites.

Lemma shouldUpdate_recordOfInput i desired :
  shouldUpdate (recordOfInput i desired) desired = false.
Proof.
  unfold shouldUpdate, recordOfInput. simpl.
  now rewrite String.eqb_refl, Bool.eqb_reflx, Z.eqb_refl.
Qed.

Section ProviderConvergence.
Variables z zn h : string.
Variable config : AppConfig.

Lemma other_bucket_kept l t t' p :
  UniqueIds p -> (forall d, In d l -> In d (bucket z h t p)) -> t' <> t ->
  filter (notAmong l) (bucket z h t' p) = bucket z h t' p.
Proof.
  intros U Hl Ht. apply filter_all. intros r Hr. apply notAmong_true.
  intros Hin. apply in_map_iff in Hin. destruct Hin as (d & E & Hd).
  apply Hl in Hd. symmetry in E.
  pose proof (@bucket_id_inj _ _ _ _ _ _ _ U Hr Hd E) as ->.
  apply bucket_In in Hr, Hd. destruct Hr as (_ & _ & X), Hd as (_ & _ & Y).
  congruence.
Qed.

(** Deleting records of one type of the hostname removes them from the
    records of that type and leaves the other types as they are. *)
Lemma deleteRecords_provider l t p changes p1 :
  UniqueIds p -> NoDup (List.map rec_id l) ->
  (forall d, In d l -> In d (bucket z h t p)) ->
  deleteRecords providerClient z zn h l p = (Ok changes, p1) ->
  UniqueIds p1 /\
  bucket z h t p1 = filter (notAmong l) (bucket z h t p) /\
  (forall t', t' <> t -> bucket z h t' p1 = bucket z h t' p).
Proof.
  intros U N Hl H. unfold deleteRecords in H.
  rewrite deleteRecordsFrom_provider in H; auto.
  2:{ intros d Hd. apply Hl in Hd. apply bucket_In in Hd. tauto. }
  inversion H; subst. split; [|split].
  - now apply keeps_UniqueIds.
  - apply keeps_bucket.
  - intros t' Ht. rewrite keeps_bucket. eapply other_bucket_kept; eauto.
Qed.

Lemma swap_other_bucket primary r t t' p :
  UniqueIds p -> In primary (bucket z h t p) -> t' <> t ->
  List.map (swap (rec_id primary) r) (bucket z h t' p) = bucket z h t' p.
Proof.
  intros U Hp Ht. rewrite <- (map_id (bucket z h t' p)) at 2.
  apply map_ext_in. intros x Hx. unfold swap.
  destruct (String.eqb_spec (rec_id x) (rec_id primary)) as [E|E]; auto.
  pose proof (@bucket_id_inj _ _ _ _ _ _ _ U Hx Hp E) as ->.
  apply bucket_In in Hx, Hp. destruct Hx as (_ & _ & X), Hp as (_ & _ & Y).
  congruence.
Qed.

Lemma swap_own_bucket primary duplicates r :
  NoDup (List.map rec_id (primary :: duplicates)) ->
  List.map (swap (rec_id primary) r) (primary :: duplicates) = r :: duplicates.
Proof.
  intros N. inversion N as [|? ? Np Nd]; subst. simpl.
  unfold swap at 1. rewrite String.eqb_refl. f_equal.
  rewrite <- (map_id duplicates) at 2. apply map_ext_in. intros d Hd.
  unfold swap. destruct (String.eqb_spec (rec_id d) (rec_id primary)) as [E|E];
    auto.
  exfalso. apply Np. rewrite <- E. now apply in_map.
Qed.

(** One address family on the in-memory provider: afterwards the
    records of its type are converged when the family is managed and
    gone when it is not; the records of the other types are untouched. *)
Lemma familyStep_provider t enabled address unresolved p changes p1 :
  UniqueIds p ->
  familyStep providerClient config z zn h t enabled address unresolved
    (bucket z h (recordTypeOf t) p) p = (Ok changes, p1) ->
  UniqueIds p1 /\
  (forall t', t' <> recordTypeOf t -> bucket z h t' p1 = bucket z h t' p) /\
  (if enabled
   then exists a, address = Some a /\
                  Converged t config h a (bucket z h (recordTypeOf t) p1)
   else bucket z h (recordTypeOf t) p1 = []).
Proof.
  intros U H. unfold familyStep in H. destruct enabled.
  2:{ eapply deleteRecords_provider in H; eauto using bucket_NoDup.
      destruct H as (U1 & Hb & Ho). rewrite notAmong_self in Hb. auto. }
  destruct address as [a|]; [|discriminate].
  set (desired := desiredRecord t config h a) in *.
  destruct (bucket z h (recordTypeOf t) p) as [|primary duplicates] eqn:B.
  - cbn [ensureRecord] in H. apply bind_Ok in H.
    destruct H as (created & p' & Hc & H).
    apply ret_Ok in H. destruct H as [_ <-].
    destruct (@create_provider z h desired p U) as (Hc' & U1 & Hb).
    rewrite Hc' in Hc. inversion Hc; subst. clear Hc.
    split; [exact U1|]. split.
    + intros t' Ht. rewrite Hb. unfold classOf. simpl.
      destruct (type_eqb_eq (recordTypeOf t) t') as [X _].
      destruct (type_eqb (recordTypeOf t) t');
        [now specialize (X eq_refl); subst|].
      rewrite andb_false_r. now rewrite app_nil_r.
    + exists a. split; [reflexivity|]. rewrite Hb, B. unfold classOf. simpl.
      rewrite !String.eqb_refl. rewrite (proj2 (type_eqb_eq _ _) eq_refl).
      simpl. eexists. split; [reflexivity|]. split; [reflexivity|].
      apply shouldUpdate_recordOfInput.
  - assert (In primary (bucket z h (recordTypeOf t) p)) as Hp
      by (rewrite B; now left).
    cbn [ensureRecord] in H. apply bind_Ok in H.
    destruct H as (first & p' & Hf & H).
    apply bind_Ok in H. destruct H as (dups & p'' & Hd & H).
    apply ret_Ok in H. destruct H as [_ <-].
    assert (exists x, UniqueIds p' /\
              bucket z h (recordTypeOf t) p' = x :: duplicates /\
              rec_type x = recordTypeOf t /\
              shouldUpdate x desired = false /\
              forall t', t' <> recordTypeOf t ->
                         bucket z h t' p' = bucket z h t' p)
      as (x & U' & B' & Tx & Sx & O').
    { destruct (shouldUpdate primary desired) eqn:S.
      - apply bind_Ok in Hf. destruct Hf as (updated & q & Hu & Hf).
        apply ret_Ok in Hf. destruct Hf as [_ <-].
        destruct (@update_provider z h primary desired _ p U Hp eq_refl eq_refl)
          as (Hu' & U1 & Hb).
        rewrite Hu' in Hu. inversion Hu; subst. clear Hu.
        exists (recordOfInput (rec_id primary) desired).
        split; [exact U1|]. split; [|split; [reflexivity|split]].
        + rewrite Hb, B. apply swap_own_bucket. rewrite <- B.
          now apply bucket_NoDup.
        + apply shouldUpdate_recordOfInput.
        + intros t' Ht. rewrite Hb. now apply swap_other_bucket with (t := recordTypeOf t).
      - apply ret_Ok in Hf. destruct Hf as [_ <-].
        exists primary. repeat split; auto.
        apply bucket_In in Hp. tauto. }
    pose proof (bucket_NoDup z h (recordTypeOf t) U') as N. rewrite B' in N.
    eapply deleteRecords_provider with (t := recordTypeOf t) in Hd; eauto.
    + destruct Hd as (U1 & Hb & Ho). rewrite B' in Hb.
      rewrite notAmong_rest in Hb by exact N.
      split; [exact U1|]. split.
      * intros t' Ht. rewrite Ho, O'; auto.
      * exists a. split; [reflexivity|]. exists x. auto.
    + now inversion N.
    + intros d Hd'. rewrite B'. now right.
Qed.
End ProviderConvergence.

Section Idempotence.
Variables z zn h : string.
Variable config : AppConfig.
Variable ips : ResolvedIpAddresses.

Lemma familyStep_settled t enabled address unresolved p :
  Settled config z h t enabled address p ->
  familyStep providerClient config z zn h t enabled address unresolved
    (bucket z h (recordTypeOf t) p) p
  = (Ok (if enabled then [unchanged (recordTypeOf t) z zn h] else []), p).
Proof.
  unfold Settled, familyStep. destruct enabled.
  - intros (a & -> & r & -> & Ht & Hs). cbn [ensureRecord].
    rewrite Hs, Ht. reflexivity.
  - intros ->. reflexivity.
Qed.

(** A reconciliation of a hostname on a provider whose families are
    settled and that has no CNAME record for it: nothing is written and
    every managed family reports its record unchanged. *)
Lemma reconcileHostname_settled p :
  bucket z h CNAME p = [] ->
  Settled config z h InputA (includeIPv4 config) (ipv4 ips) p ->
  Settled config z h InputAAAA (includeIPv6 config) (ipv6 ips) p ->
  reconcileHostname providerClient config z zn h ips p
  = (Ok (secondPass config z zn h), p).
Proof.
  intros HC HA HQ. rewrite reconcileHostname_steps.
  unfold bind at 1. cbn [listDnsRecords providerClient].
  rewrite !listed_bucket, HC.
  unfold bind at 1. rewrite deleteRecords_nil.
  pose proof (@familyStep_settled _ _ _ "IPv4 address not resolved" _ HA) as RA.
  pose proof (@familyStep_settled _ _ _ "IPv6 address not resolved" _ HQ) as RQ.
  cbn [recordTypeOf] in RA, RQ.
  unfold bind at 1. rewrite RA. unfold bind at 1. rewrite RQ. reflexivity.
Qed.

(** After a reconciliation that returned, the hostname is settled. *)
Lemma reconcileHostname_settles p changes p1 :
  UniqueIds p ->
  reconcileHostname providerClient config z zn h ips p = (Ok changes, p1) ->
  UniqueIds p1 /\
  bucket z h CNAME p1 = [] /\
  Settled config z h InputA (includeIPv4 config) (ipv4 ips) p1 /\
  Settled config z h InputAAAA (includeIPv6 config) (ipv6 ips) p1.
Proof.
  intros U H. rewrite reconcileHostname_steps in H.
  apply bind_Ok in H. destruct H as (records & p0 & Hl & H).
  cbn [listDnsRecords providerClient] in Hl. inversion Hl; subst. clear Hl.
  rewrite !listed_bucket in H.
  apply bind_Ok in H. destruct H as (deleted & pC & Hd & H).
  apply bind_Ok in H. destruct H as (cA & pA & HA & H).
  apply bind_Ok in H. destruct H as (cQ & pQ & HQ & H).
  apply ret_Ok in H. destruct H as [_ <-].
  eapply deleteRecords_provider with (t := CNAME) in Hd;
    eauto using bucket_NoDup.
  destruct Hd as (UC & BC & OC). rewrite notAmong_self in BC.
  rewrite <- (OC A) in HA by discriminate.
  apply (@familyStep_provider z zn h config InputA _ _ _ _ _ _ UC) in HA.
  destruct HA as (UA & OA & SA).
  rewrite <- (OC AAAA), <- (OA AAAA) in HQ by discriminate.
  apply (@familyStep_provider z zn h config InputAAAA _ _ _ _ _ _ UA) in HQ.
  destruct HQ as (UQ & OQ & SQ).
  split; [exact UQ|]. split; [|split].
  - rewrite (OQ CNAME), (OA CNAME) by discriminate. exact BC.
  - unfold Settled in *. simpl in *. rewrite (OQ A) by discriminate. exact SA.
  - exact SQ.
Qed.
End Idempotence.

(** C9.  On a provider with unique record ids that nothing else writes
    to, a reconciliation of a hostname that follows one that returned
    reports, for every managed address family, one [skip] change with
    reason "unchanged" and nothing else, and writes nothing. *)
Theorem reconcileHostname_idempotent :
  forall (config : AppConfig) (zoneId zoneName hostname : string)
         (ips : ResolvedIpAddresses) (p p1 : Provider)
         (changes : list RecordChange),
    UniqueIds p ->
    reconcileHostname providerClient config zoneId zoneName hostname ips p
      = (Ok changes, p1) ->
    reconcileHostname providerClient config zoneId zoneName hostname ips p1
      = (Ok ((if includeIPv4 config
              then [mkChange skip A hostname zoneId zoneName (Some "unchanged")]
              else []) ++
             (if includeIPv6 config
              then [mkChange skip AAAA hostname zoneId zoneName
                      (Some "unchanged")]
              else [])), p1).
Proof.
  intros config zoneId zoneName hostname ips p p1 changes U H.
  destruct (@reconcileHostname_settles _ _ _ _ _ _ _ _ U H)
    as (_ & HC & HA & HQ).
  exact (@reconcileHostname_settled _ zoneName _ _ _ _ HC HA HQ).
Qed.

Lemma reconcileHostname_idempotent_witness :
  let p := exampleProvider [homeCname; homeA1; homeA2; homeAAAA] in
  UniqueIds p /\
  exists changes p1,
    reconcileHostname providerClient exampleConfig "z1" "example.com"
      "home.example.com" exampleIps p = (Ok changes, p1) /\
    countKind delete changes = 3 /\ countKind update changes = 1 /\
    reconcileHostname providerClient exampleConfig "z1" "example.com"
      "home.example.com" exampleIps p1
    = (Ok [unchanged A "z1" "example.com" "home.example.com"], p1).
Proof.
  intros p.
  assert (U : UniqueIds p).
  { unfold UniqueIds. simpl.
    repeat (constructor; [simpl; intuition discriminate|]). constructor. }
  split; [exact U|]. do 2 eexists.
  eassert (E : reconcileHostname providerClient exampleConfig "z1"
                 "example.com" "home.example.com" exampleIps p = (Ok _, _))
    by (vm_compute; reflexivity).
  split; [exact E|]. split; [reflexivity|]. split; [reflexivity|].
  exact (@reconcileHostname_idempotent _ _ _ _ _ _ _ _ U E).
Defined.

(** ** Target discovery *)

Lemma endsWith_suffix s suffix :
  endsWith s suffix = true <-> exists prefix, s = (prefix ++ suffix)%string.
Proof.
  induction s as [|c s IH]; cbn [endsWith].
  - rewrite orb_false_r, String.eqb_eq. split.
    + intros <-. now exists "".
    + intros ([|c p] & E); simpl in E; [auto | discriminate].
  - rewrite orb_true_iff, String.eqb_eq, IH. split.
    + intros [<-|(p & ->)]; [now exists "" | now exists (String c p)].
    + intros ([|c' p] & E); simpl in E; [now left|].
      inversion E; subst. right. now exists p.
Qed.


Lemma findZoneStep_BestOf canonical seen found z :
  BestOf canonical seen found ->
  BestOf canonical (seen ++ [z]) (findZoneStep canonical found z).
Proof.
  unfold findZoneStep. cbv zeta. intros H.
  destruct (zoneMatches canonical z) eqn:M.
  - destruct found as [m|]; simpl in H.
    + destruct H as (Hin & Hm & Hmax).
      fold (nameLength m). fold (nameLength z).
      destruct (Nat.ltb_spec (nameLength m) (nameLength z)) as [L|L]; simpl.
      * split; [apply in_or_app; right; now left|]. split; [exact M|].
        intros z' Hz' Mz'. apply in_app_or in Hz'.
        destruct Hz' as [Hz'|[<-|[]]]; [|lia].
        specialize (Hmax z' Hz' Mz'). lia.
      * split; [apply in_or_app; now left|]. split; [exact Hm|].
        intros z' Hz' Mz'. apply in_app_or in Hz'.
        destruct Hz' as [Hz'|[<-|[]]]; [auto | lia].
    + simpl. split; [apply in_or_app; right; now left|]. split; [exact M|].
      intros z' Hz' Mz'. apply in_app_or in Hz'.
      destruct Hz' as [Hz'|[<-|[]]]; [|lia].
      rewrite (H z' Hz') in Mz'. discriminate.
  - destruct found as [m|]; simpl in *.
    + destruct H as (Hin & Hm & Hmax).
      split; [apply in_or_app; now left|]. split; [exact Hm|].
      intros z' Hz' Mz'. apply in_app_or in Hz'.
      destruct Hz' as [Hz'|[<-|[]]]; [auto | congruence].
    + intros z' Hz'. apply in_app_or in Hz'.
      destruct Hz' as [Hz'|[<-|[]]]; auto.
Qed.

Lemma findZone_fold canonical zones : forall seen found,
  BestOf canonical seen found ->
  BestOf canonical (seen ++ zones)
    (fold_left (findZoneStep canonical) zones found).
Proof.
  induction zones as [|z zones IH]; intros seen found H; simpl.
  - now rewrite app_nil_r.
  - replace (seen ++ z :: zones) with ((seen ++ [z]) ++ zones)
      by (now rewrite <- app_assoc).
    apply IH. now apply findZoneStep_BestOf.
Qed.

(** [findZoneForHostname] returns a longest matching zone, and nothing
    only when no zone matches. *)
Lemma findZoneForHostname_best hostname zones :
  BestOf (normalizeHostname hostname) zones
    (findZoneForHostname hostname zones).
Proof.
  unfold findZoneForHostname. cbv zeta.
  apply (findZone_fold (normalizeHostname hostname) zones [] None).
  intros z [].
Qed.

(** The test-suite example of the specification, in both zone orders. *)
Example findZone_most_specific :
  findZoneForHostname "svc.api.example.com" [exampleZone; apiZone]
    = Some apiZone /\
  findZoneForHostname "svc.api.example.com" [apiZone; exampleZone]
    = Some apiZone /\
  findZoneForHostname "SVC.Api.Example.COM " [exampleZone; apiZone]
    = Some apiZone /\
  findZoneForHostname "svcapi.example.com" [exampleZone; apiZone]
    = Some exampleZone /\
  findZoneForHostname "example.org" [exampleZone; apiZone] = None.
Proof. repeat split; reflexivity. Qed.

Section JsMapFacts.
Context {V : Type}.

Lemma map_get_set_same (m : JsMap V) k v : map_get (map_set m k v) k = Some v.
Proof.
  induction m as [|[k' v'] m IH]; simpl.
  - now rewrite String.eqb_refl.
  - destruct (String.eqb k' k) eqn:E; simpl; rewrite E; auto.
Qed.

Lemma map_get_set_other (m : JsMap V) k v k' :
  k' <> k -> map_get (map_set m k v) k' = map_get m k'.
Proof.
  intros N. induction m as [|[k0 v0] m IH]; simpl.
  - destruct (String.eqb_spec k k'); [congruence | reflexivity].
  - destruct (String.eqb_spec k0 k) as [->|E]; simpl.
    + destruct (String.eqb_spec k k'); [congruence | reflexivity].
    + now rewrite IH.
Qed.

Lemma map_get_In (m : JsMap V) k v : map_get m k = Some v -> In (k, v) m.
Proof.
  induction m as [|[k' v'] m IH]; simpl; [discriminate|].
  destruct (String.eqb_spec k' k) as [->|E].
  - intros H. inversion H. now left.
  - intros H. right. auto.
Qed.

Lemma In_map_set (m : JsMap V) k v k0 v0 :
  In (k0, v0) (map_set m k v) -> In (k0, v0) m \/ (k0 = k /\ v0 = v).
Proof.
  induction m as [|[k' v'] m IH]; simpl.
  - intros [H|[]]. inversion H. auto.
  - destruct (String.eqb_spec k' k) as [->|E]; simpl.
    + intros [H|H]; [inversion H; auto | auto].
    + intros [H|H]; [auto|]. destruct (IH H); auto.
Qed.


End JsMapFacts.

Lemma In_insertSorted x y l : In x (insertSorted y l) <-> x = y \/ In x l.
Proof.
  induction l as [|z l IH]; simpl; [intuition|].
  destruct (String.ltb y z); simpl; rewrite ?IH; intuition.
Qed.

Lemma In_sortStrings x l : In x (sortStrings l) <-> In x l.
Proof.
  unfold sortStrings.
  assert (forall acc, In x (fold_left (fun a y => insertSorted y a) l acc)
                      <-> In x acc \/ In x l) as G.
  { induction l as [|y l IH]; intros acc; simpl; [intuition|].
    rewrite IH, In_insertSorted. intuition. }
  rewrite G. simpl. intuition.
Qed.







Section DiscoveryFacts.
Context {W : Type}.
Variable client : Client W.





Lemma zonesById_key zones zoneId z :
  map_get (map_from (List.map (fun z => (zone_id z, z)) zones)) zoneId = Some z ->
  zone_id z = zoneId.
Proof.
  unfold map_from.
  assert (forall l (m : JsMap CloudflareZone),
            (forall k v, In (k, v) m -> zone_id v = k) ->
            forall k v,
              In (k, v) (fold_left (fun m e => map_set m (fst e) (snd e))
                           (List.map (fun z => (zone_id z, z)) l) m) ->
              zone_id v = k) as G.
  { induction l as [|x l IH]; intros m Hm k v; simpl; [apply Hm|].
    apply IH. intros k' v' H'. apply In_map_set in H'.
    destruct H' as [H'|[-> ->]]; auto. }
  intros H. apply map_get_In in H. eapply G; [|exact H]. intros k v [].
Qed.
End DiscoveryFacts.

Lemma map_from_In {V} (entries : list (string * V)) k v :
  map_get (map_from entries) k = Some v -> In (k, v) entries.
Proof.
  unfold map_from.
  assert (forall l (m : JsMap V),
            In (k, v) (fold_left (fun m e => map_set m (fst e) (snd e)) l m) ->
            In (k, v) m \/ In (k, v) l) as G.
  { induction l as [|[k0 v0] l IH]; intros m H; simpl in *; [now left|].
    apply IH in H. destruct H as [H|H]; [|now right; right].
    apply In_map_set in H. destruct H as [H|[-> ->]];
      [now left | right; now left]. }
  intros H. apply map_get_In in H. apply G in H. destruct H as [[]|H].
  exact H.
Qed.



Section AssignmentFacts.
Context {W : Type}.
Variable client : Client W.
Variable P : string -> string -> Prop.



End AssignmentFacts.





(** C4 on the code: the apex hostname of a configured whole zone is put
    in the target set without the blacklist test the other two paths
    make.  Here the apex is blacklisted: its own A record is left out by
    the enumeration, and the apex is a target all the same. *)
Lemma collectZoneTargets_blacklisted_apex :
  isBlacklisted "example.com"
    (List.map normalizeHostname (blacklist apexConfig)) = true /\
  collectHostnamesFromZoneRecords (List.map snd (prov_records apexProvider))
    (List.map normalizeHostname (blacklist apexConfig)) = ["www.example.com"] /\
  collectZoneTargets providerClient apexConfig apexProvider
    = (Ok [{| zone := exampleZone;
              hostnames := ["example.com"; "www.example.com"] |}],
       apexProvider).
Proof. repeat split. Qed.

(** *** What the blacklist does keep out *)

Lemma appendHostname_Clean bl apexes buckets zoneId hostname :
  Clean bl apexes buckets ->
  isBlacklisted hostname bl = false \/ In hostname apexes ->
  Clean bl apexes (appendHostname buckets zoneId hostname).
Proof.
  intros C Hh zid b k v Hb Hin. unfold appendHostname in Hb. cbv zeta in Hb.
  apply In_map_set in Hb. destruct Hb as [Hb|[-> ->]]; [eauto|].
  assert (forall old, (forall k' v', In (k', v') old ->
                         isBlacklisted v' bl = false \/ In v' apexes) ->
            In (k, v) (if negb (map_has old (normalizeHostname hostname))
                       then map_set old (normalizeHostname hostname) hostname
                       else old) ->
            isBlacklisted v bl = false \/ In v apexes) as G.
  { intros old Hold H.
    destruct (negb (map_has old (normalizeHostname hostname))); [|eauto].
    apply In_map_set in H. destruct H as [H|[_ ->]]; eauto. }
  destruct (map_get buckets zoneId) as [old|] eqn:E.
  - apply (G old); [|exact Hin]. intros k' v' H'.
    apply map_get_In in E. eauto.
  - apply (G []); [|exact Hin]. intros k' v' [].
Qed.

Lemma collectHostnames_off_blacklist records bl name :
  In name (collectHostnamesFromZoneRecords records bl) ->
  isBlacklisted name bl = false.
Proof.
  unfold collectHostnamesFromZoneRecords, map_values.
  assert (forall (l : list CloudflareDnsRecord) (bucket : JsMap string),
            (forall k v, In (k, v) bucket -> isBlacklisted v bl = false) ->
            forall k v, In (k, v) (fold_left (collectStep bl) l bucket) ->
                        isBlacklisted v bl = false) as G.
  { induction l as [|r l IH]; intros bucket Hb k v; simpl; [apply Hb|].
    apply IH. intros k' v'. unfold collectStep.
    destruct (negb (existsb (type_eqb (rec_type r)) HOST_RECORD_TYPES));
      [apply Hb|].
    destruct (isBlacklisted (rec_name r) bl) eqn:B; [apply Hb|].
    destruct (negb (map_has bucket (normalizeHostname (rec_name r))));
      [|apply Hb].
    intros H. apply In_map_set in H. destruct H as [H|[_ ->]]; eauto. }
  intros H. apply in_map_iff in H. destruct H as ([k v] & <- & H).
  eapply G; [|exact H]. intros k' v' [].
Qed.

Section BlacklistFacts.
Context {W : Type}.
Variable client : Client W.
Variables bl apexes : list string.

Lemma forHostnameTargets_Clean zones targets : forall buckets w buckets' w',
  forHostnameTargets (W := W) zones bl targets buckets w = (Ok buckets', w') ->
  Clean bl apexes buckets -> Clean bl apexes buckets'.
Proof.
  induction targets as [|t targets IH]; intros buckets w buckets' w' H C;
    simpl in H.
  - apply ret_Ok in H. now destruct H as [<- _].
  - destruct (isBlacklisted t bl) eqn:B; [eauto|].
    destruct (findZoneForHostname t zones) as [z|]; [|discriminate].
    eapply IH; [exact H|]. apply appendHostname_Clean; auto.
Qed.

Lemma appendAll_Clean zoneId names : forall buckets,
  Clean bl apexes buckets ->
  (forall n, In n names -> isBlacklisted n bl = false) ->
  Clean bl apexes
    (fold_left (fun b name => appendHostname b zoneId name) names buckets).
Proof.
  induction names as [|n names IH]; intros buckets C Hn; simpl; [exact C|].
  apply IH; [|intros; apply Hn; now right].
  apply appendHostname_Clean; [exact C|]. left. apply Hn. now left.
Qed.

Lemma forZoneTargets_Clean zonesByName targets :
  forall buckets w buckets' w',
    forZoneTargets client zonesByName bl targets buckets w = (Ok buckets', w') ->
    (forall a, In a (configuredApexes zonesByName targets) -> In a apexes) ->
    Clean bl apexes buckets -> Clean bl apexes buckets'.
Proof.
  induction targets as [|t targets IH]; intros buckets w buckets' w' H Ha C;
    simpl in H.
  - apply ret_Ok in H. now destruct H as [<- _].
  - simpl in Ha.
    destruct (map_get zonesByName (normalizeHostname t)) as [z|];
      [|discriminate].
    apply bind_Ok in H. destruct H as (records & w1 & _ & H).
    eapply IH; [exact H | |].
    + intros a Hin. apply Ha. apply in_or_app. now right.
    + apply appendAll_Clean.
      * apply appendHostname_Clean; [exact C|]. right. apply Ha. now left.
      * intros n. apply collectHostnames_off_blacklist.
Qed.

Lemma buildResults_from zonesById entries : forall w targets w',
  buildResults (W := W) zonesById entries w = (Ok targets, w') ->
  forall entry, In entry targets ->
    exists zoneId names,
      In (zoneId, names) entries /\
      hostnames entry = sortStrings (map_values names).
Proof.
  induction entries as [|[zid ns] entries IH]; intros w targets w' H entry Hin;
    simpl in H.
  - apply ret_Ok in H. destruct H as [<- _]. contradiction.
  - destruct (map_get zonesById zid) as [z|]; [|discriminate].
    apply bind_Ok in H. destruct H as (more & w1 & Hm & H).
    apply ret_Ok in H. destruct H as [<- _].
    destruct Hin as [<-|Hin].
    + exists zid, ns. split; [now left | reflexivity].
    + destruct (IH _ _ _ Hm _ Hin) as (zid' & ns' & H1 & H2).
      exists zid', ns'. split; [now right | exact H2].
Qed.
End BlacklistFacts.

(** The two paths that make the blacklist test keep it: every hostname
    in a target set is off the blacklist, unless it is the apex name of
    a configured whole zone. *)
Lemma collectZoneTargets_blacklist_but_apex :
  forall (W : Type) (client : Client W) (config : AppConfig) (w w0 w' : W)
         (zones : list CloudflareZone) (targets : list ZoneHostTargets)
         (entry : ZoneHostTargets) (name : string),
    listZones client w = (Ok zones, w0) ->
    collectZoneTargets client config w = (Ok targets, w') ->
    In entry targets -> In name (hostnames entry) ->
    isBlacklisted name (List.map normalizeHostname (blacklist config)) = false \/
    In name
      (configuredApexes
         (map_from (List.map (fun z => (normalizeHostname (zone_name z), z))
                      zones))
         (zoneTargets config)).
Proof.
  intros W client config w w0 w' zones targets entry name Hz H Hentry Hname.
  unfold collectZoneTargets in H.
  apply bind_Ok in H. destruct H as (zones' & w1 & Hz' & H).
  rewrite Hz in Hz'. inversion Hz'; subst zones' w1. clear Hz'.
  destruct (length zones =? 0)%nat; [discriminate|]. cbv zeta in H.
  apply bind_Ok in H. destruct H as (b1 & w1 & H1 & H).
  apply bind_Ok in H. destruct H as (b2 & w2 & H2 & H).
  set (bl := List.map normalizeHostname (blacklist config)) in *.
  set (byName := map_from _) in H2 |- *.
  assert (Clean bl (configuredApexes byName (zoneTargets config)) b2) as C.
  { eapply forZoneTargets_Clean; [exact H2 | auto |].
    eapply forHostnameTargets_Clean; [exact H1|].
    intros ? ? ? ? []. }
  destruct (buildResults_from _ _ _ H _ Hentry) as (zid & names & Hin & Hh).
  rewrite Hh in Hname. apply (proj1 (In_sortStrings _ _)) in Hname.
  unfold map_values in Hname. apply in_map_iff in Hname.
  destruct Hname as ([k v] & <- & Hkv). exact (C _ _ _ _ Hin Hkv).
Qed.

(** ** The scheduler *)

Lemma requestPass_busy sys :
  running (vars sys) = true -> requestPass sys = sys.
Proof.
  unfold requestPass, execute_enter. intros ->. now destruct sys.
Qed.

(** One event keeps: at most one call of [performUpdate] is pending, and
    one is pending exactly when [running] is set. *)
Lemma step_single_flight ev sys sys' :
  step ev sys = Some sys' ->
  (pending sys <= 1 /\ (running (vars sys) = true <-> pending sys = 1)) ->
  pending sys' <= 1 /\ (running (vars sys') = true <-> pending sys' = 1).
Proof.
  intros H [Hle Hiff].
  assert (pending (requestPass sys) <= 1 /\
          (running (vars (requestPass sys)) = true
           <-> pending (requestPass sys) = 1)) as Hreq.
  { unfold requestPass, execute_enter.
    destruct (running (vars sys)) eqn:R; simpl; [rewrite R; auto|].
    assert (pending sys = 0) as ->
      by (destruct (pending sys) as [|[|n]]; [reflexivity| |lia];
          destruct Hiff as [_ X]; now specialize (X eq_refl)).
    split; [lia | tauto]. }
  destruct ev as [ms| | | |now o]; simpl in H.
  - destruct (timer (vars sys)); inversion H; subst; auto.
  - inversion H; subst. auto.
  - destruct (timer (vars sys)); inversion H; subst; auto.
  - inversion H; subst. auto.
  - destruct (pending sys) as [|n] eqn:P; inversion H; subst. simpl.
    assert (n = 0) as -> by lia.
    split; [lia|]. destruct o; simpl; split; (discriminate || lia).
Qed.

Lemma run_single_flight events : forall sys sys',
  run events sys = Some sys' ->
  (pending sys <= 1 /\ (running (vars sys) = true <-> pending sys = 1)) ->
  pending sys' <= 1 /\ (running (vars sys') = true <-> pending sys' = 1).
Proof.
  induction events as [|ev events IH]; intros sys sys' H Inv; simpl in H.
  - now inversion H; subst.
  - destruct (step ev sys) as [sys1|] eqn:S; [|discriminate].
    eapply IH; [exact H|]. eapply step_single_flight; eauto.
Qed.

(** C5.  In every state [sys] the scheduler reaches from its creation,
    at most one call of [performUpdate] is pending, and one is pending
    exactly when [running] is set: two passes never run together.  In
    any state [busy] with [running] set, a request for a pass (a timer
    tick, [trigger]) runs [execute] to its guard only: [performUpdate] is
    not called, and neither the variables of the scheduler ([lastSuccess]
    and [lastError] among them), nor the count of calls, nor the world
    change; [trigger] returns at once with the retained [lastSuccess]. *)
Theorem scheduler_single_flight :
  forall (events : list Event) (sys busy : System),
    run events initialSystem = Some sys ->
    running (vars busy) = true ->
    (pending sys <= 1 /\ (running (vars sys) = true <-> pending sys = 1)) /\
    execute_enter (vars busy) = (vars busy, false) /\
    requestPass busy = busy /\
    step EvTrigger busy = Some busy /\
    (timer (vars busy) <> None -> step EvTick busy = Some busy) /\
    (forall (W : Type) (pass : Async W UpdateSummary) (nowISO : W -> string)
            (w : W),
       execute pass nowISO (vars busy) w = (vars busy, w) /\
       trigger pass nowISO (vars busy) w
         = (lastSuccess (vars busy), vars busy, w)).
Proof.
  intros events sys busy H R. split.
  { apply (@run_single_flight events _ _ H).
    simpl. split; [lia | split; discriminate]. }
  split; [|split; [|split; [|split]]].
  - unfold execute_enter. now rewrite R.
  - now apply requestPass_busy.
  - simpl. now rewrite requestPass_busy.
  - intros T. simpl. destruct (timer (vars busy)); [|contradiction].
    now rewrite requestPass_busy.
  - intros W pass nowISO w. unfold trigger, execute, execute_enter.
    rewrite R. auto.
Qed.

Lemma scheduler_single_flight_witness :
  let events := [EvStart 300000; EvTick; EvTrigger] in
  exists sys,
    run events initialSystem = Some sys /\
    running (vars sys) = true /\ pending sys = 1 /\ calls sys = 1 /\
    step EvTrigger sys = Some sys /\
    trigger failingPass fixedClock (vars sys) 0 = (None, vars sys, 0).
Proof.
  intros events. eexists.
  eassert (E : run events initialSystem = Some _) by reflexivity.
  split; [exact E|].
  match type of E with
  | _ = Some ?s =>
      destruct (@scheduler_single_flight events s s E eq_refl)
        as (_ & _ & _ & Htrigger & _ & Hrun)
  end.
  split; [reflexivity|]. split; [reflexivity|]. split; [reflexivity|].
  split; [exact Htrigger|].
  exact (proj2 (Hrun nat failingPass fixedClock 0)).
Defined.

(** C6.  A pass that [execute] runs ([running] was not set): when
    [performUpdate] succeeds, [lastSuccess] becomes the new summary and
    [lastError] is cleared; when it fails, [lastSuccess] keeps the value
    it had, which [snapshot] still shows, and [lastError] becomes the
    captured failure, which [snapshot] shows too: its timestamp is the
    clock read at the catch; for a [CloudflareApiError] it holds the
    message and the stack of the error with its HTTP status, the
    provider's error list and the raw body; for any other [Error] it
    holds the message and the stack and neither status, error list nor
    body; for a thrown value that is no [Error] the message is "Unknown
    error" and nothing else is held.  Either way [running] is reset and
    the timer is untouched. *)
Theorem execute_records_outcome :
  forall (W : Type) (pass : Async W UpdateSummary) (nowISO : W -> string)
         (s : SchedulerVars) (w : W),
    running s = false ->
    let s' := fst (execute pass nowISO s w) in
    let w' := snd (pass w) in
    snd (execute pass nowISO s w) = w' /\
    running s' = false /\ timer s' = timer s /\
    match fst (pass w) with
    | Ok summary =>
        lastSuccess s' = Some summary /\ lastError s' = None /\
        snap_lastSuccess (snapshot s') = Some summary /\
        snap_lastError (snapshot s') = None
    | Throw error =>
        lastSuccess s' = lastSuccess s /\
        snap_lastSuccess (snapshot s') = lastSuccess s /\
        lastError s' = Some (failureOf (nowISO w') error) /\
        exists failure,
          lastError s' = Some failure /\
          snap_lastError (snapshot s') = Some failure /\
          se_timestamp failure = nowISO w' /\
          match error with
          | CloudflareApiError message stack status errors body =>
              se_message failure = message /\
              se_stack failure = stack /\
              se_status failure = Some status /\
              se_apiErrors failure = Some errors /\
              se_responseBody failure = body
          | PlainError message stack =>
              se_message failure = message /\
              se_stack failure = stack /\
              se_status failure = None /\
              se_apiErrors failure = None /\
              se_responseBody failure = None
          | NonError =>
              se_message failure = "Unknown error" /\
              se_stack failure = None /\
              se_status failure = None /\
              se_apiErrors failure = None /\
              se_responseBody failure = None
          end
    end.
Proof.
  intros W pass nowISO s w R. unfold execute, execute_enter. rewrite R.
  destruct (pass w) as [[summary|error] w']; simpl.
  - repeat split.
  - repeat split. eexists. split; [reflexivity|]. split; [reflexivity|].
    destruct error; simpl; repeat split.
Qed.

Lemma execute_records_outcome_witness :
  let provider := fst (execute failingPass fixedClock afterSuccess 0) in
  let plain := fst (execute unresolvedPass fixedClock afterSuccess 0) in
  running afterSuccess = false /\
  lastSuccess provider = Some oldSummary /\
  snap_lastSuccess (snapshot provider) = Some oldSummary /\
  (exists failure,
     lastError provider = Some failure /\
     se_timestamp failure = "2024-01-01T00:05:01.000Z" /\
     se_message failure = "Cloudflare API request failed with status 429" /\
     se_status failure = Some 429%Z /\
     se_apiErrors failure
       = Some [{| err_code := 971; err_message := "Rate limited" |}] /\
     se_responseBody failure = Some "{}") /\
  lastSuccess plain = Some oldSummary /\
  (exists failure,
     lastError plain = Some failure /\
     se_timestamp failure = "2024-01-01T00:05:01.000Z" /\
     se_message failure = "IPv4 address not resolved" /\
     se_stack failure
       = Some "Error: IPv4 address not resolved at reconcileHostname" /\
     se_status failure = None /\ se_apiErrors failure = None /\
     se_responseBody failure = None).
Proof.
  intros provider plain.
  pose proof (@execute_records_outcome nat failingPass fixedClock afterSuccess
                0 eq_refl) as H1.
  pose proof (@execute_records_outcome nat unresolvedPass fixedClock
                afterSuccess 0 eq_refl) as H2.
  cbv zeta in H1, H2.
  destruct H1 as (_ & _ & _ & Hkeep & Hsnap & _ & failure & Hf & _ & Ht & Hapi).
  destruct H2 as (_ & _ & _ & Hkeep2 & _ & _ & failure2 & Hf2 & _ & Ht2 & Hp).
  simpl in Hapi, Hp.
  destruct Hapi as (Hm & _ & Hs & He & Hb).
  destruct Hp as (Hm2 & Hst2 & Hs2 & He2 & Hb2).
  split; [reflexivity|]. split; [exact Hkeep|]. split; [exact Hsnap|].
  split; [exists failure; repeat split; assumption|].
  split; [exact Hkeep2|].
  exists failure2. repeat split; assumption.
Defined.

(** C7, as the code has it.  [trigger] on a scheduler at rest runs one
    pass to its end and returns [lastSuccess] as it is then: the summary
    of that pass when it succeeded; when it failed, the summary retained
    from an earlier pass, and nothing only if no pass had succeeded
    before.  The failure is recorded in [lastError]. *)
Theorem trigger_returns_lastSuccess :
  forall (W : Type) (pass : Async W UpdateSummary) (nowISO : W -> string)
         (s : SchedulerVars) (w : W),
    running s = false ->
    match pass w with
    | (Ok summary, w') =>
        exists s',
          trigger pass nowISO s w = (Some summary, s', w') /\
          lastSuccess s' = Some summary /\ lastError s' = None
    | (Throw error, w') =>
        exists s',
          trigger pass nowISO s w = (lastSuccess s, s', w') /\
          lastSuccess s' = lastSuccess s /\
          lastError s' = Some (failureOf (nowISO w') error)
    end.
Proof.
  intros W pass nowISO s w R. unfold trigger, execute, execute_enter.
  rewrite R. destruct (pass w) as [[summary|error] w']; simpl; eauto.
Qed.

Lemma trigger_returns_lastSuccess_witness :
  running initialVars = false /\
  fst (fst (trigger failingPass fixedClock initialVars 0)) = None /\
  fst (fst (trigger succeedingPass fixedClock afterSuccess 0))
    = Some newSummary.
Proof.
  pose proof (@trigger_returns_lastSuccess nat failingPass fixedClock
                initialVars 0 eq_refl) as (s1 & H1 & _).
  pose proof (@trigger_returns_lastSuccess nat succeedingPass fixedClock
                afterSuccess 0 eq_refl) as (s2 & H2 & _).
  split; [reflexivity|]. split.
  - now rewrite H1.
  - now rewrite H2.
Defined.

(** C7 as it was stated fails: after a failed pass [trigger] returns the
    summary of the earlier success, not nothing. *)
Lemma trigger_stale_summary_counterexample :
  running afterSuccess = false /\
  fst (failingPass 0) = Throw rateLimited /\
  fst (fst (trigger failingPass fixedClock afterSuccess 0)) = Some oldSummary /\
  fst (fst (trigger failingPass fixedClock afterSuccess 0)) <> None.
Proof. repeat split. discriminate. Qed.

(** ** The address resolver *)

Section ResolverFacts.
Context {W : Type}.
Variable fetch : Fetch W.
Variable isIP : string -> nat.

Lemma request_fails (url : string) (w : W) :
  LookupFails fetch isIP url w ->
  exists e w',
    (let* body := fetchText fetch url in
     let text := trim body in
     ipSchema_parse isIP text ;; ret text) w = (Throw e, w').
Proof.
  unfold LookupFails, fetchText, ipSchema_parse, bind, lookupRequest.
  destruct (fetch _ w) as [[response|e] w1]; [|eauto].
  intros [Hok|Hip].
  - rewrite Hok. simpl. unfold throw. eauto.
  - destruct (resp_ok response); simpl; unfold throw, ret; [|eauto].
    rewrite Hip. simpl. eauto.
Qed.

Lemma requestIPv4_fails w :
  LookupFails fetch isIP "https://api.ipify.org" w ->
  exists e w', requestIPv4 fetch isIP w = (Throw e, w').
Proof. apply request_fails. Qed.

Lemma requestIPv6_fails w :
  LookupFails fetch isIP "https://api64.ipify.org" w ->
  exists e w', requestIPv6 fetch isIP w = (Throw e, w').
Proof. apply request_fails. Qed.

Lemma promiseAll_Ok {A} (settled : list (Outcome A)) values :
  promiseAll settled = Ok values -> settled = List.map Ok values.
Proof.
  revert values. induction settled as [|[a|e] rest IH]; intros values H;
    simpl in H.
  - now inversion H.
  - destruct (promiseAll rest) as [vs|]; [|discriminate].
    inversion H; subst. simpl. f_equal. now apply IH.
  - discriminate.
Qed.
End ResolverFacts.

(** C8.  [resolvePublicAddresses] with no family requested throws and
    leaves the world as it was, whatever the network is: no request is
    made.  With a family requested whose lookup fails (request rejected,
    status not ok, or a trimmed body that [isIP] rejects) it throws; the
    IPv6 lookup is the one started after the IPv4 task, when that was
    requested.  Whenever it returns, the result holds an address that
    [isIP] accepts for every requested family: there is no partial
    result. *)
Theorem resolvePublicAddresses_all_or_nothing :
  forall (W : Type) (fetch : Fetch W) (isIP : string -> nat)
         (includeIPv4 includeIPv6 : bool) (w : W),
    let outcome := resolvePublicAddresses fetch isIP includeIPv4 includeIPv6 w in
    let w1 := if includeIPv4 then snd (requestIPv4 fetch isIP w) else w in
    (includeIPv4 = false -> includeIPv6 = false ->
       outcome =
         (Throw (newError "At least one IP version must be requested"), w)) /\
    (includeIPv4 = true ->
       LookupFails fetch isIP "https://api.ipify.org" w ->
       exists e, fst outcome = Throw e) /\
    (includeIPv6 = true ->
       LookupFails fetch isIP "https://api64.ipify.org" w1 ->
       exists e, fst outcome = Throw e) /\
    (forall ips, fst outcome = Ok ips ->
       (includeIPv4 = true ->
          exists ip, ipv4 ips = Some ip /\ isIP ip <> 0) /\
       (includeIPv6 = true ->
          exists ip, ipv6 ips = Some ip /\ isIP ip <> 0)).
Proof.
  intros W fetch isIP v4 v6 w outcome w1.
  split; [|split; [|split]].
  - intros -> ->. reflexivity.
  - intros -> F. apply requestIPv4_fails in F. destruct F as (e & w' & F).
    subst outcome. unfold resolvePublicAddresses, startTask, bind.
    rewrite F. destruct v6; simpl.
    + destruct (requestIPv6 fetch isIP w') as [[ip|e'] w2]; simpl; eauto.
    + eauto.
  - intros -> F. apply requestIPv6_fails in F. destruct F as (e & w' & F).
    subst outcome w1. unfold resolvePublicAddresses, startTask, bind.
    destruct v4; simpl.
    + destruct (requestIPv4 fetch isIP w) as [[ip|e'] w2]; simpl in *;
        rewrite F; simpl; eauto.
    + rewrite F. simpl. eauto.
  - intros ips H. subst outcome.
    unfold resolvePublicAddresses, startTask, bind in H.
    assert (forall url w0 ip w',
              (let* body := fetchText fetch url in
               let text := trim body in
               ipSchema_parse isIP text ;; ret text) w0 = (Ok ip, w') ->
              isIP ip <> 0) as Valid.
    { intros url w0 ip w'. unfold fetchText, ipSchema_parse, bind.
      destruct (fetch _ w0) as [[response|e] w2]; [|discriminate].
      destruct (resp_ok response); simpl; [|discriminate].
      unfold ret. destruct (Nat.eqb_spec (isIP (trim (resp_body response))) 0);
        simpl; [discriminate|].
      intros X. inversion X; subst. assumption. }
    destruct v4, v6; simpl in H.
    + destruct (requestIPv4 fetch isIP w) as [[ip4|e] w2] eqn:E4; simpl in H.
      2:{ destruct (requestIPv6 fetch isIP w2) as [[ip6|e'] w3];
            discriminate. }
      destruct (requestIPv6 fetch isIP w2) as [[ip6|e'] w3] eqn:E6;
        simpl in H; try discriminate.
      inversion H; subst. simpl. split; intros _; eexists; split;
        try reflexivity; eapply Valid; eauto.
    + destruct (requestIPv4 fetch isIP w) as [[ip4|e] w2] eqn:E4;
        simpl in H; try discriminate.
      inversion H; subst. simpl. split; [|discriminate].
      intros _. eexists; split; [reflexivity|]. eapply Valid; eauto.
    + destruct (requestIPv6 fetch isIP w) as [[ip6|e] w2] eqn:E6;
        simpl in H; try discriminate.
      inversion H; subst. simpl. split; [discriminate|].
      intros _. eexists; split; [reflexivity|]. eapply Valid; eauto.
    + discriminate.
Qed.

Lemma resolvePublicAddresses_all_or_nothing_witness :
  LookupFails loggingFetch exampleIsIP "https://api64.ipify.org"
    ["https://api.ipify.org"] /\
  exists e,
    fst (resolvePublicAddresses loggingFetch exampleIsIP true true [])
      = Throw e.
Proof.
  pose proof (resolvePublicAddresses_all_or_nothing loggingFetch exampleIsIP
                true true []) as H.
  cbv zeta in H. destruct H as (_ & _ & H6 & _).
  assert (LookupFails loggingFetch exampleIsIP "https://api64.ipify.org"
            ["https://api.ipify.org"]) as F by (right; reflexivity).
  split; [exact F | exact (H6 eq_refl F)].
Defined.

(** The resolver on the recording network: nothing is requested when no
    family is; with both requested, the failure of the second lookup
    discards the address the first one found. *)
Example resolvePublicAddresses_runs :
  resolvePublicAddresses loggingFetch exampleIsIP false false []
    = (Throw (newError "At least one IP version must be requested"), []) /\
  resolvePublicAddresses loggingFetch exampleIsIP true false []
    = (Ok {| ipv4 := Some "203.0.113.5"; ipv6 := None |},
       ["https://api.ipify.org"]) /\
  (exists e,
     fst (resolvePublicAddresses loggingFetch exampleIsIP true true [])
       = Throw e).
Proof. repeat split. eexists. reflexivity. Qed.

(** ** The provider client *)

Section ClientFacts.
Context {W : Type}.
Variable platform : Platform W.
Variable this : ClientObject.

(** What [request] makes of the answer to the one request it sends. *)
Lemma request_cases (T : Type) path options w :
  exists req,
    match fetch platform req w with
    | (Throw e, w1) =>
        CloudflareClient.request platform this T path options w = (Throw e, w1)
    | (Ok response, w1) =>
        (resp_body response = "" ->
           exists message,
             CloudflareClient.request platform this T path options w
               = (Throw (CloudflareApiError message None
                           (resp_status response) [] (Some "")), w1) /\
             (resp_ok response = true ->
                message = "Cloudflare API returned an empty response")) /\
        (forall envelope w',
           CloudflareClient.request platform this T path options w
             = (Ok envelope, w') ->
           w' = w1 /\ resp_ok response = true /\ resp_body response <> "" /\
           JSON_parse platform T (resp_body response) = Parsed envelope /\
           success envelope = true)
    end.
Proof.
  unfold CloudflareClient.request. cbv zeta.
  exists {| req_url :=
              match opt_searchParams options with
              | Some params =>
                  appendSearchParams platform (baseUrl this ++ path) params
              | None => (baseUrl this ++ path)%string
              end;
            req_method :=
              match opt_method options with Some m => m | None => "GET" end;
            req_headers :=
              [("Authorization", ("Bearer " ++ token this)%string);
               ("Content-Type", "application/json")];
            req_body :=
              option_map (JSON_stringify platform) (opt_body options) |}.
  unfold bind at 1 3 5.
  match goal with
  | |- context [fetch platform ?r w] =>
      destruct (fetch platform r w) as [[response|e] w1]
  end; [|reflexivity].
  split.
  - intros E. rewrite E. simpl. unfold bind, ret, throw. simpl.
    destruct (resp_ok response); simpl; eexists; split; try reflexivity.
    discriminate.
  - intros envelope w'. unfold bind, ret, throw.
    destruct (resp_body response) as [|c body] eqn:B.
    + simpl. destruct (resp_ok response); discriminate.
    + cbn [String.length Nat.ltb Nat.leb].
      destruct (JSON_parse platform T (String c body)) as [| |env]; simpl;
        try discriminate.
      * destruct (resp_ok response); discriminate.
      * destruct (resp_ok response); simpl; [|discriminate].
        destruct (success env) eqn:S; simpl; [|discriminate].
        intros H. inversion H; subst. repeat split; auto. discriminate.
Qed.

Lemma request_Delivered (T : Type) path options w envelope w' :
  CloudflareClient.request platform this T path options w = (Ok envelope, w') ->
  Delivered platform envelope.
Proof.
  intros H. destruct (request_cases T path options w) as (req & C).
  destruct (fetch platform req w) as [[response|e] w1] eqn:F.
  - destruct C as [_ C]. destruct (C _ _ H) as (_ & Hok & Hb & Hp & Hs).
    exists req, w, response, w1. auto.
  - rewrite H in C. discriminate.
Qed.

Lemma fetchAllPagesFrom_Delivered (T : Type) fuel path params :
  forall (items : list T) pageNo w all w',
    CloudflareClient.fetchAllPagesFrom platform this fuel path params items
      pageNo w = Some (Ok all, w') ->
    exists envelopes,
      Forall (Delivered platform (T := list T)) envelopes /\
      all = items ++ List.concat (List.map (fun e => result e) envelopes).
Proof.
  induction fuel as [|fuel IH]; intros items pageNo w all w' H; simpl in H;
    [discriminate|].
  match type of H with
  | match ?r with (_, _) => _ end = _ =>
      destruct r as [[response|e'] w1] eqn:R
  end; [|discriminate].
  apply request_Delivered in R.
  match type of H with
  | (if ?c then _ else _) = _ => destruct c
  end.
  - apply IH in H. destruct H as (envelopes & Hall & ->).
    exists (response :: envelopes). split; [now constructor|].
    simpl. now rewrite app_assoc.
  - inversion H; subst. exists [response]. split; [now constructor|].
    simpl. now rewrite app_nil_r.
Qed.
End ClientFacts.

(** C10.  The one request [request] sends is either rejected, and so is
    [request], or answered; when the answer has an empty body, [request]
    throws a [CloudflareApiError] that carries the status, an empty error
    list and the empty body, also for a status in 200-299, where its
    message says that the response was empty.  So every envelope
    [request] returns was delivered: an ok answer with a non-empty body
    that parsed as this envelope, reporting success; and every value a
    client method returns is the result of such an envelope
    ([getZoneByName] its first element, the list methods the results of
    the pages in order). *)
Theorem client_rejects_empty_body :
  forall (W : Type) (platform : Platform W) (this : ClientObject),
    (forall (T : Type) path options w,
       exists req,
         match fetch platform req w with
         | (Throw e, w1) =>
             CloudflareClient.request platform this T path options w
               = (Throw e, w1)
         | (Ok response, w1) =>
             resp_body response = "" ->
             exists message,
               CloudflareClient.request platform this T path options w
                 = (Throw (CloudflareApiError message None
                             (resp_status response) [] (Some "")), w1) /\
               (resp_ok response = true ->
                  message = "Cloudflare API returned an empty response")
         end) /\
    (forall (T : Type) path options w envelope w',
       CloudflareClient.request platform this T path options w
         = (Ok envelope, w') ->
       Delivered platform envelope) /\
    (forall zoneId input w record w',
       CloudflareClient.createDnsRecord platform this zoneId input w
         = (Ok record, w') ->
       exists envelope,
         Delivered platform envelope /\ record = result envelope) /\
    (forall zoneId recordId input w record w',
       CloudflareClient.updateDnsRecord platform this zoneId recordId input w
         = (Ok record, w') ->
       exists envelope,
         Delivered platform envelope /\ record = result envelope) /\
    (forall zoneId recordId w w',
       CloudflareClient.deleteDnsRecord platform this zoneId recordId w
         = (Ok tt, w') ->
       exists envelope : CloudflareResponse CloudflareDnsRecord,
         Delivered platform envelope) /\
    (forall name w found w',
       CloudflareClient.getZoneByName platform this name w = (Ok found, w') ->
       exists envelope,
         Delivered platform envelope /\ found = hd_error (result envelope)) /\
    (forall fuel w zones w',
       CloudflareClient.listZones platform this fuel w = Some (Ok zones, w') ->
       exists envelopes,
         Forall (Delivered platform (T := list CloudflareZone)) envelopes /\
         zones = List.concat (List.map (fun e => result e) envelopes)) /\
    (forall fuel zoneId name type w records w',
       CloudflareClient.listDnsRecords platform this fuel zoneId name type w
         = Some (Ok records, w') ->
       exists envelopes,
         Forall (Delivered platform (T := list CloudflareDnsRecord))
           envelopes /\
         records = List.concat (List.map (fun e => result e) envelopes)).
Proof.
  intros W platform this.
  repeat match goal with |- _ /\ _ => split end.
  - intros T path options w.
    destruct (request_cases platform this T path options w) as (req & C).
    exists req. destruct (fetch platform req w) as [[response|e] w1];
      [|exact C].
    exact (proj1 C).
  - intros T path options w envelope w' H.
    exact (request_Delivered _ _ _ _ _ H).
  - intros zoneId input w record w' H.
    unfold CloudflareClient.createDnsRecord in H.
    apply bind_Ok in H. destruct H as (envelope & w1 & R & H).
    apply ret_Ok in H. destruct H as [<- _].
    exists envelope. split; [|reflexivity].
    exact (request_Delivered _ _ _ _ _ R).
  - intros zoneId recordId input w record w' H.
    unfold CloudflareClient.updateDnsRecord in H.
    apply bind_Ok in H. destruct H as (envelope & w1 & R & H).
    apply ret_Ok in H. destruct H as [<- _].
    exists envelope. split; [|reflexivity].
    exact (request_Delivered _ _ _ _ _ R).
  - intros zoneId recordId w w' H.
    unfold CloudflareClient.deleteDnsRecord in H.
    apply bind_Ok in H. destruct H as (envelope & w1 & R & H).
    exists envelope. exact (request_Delivered _ _ _ _ _ R).
  - intros name w found w' H. unfold CloudflareClient.getZoneByName in H.
    apply bind_Ok in H. destruct H as (envelope & w1 & R & H).
    exists envelope. split; [exact (request_Delivered _ _ _ _ _ R)|].
    destruct (result envelope); apply ret_Ok in H; destruct H as [<- _];
      reflexivity.
  - intros fuel w zones w' H.
    unfold CloudflareClient.listZones, CloudflareClient.fetchAllPages in H.
    apply fetchAllPagesFrom_Delivered in H. exact H.
  - intros fuel zoneId name type w records w' H.
    unfold CloudflareClient.listDnsRecords, CloudflareClient.fetchAllPages
      in H.
    apply fetchAllPagesFrom_Delivered in H. exact H.
Qed.

Lemma client_rejects_empty_body_witness :
  exists message,
    CloudflareClient.request emptyPlatform exampleClient CloudflareZone
      "/zones" defaultOptions tt
      = (Throw (CloudflareApiError message None 200 [] (Some "")), tt) /\
    message = "Cloudflare API returned an empty response".
Proof.
  destruct (client_rejects_empty_body emptyPlatform exampleClient) as (H & _).
  destruct (H CloudflareZone "/zones" defaultOptions tt) as (req & Hreq).
  simpl in Hreq. destruct (Hreq eq_refl) as (message & E & M).
  exists message. split; [exact E | exact (M eq_refl)].
Defined.

(** A status 200 with no body: the methods throw the "empty response"
    error, with no provider error and the empty body. *)
Example empty_success_response :
  let emptyResponse :=
    newCloudflareApiError "Cloudflare API returned an empty response" 200 []
      (Some "") in
  CloudflareClient.deleteDnsRecord emptyPlatform exampleClient "z1" "a1" tt
    = (Throw emptyResponse, tt) /\
  CloudflareClient.listZones emptyPlatform exampleClient 5 tt
    = Some (Throw emptyResponse, tt).
Proof. split; reflexivity. Qed.

(** ** Whole passes *)

(** The scenarios of the specification, run from address lookup to
    summary: a hostname without records gets one [create]; a hostname
    whose A record already holds the address gets one [skip]; a
    hostname with a CNAME gets its deletion, then the [create]. *)
Example performUpdate_scenarios :
  examplePass []
    = Ok {| timestamp := "2024-01-01T00:00:00.000Z"; durationMs := 3;
            zoneCount := 1; hostnameCount := 1;
            changes := [mkChange create A "home.example.com" "z1"
                          "example.com" None] |} /\
  examplePass [homeA2]
    = Ok {| timestamp := "2024-01-01T00:00:00.000Z"; durationMs := 2;
            zoneCount := 1; hostnameCount := 1;
            changes := [unchanged A "z1" "example.com" "home.example.com"] |} /\
  examplePass [homeCname]
    = Ok {| timestamp := "2024-01-01T00:00:00.000Z"; durationMs := 4;
            zoneCount := 1; hostnameCount := 1;
            changes := [mkChange delete CNAME "home.example.com" "z1"
                          "example.com" None;
                        mkChange create A "home.example.com" "z1"
                          "example.com" None] |}.
Proof. repeat split. Qed.

(* ================================================================== *)
(** * Further properties of the code                                   *)
(* ================================================================== *)

(** ** The record reconciler, continued *)

(** X1.  [partitionRecords] keeps, in the order listed, the A records,
    the AAAA records and the CNAME records, each in its own array, and
    drops every record of another type: the three arrays and the dropped
    records account for every record listed. *)
Theorem partitionRecords_buckets :
  forall records : list CloudflareDnsRecord,
    let parts := partitionRecords records in
    aRecords parts = filter (hasType A) records /\
    aaaaRecords parts = filter (hasType AAAA) records /\
    cnameRecords parts = filter (hasType CNAME) records /\
    length (aRecords parts) + length (aaaaRecords parts)
      + length (cnameRecords parts) + length (filter unmanagedType records)
    = length records.
Proof.
  intros records parts. subst parts. rewrite partitionRecords_filter. simpl.
  repeat split.
  induction records as [|r rest IH]; simpl; [reflexivity|].
  unfold unmanagedType, hasType in *.
  destruct (rec_type r); simpl; lia.
Qed.

Lemma deleteRecordsFrom_app {W} (client : Client W) z zn h before :
  forall after acc w,
    deleteRecordsFrom client z zn h (before ++ after) acc w =
    (let* changes := deleteRecordsFrom client z zn h before acc in
     deleteRecordsFrom client z zn h after changes) w.
Proof.
  induction before as [|r before IH]; intros after acc w; simpl.
  - reflexivity.
  - rewrite bind_bind. apply bind_ext. intros _ w1. apply IH.
Qed.

(** X2.  [deleteRecords] has no rollback: when the provider refuses a
    deletion, the records before it stay deleted, the records after it
    are not attempted, and the call throws the provider's error instead
    of returning the changes made so far. *)
Theorem deleteRecords_stops_at_failure :
  forall (W : Type) (client : Client W) (zoneId zoneName hostname : string)
         (before after : list CloudflareDnsRecord)
         (failing : CloudflareDnsRecord) (changes : list RecordChange)
         (w w1 w2 : W) (e : JsError),
    deleteRecords client zoneId zoneName hostname before w = (Ok changes, w1) ->
    deleteDnsRecord client zoneId (rec_id failing) w1 = (Throw e, w2) ->
    deleteRecords client zoneId zoneName hostname
      (before ++ failing :: after) w = (Throw e, w2).
Proof.
  intros W client zoneId zoneName hostname before after failing changes
    w w1 w2 e Hb Hf.
  unfold deleteRecords in *. rewrite deleteRecordsFrom_app.
  unfold bind at 1. rewrite Hb. simpl. unfold bind. now rewrite Hf.
Qed.

Lemma deleteRecords_stops_at_failure_witness :
  let p := exampleProvider [homeA1; homeA2] in
  exists p1,
    deleteRecords providerClient "z1" "example.com" "home.example.com"
      [homeA1; homeA3; homeA2] p = (Throw notFound, p1) /\
    prov_records p1 = [("z1", homeA2)].
Proof.
  intros p. exists (exampleProvider [homeA2]). split; [|reflexivity].
  apply (@deleteRecords_stops_at_failure _ providerClient "z1" "example.com"
           "home.example.com" [homeA1] [homeA2] homeA3
           [deleteChange "z1" "example.com" "home.example.com" homeA1]
           p (exampleProvider [homeA2]) (exampleProvider [homeA2]) notFound);
    reflexivity.
Defined.

(** X3.  With IPv4 managed and no IPv4 address resolved,
    [reconcileHostname] throws "IPv4 address not resolved" only after it
    has listed the records and deleted the CNAME records of the
    hostname: those deletions stay applied. *)
Theorem reconcileHostname_unresolved_ipv4 :
  forall (W : Type) (client : Client W) (config : AppConfig)
         (zoneId zoneName hostname : string) (ips : ResolvedIpAddresses)
         (records : list CloudflareDnsRecord) (deleted : list RecordChange)
         (w w0 w1 : W),
    includeIPv4 config = true -> ipv4 ips = None ->
    listDnsRecords client zoneId (Some hostname) None w = (Ok records, w0) ->
    deleteRecords client zoneId zoneName hostname
      (filter (hasType CNAME) records) w0 = (Ok deleted, w1) ->
    reconcileHostname client config zoneId zoneName hostname ips w
      = (Throw (newError "IPv4 address not resolved"), w1).
Proof.
  intros W client config zoneId zoneName hostname ips records deleted
    w w0 w1 H4 Hip Hl Hd.
  rewrite reconcileHostname_steps. unfold bind at 1. rewrite Hl.
  unfold bind at 1. rewrite Hd. unfold bind at 1, familyStep.
  rewrite H4, Hip. reflexivity.
Qed.

Lemma reconcileHostname_unresolved_ipv4_witness :
  let p := exampleProvider [homeCname; homeAAAA] in
  reconcileHostname providerClient exampleConfig "z1" "example.com"
    "home.example.com" {| ipv4 := None; ipv6 := None |} p
  = (Throw (newError "IPv4 address not resolved"),
     exampleProvider [homeAAAA]).
Proof.
  intros p.
  apply (@reconcileHostname_unresolved_ipv4 _ providerClient exampleConfig
           "z1" "example.com" "home.example.com"
           {| ipv4 := None; ipv6 := None |} [homeCname; homeAAAA]
           [deleteChange "z1" "example.com" "home.example.com" homeCname]
           p p (exampleProvider [homeAAAA])); reflexivity.
Defined.

Lemma ensureRecord_length {W} (client : Client W) z zn h desired existing
    w changes w' :
  ensureRecord client z zn h desired existing w = (Ok changes, w') ->
  length changes = Nat.max 1 (length existing).
Proof.
  intros H. destruct existing as [|primary duplicates]; cbn [ensureRecord] in H.
  - apply bind_Ok in H. destruct H as (created & w1 & _ & H).
    apply ret_Ok in H. destruct H as [<- _]. reflexivity.
  - apply bind_Ok in H. destruct H as (first & w1 & Hf & H).
    apply bind_Ok in H. destruct H as (dups & w2 & Hd & H).
    apply ret_Ok in H. destruct H as [<- _].
    apply deleteRecords_ok in Hd. subst dups.
    assert (length first = 1) as L.
    { destruct (shouldUpdate primary desired).
      - apply bind_Ok in Hf. destruct Hf as (u & w3 & _ & Hf).
        apply ret_Ok in Hf. now destruct Hf as [<- _].
      - apply ret_Ok in Hf. now destruct Hf as [<- _]. }
    rewrite length_app, length_map, L. simpl. lia.
Qed.

Lemma familyStep_length {W} (client : Client W) config z zn h t enabled
    address unresolved existing w changes w' :
  familyStep client config z zn h t enabled address unresolved existing w
    = (Ok changes, w') ->
  length changes = familyChanges enabled (length existing).
Proof.
  unfold familyStep, familyChanges. destruct enabled.
  - destruct address as [a|]; [|discriminate]. apply ensureRecord_length.
  - intros H. apply deleteRecords_ok in H. subst. apply length_map.
Qed.

(** X4.  The number of changes a reconciliation reports: one per CNAME
    record listed, plus for each address family one per record of its
    type, and at least one when the family is managed. *)
Theorem reconcileHostname_change_count :
  forall (W : Type) (client : Client W) (config : AppConfig)
         (zoneId zoneName hostname : string) (ips : ResolvedIpAddresses)
         (records : list CloudflareDnsRecord) (changes : list RecordChange)
         (w w0 w' : W),
    listDnsRecords client zoneId (Some hostname) None w = (Ok records, w0) ->
    reconcileHostname client config zoneId zoneName hostname ips w
      = (Ok changes, w') ->
    length changes =
      length (filter (hasType CNAME) records)
      + familyChanges (includeIPv4 config)
          (length (filter (hasType A) records))
      + familyChanges (includeIPv6 config)
          (length (filter (hasType AAAA) records)).
Proof.
  intros W client config zoneId zoneName hostname ips records changes
    w w0 w' Hl H.
  rewrite reconcileHostname_steps in H.
  apply bind_Ok in H. destruct H as (records' & w0' & Hl' & H).
  rewrite Hl in Hl'. inversion Hl'; subst records' w0'. clear Hl'.
  apply bind_Ok in H. destruct H as (deleted & w1 & Hd & H).
  apply bind_Ok in H. destruct H as (cA & w2 & HA & H).
  apply bind_Ok in H. destruct H as (cQ & w3 & HQ & H).
  apply ret_Ok in H. destruct H as [<- _].
  apply deleteRecords_ok in Hd. subst deleted.
  apply familyStep_length in HA, HQ.
  rewrite !length_app, length_map, HA, HQ. lia.
Qed.

Lemma reconcileHostname_change_count_witness :
  let p := exampleProvider [homeCname; homeA1; homeA2; homeAAAA] in
  exists changes p1,
    reconcileHostname providerClient exampleConfig "z1" "example.com"
      "home.example.com" exampleIps p = (Ok changes, p1) /\
    length changes = 4.
Proof.
  intros p. do 2 eexists.
  eassert (E : reconcileHostname providerClient exampleConfig "z1"
                 "example.com" "home.example.com" exampleIps p = (Ok _, _))
    by (vm_compute; reflexivity).
  split; [exact E|].
  exact (@reconcileHostname_change_count _ providerClient exampleConfig "z1"
           "example.com" "home.example.com" exampleIps
           [homeCname; homeA1; homeA2; homeAAAA] _ p p _ eq_refl E).
Defined.

Section ProviderFrame.
Variables z zn h : string.
Variable config : AppConfig.

Lemma Untouched_refl p : Untouched z h p p.
Proof. split; [reflexivity | tauto]. Qed.

Lemma Untouched_trans p1 p2 p3 :
  Untouched z h p1 p2 -> Untouched z h p2 p3 -> Untouched z h p1 p3.
Proof.
  intros [Z1 H1] [Z2 H2]. split; [congruence|].
  intros e He. rewrite (H2 e He). now apply H1.
Qed.

Lemma managedBy_class t r :
  t = A \/ t = AAAA \/ t = CNAME ->
  classOf z h t (z, r) = true -> managedBy z h (z, r) = true.
Proof.
  unfold managedBy. intros [E|[E|E]] C; subst t; rewrite C;
    now rewrite ?orb_true_r.
Qed.

Lemma untouched_delete l t p changes p1 :
  UniqueIds p -> t = A \/ t = AAAA \/ t = CNAME ->
  NoDup (List.map rec_id l) ->
  (forall d, In d l -> In d (bucket z h t p)) ->
  deleteRecords providerClient z zn h l p = (Ok changes, p1) ->
  Untouched z h p p1.
Proof.
  intros U Ht N Hl H. unfold deleteRecords in H.
  rewrite deleteRecordsFrom_provider in H; auto.
  2:{ intros d Hd. apply Hl in Hd. apply bucket_In in Hd. tauto. }
  inversion H; subst. split; [reflexivity|]. simpl.
  intros e He. rewrite filter_In. split; [tauto|]. intros Hin. split; auto.
  unfold keeps. apply negb_true_iff, not_true_is_false. intros X.
  apply existsb_exists in X. destruct X as (d & Hd & O).
  unfold owns in O. apply andb_true_iff in O. destruct O as [Oz Oi].
  apply String.eqb_eq in Oz, Oi.
  pose proof (Hl d Hd) as Hb. apply bucket_In in Hb.
  destruct Hb as (Hin' & Hn & Hty).
  assert (e = (z, d)) as ->
    by (apply (NoDup_map_inj entryId (prov_records p)); auto).
  rewrite (managedBy_class d Ht) in He; [discriminate|].
  apply classOf_true. auto.
Qed.

Lemma untouched_family t enabled address unresolved p changes p1 :
  UniqueIds p ->
  familyStep providerClient config z zn h t enabled address unresolved
    (bucket z h (recordTypeOf t) p) p = (Ok changes, p1) ->
  Untouched z h p p1.
Proof.
  intros U H.
  assert (recordTypeOf t = A \/ recordTypeOf t = AAAA
          \/ recordTypeOf t = CNAME) as Ht by (destruct t; auto).
  unfold familyStep in H. destruct enabled.
  2:{ eapply untouched_delete; eauto using bucket_NoDup. }
  destruct address as [a|]; [|discriminate].
  set (desired := desiredRecord t config h a) in *.
  destruct (bucket z h (recordTypeOf t) p) as [|primary duplicates] eqn:B.
  - cbn [ensureRecord] in H. apply bind_Ok in H.
    destruct H as (created & p' & Hc & H).
    apply ret_Ok in H. destruct H as [_ <-].
    destruct (@create_provider z h desired p U) as (Hc' & _ & _).
    rewrite Hc' in Hc. inversion Hc; subst. clear Hc.
    split; [reflexivity|]. simpl. intros e He. rewrite in_app_iff.
    split; [|tauto]. intros [Hin|[E|[]]]; [exact Hin|]. subst e.
    rewrite (managedBy_class _ Ht) in He; [discriminate|].
    apply classOf_true. auto.
  - assert (In primary (bucket z h (recordTypeOf t) p)) as Hp
      by (rewrite B; now left).
    cbn [ensureRecord] in H. apply bind_Ok in H.
    destruct H as (first & p' & Hf & H).
    apply bind_Ok in H. destruct H as (dups & p'' & Hd & H).
    apply ret_Ok in H. destruct H as [_ <-].
    assert (exists x, UniqueIds p' /\
              bucket z h (recordTypeOf t) p' = x :: duplicates /\
              Untouched z h p p') as (x & U' & B' & F').
    { destruct (shouldUpdate primary desired) eqn:S.
      - apply bind_Ok in Hf. destruct Hf as (updated & q & Hu & Hf).
        apply ret_Ok in Hf. destruct Hf as [_ <-].
        destruct (@update_provider z h primary desired _ p U Hp eq_refl eq_refl)
          as (Hu' & U1 & Hb).
        rewrite Hu' in Hu. inversion Hu; subst. clear Hu.
        exists (recordOfInput (rec_id primary) desired).
        split; [exact U1|]. split.
        + rewrite Hb, B. apply swap_own_bucket. rewrite <- B.
          now apply bucket_NoDup.
        + split; [reflexivity|]. simpl. intros e He.
          apply bucket_In in Hp. destruct Hp as (Hin & Hn & Hty).
          rewrite in_map_iff. split.
          * intros (e0 & E & Hin0).
            destruct (owns z (rec_id primary) e0) eqn:O; [|now subst].
            subst e. rewrite (managedBy_class _ Ht) in He; [discriminate|].
            apply classOf_true. auto.
          * intros Hine. exists e. split; [|exact Hine].
            destruct (owns z (rec_id primary) e) eqn:O; [|reflexivity].
            unfold owns in O. apply andb_true_iff in O.
            destruct O as [Oz Oi]. apply String.eqb_eq in Oz, Oi.
            assert (e = (z, primary)) as ->
              by (apply (NoDup_map_inj entryId (prov_records p)); auto).
            rewrite (managedBy_class primary Ht) in He; [discriminate|].
            apply classOf_true. auto.
      - apply ret_Ok in Hf. destruct Hf as [_ <-].
        exists primary. split; [exact U|]. split; [exact B|].
        apply Untouched_refl. }
    pose proof (bucket_NoDup z h (recordTypeOf t) U') as N. rewrite B' in N.
    eapply Untouched_trans; [exact F'|].
    apply (@untouched_delete duplicates (recordTypeOf t) p' dups p'' U' Ht).
    + now inversion N.
    + intros d Hd'. rewrite B'. now right.
    + exact Hd.
Qed.
End ProviderFrame.

(** X5.  On the in-memory provider a reconciliation that returns leaves
    the hostname converged: no CNAME record; for a managed family exactly
    one record of its type, holding the resolved address with the
    configured proxy flag and the automatic TTL; for an unmanaged family
    no record of its type.  Record ids stay unique. *)
Theorem reconcileHostname_converges :
  forall (config : AppConfig) (zoneId zoneName hostname : string)
         (ips : ResolvedIpAddresses) (p p1 : Provider)
         (changes : list RecordChange),
    UniqueIds p ->
    reconcileHostname providerClient config zoneId zoneName hostname ips p
      = (Ok changes, p1) ->
    UniqueIds p1 /\
    bucket zoneId hostname CNAME p1 = [] /\
    (if includeIPv4 config
     then exists address r,
            ipv4 ips = Some address /\
            bucket zoneId hostname A p1 = [r] /\
            isDesired InputA config hostname address r
     else bucket zoneId hostname A p1 = []) /\
    (if includeIPv6 config
     then exists address r,
            ipv6 ips = Some address /\
            bucket zoneId hostname AAAA p1 = [r] /\
            isDesired InputAAAA config hostname address r
     else bucket zoneId hostname AAAA p1 = []).
Proof.
  intros config zoneId zoneName hostname ips p p1 changes U H.
  destruct (@reconcileHostname_settles _ _ _ _ _ _ _ _ U H)
    as (U1 & HC & HA & HQ).
  assert (forall t address l,
            Converged t config hostname address l ->
            (forall r, In r l -> rec_name r = hostname) ->
            exists r, l = [r] /\ isDesired t config hostname address r) as G.
  { intros t address l (r & -> & Ht & Hs) Hn. exists r. split; [reflexivity|].
    assert (~ differs r (desiredRecord t config hostname address)) as Hd
      by (intros X; apply shouldUpdate_differs in X; congruence).
    unfold differs in Hd. simpl in Hd. unfold isDesired.
    split; [exact Ht|]. split; [apply Hn; now left|].
    split; [|split].
    - destruct (string_dec (rec_content r) address); tauto.
    - destruct (bool_dec (rec_proxied r) (proxied config)); tauto.
    - destruct (Z.eq_dec (rec_ttl r) AUTO_TTL); tauto. }
  split; [exact U1|]. split; [exact HC|]. unfold Settled in HA, HQ. split.
  - destruct (includeIPv4 config); [|exact HA].
    destruct HA as (a & Ha & Hc). exists a.
    destruct (G InputA a _ Hc) as (r & Hr & Hd).
    { intros r Hr. apply bucket_In in Hr. tauto. }
    exists r. auto.
  - destruct (includeIPv6 config); [|exact HQ].
    destruct HQ as (a & Ha & Hc). exists a.
    destruct (G InputAAAA a _ Hc) as (r & Hr & Hd).
    { intros r Hr. apply bucket_In in Hr. tauto. }
    exists r. auto.
Qed.

Lemma reconcileHostname_converges_witness :
  let p := exampleProvider [homeCname; homeA1; homeA2; homeAAAA] in
  exists changes p1,
    reconcileHostname providerClient exampleConfig "z1" "example.com"
      "home.example.com" exampleIps p = (Ok changes, p1) /\
    bucket "z1" "home.example.com" CNAME p1 = [] /\
    bucket "z1" "home.example.com" AAAA p1 = [] /\
    exists r, bucket "z1" "home.example.com" A p1 = [r] /\
              rec_content r = "203.0.113.5".
Proof.
  intros p.
  assert (U : UniqueIds p).
  { unfold UniqueIds. simpl.
    repeat (constructor; [simpl; intuition discriminate|]). constructor. }
  do 2 eexists.
  eassert (E : reconcileHostname providerClient exampleConfig "z1"
                 "example.com" "home.example.com" exampleIps p = (Ok _, _))
    by (vm_compute; reflexivity).
  split; [exact E|].
  destruct (@reconcileHostname_converges _ _ _ _ _ _ _ _ U E)
    as (_ & HC & HA & HQ).
  split; [exact HC|]. split; [exact HQ|].
  simpl in HA. destruct HA as (a & r & Ha & Hb & _ & _ & Hc & _).
  exists r. split; [exact Hb|]. rewrite Hc. now inversion Ha.
Defined.

(** X6.  On the in-memory provider a reconciliation that returns changes
    nothing but the A, AAAA and CNAME records of its hostname in its
    zone: the zones, the records of other hostnames and zones, and the
    records of other types of the same hostname are as they were. *)
Theorem reconcileHostname_frame :
  forall (config : AppConfig) (zoneId zoneName hostname : string)
         (ips : ResolvedIpAddresses) (p p1 : Provider)
         (changes : list RecordChange),
    UniqueIds p ->
    reconcileHostname providerClient config zoneId zoneName hostname ips p
      = (Ok changes, p1) ->
    prov_zones p1 = prov_zones p /\
    forall zone record,
      (zone <> zoneId \/ rec_name record <> hostname \/
       (rec_type record <> A /\ rec_type record <> AAAA /\
        rec_type record <> CNAME)) ->
      (In (zone, record) (prov_records p1) <->
       In (zone, record) (prov_records p)).
Proof.
  intros config zoneId zoneName hostname ips p p1 changes U H.
  assert (Untouched zoneId hostname p p1) as [Hz Hf].
  { rewrite reconcileHostname_steps in H.
    apply bind_Ok in H. destruct H as (records & p0 & Hl & H).
    cbn [listDnsRecords providerClient] in Hl. inversion Hl; subst. clear Hl.
    rewrite !listed_bucket in H.
    apply bind_Ok in H. destruct H as (deleted & pC & Hd & H).
    apply bind_Ok in H. destruct H as (cA & pA & HA & H).
    apply bind_Ok in H. destruct H as (cQ & pQ & HQ & H).
    apply ret_Ok in H. destruct H as [_ <-].
    pose proof (@untouched_delete zoneId zoneName hostname _ CNAME _ _ _ U
                  (or_intror (or_intror eq_refl))
                  (bucket_NoDup zoneId hostname CNAME U)
                  (fun d Hd' => Hd') Hd) as FC.
    eapply deleteRecords_provider with (t := CNAME) in Hd;
      eauto using bucket_NoDup.
    destruct Hd as (UC & BC & OC).
    rewrite <- (OC A) in HA by discriminate.
    pose proof (@untouched_family zoneId zoneName hostname config InputA
                  _ _ _ _ _ _ UC HA) as FA.
    apply (@familyStep_provider zoneId zoneName hostname config InputA
             _ _ _ _ _ _ UC) in HA.
    destruct HA as (UA & OA & _).
    rewrite <- (OC AAAA), <- (OA AAAA) in HQ by discriminate.
    pose proof (@untouched_family zoneId zoneName hostname config InputAAAA
                  _ _ _ _ _ _ UA HQ) as FQ.
    eapply Untouched_trans; [exact FC|].
    eapply Untouched_trans; [exact FA | exact FQ]. }
  split; [exact Hz|]. intros zone record Hout. apply Hf.
  unfold managedBy, classOf. simpl.
  destruct Hout as [N|[N|(N1 & N2 & N3)]].
  - apply String.eqb_neq in N. now rewrite N.
  - apply String.eqb_neq in N. rewrite N. now rewrite !andb_false_r.
  - destruct (rec_type record); simpl; rewrite ?andb_false_r; try reflexivity;
      congruence.
Qed.

Lemma reconcileHostname_frame_witness :
  let txt := mkRecord "t1" TXT "home.example.com" "v=spf1 -all" in
  let www := mkRecord "w1" A "www.example.com" "198.51.100.7" in
  let p := exampleProvider [homeCname; txt; www] in
  exists changes p1,
    reconcileHostname providerClient exampleConfig "z1" "example.com"
      "home.example.com" exampleIps p = (Ok changes, p1) /\
    In ("z1", txt) (prov_records p1) /\ In ("z1", www) (prov_records p1).
Proof.
  intros txt www p.
  assert (U : UniqueIds p).
  { unfold UniqueIds. simpl.
    repeat (constructor; [simpl; intuition discriminate|]). constructor. }
  do 2 eexists.
  eassert (E : reconcileHostname providerClient exampleConfig "z1"
                 "example.com" "home.example.com" exampleIps p = (Ok _, _))
    by (vm_compute; reflexivity).
  split; [exact E|].
  destruct (@reconcileHostname_frame _ _ _ _ _ _ _ _ U E) as (_ & Hf).
  split.
  - apply Hf; [right; right; repeat split; discriminate|].
    right; now left.
  - apply Hf; [right; left; discriminate|]. right; right; now left.
Defined.

(** ** Target discovery, continued *)

(** X7.  The name of a listed zone is always assigned to a zone of that
    very name (after trimming and lower-casing), never to a parent zone:
    a zone found for a hostname has a name no longer than the hostname,
    and the zone itself is a candidate of full length. *)
Theorem findZoneForHostname_own_name :
  forall (zones : list CloudflareZone) (z : CloudflareZone),
    In z zones ->
    exists m,
      findZoneForHostname (zone_name z) zones = Some m /\ In m zones /\
      normalizeHostname (zone_name m) = normalizeHostname (zone_name z).
Proof.
  intros zones z Hin.
  pose proof (findZoneForHostname_best (zone_name z) zones) as Best.
  assert (zoneMatches (normalizeHostname (zone_name z)) z = true) as Mz.
  { unfold zoneMatches. cbv zeta. now rewrite String.eqb_refl. }
  destruct (findZoneForHostname (zone_name z) zones) as [m|]; simpl in Best.
  - destruct Best as (Hm & Mm & Hmax). exists m.
    split; [reflexivity|]. split; [exact Hm|].
    specialize (Hmax z Hin Mz). unfold nameLength in Hmax.
    unfold zoneMatches in Mm. cbv zeta in Mm.
    apply orb_true_iff in Mm. destruct Mm as [E|E].
    + apply String.eqb_eq in E. now symmetry.
    + apply endsWith_suffix in E. destruct E as (label & E).
      rewrite E in Hmax. rewrite !length_append_sum in Hmax.
      simpl in Hmax. lia.
  - rewrite (Best z Hin) in Mz. discriminate.
Qed.

Lemma findZoneForHostname_own_name_witness :
  exists m,
    findZoneForHostname "api.example.com" [exampleZone; apiZone] = Some m /\
    normalizeHostname (zone_name m) = "api.example.com".
Proof.
  destruct (@findZoneForHostname_own_name [exampleZone; apiZone] apiZone
              (or_intror (or_introl eq_refl))) as (m & Hf & _ & Hn).
  exists m. split; [exact Hf | exact Hn].
Defined.

Lemma map_from_missing {V} (entries : list (string * V)) k :
  (forall e, In e entries -> fst e <> k) -> map_get (map_from entries) k = None.
Proof.
  unfold map_from.
  assert (forall l (m : JsMap V),
            map_get m k = None -> (forall e, In e l -> fst e <> k) ->
            map_get (fold_left (fun m e => map_set m (fst e) (snd e)) l m) k
              = None) as G.
  { induction l as [|e l IH]; intros m Hm Hl; simpl; [exact Hm|].
    apply IH; [|intros; apply Hl; now right].
    rewrite map_get_set_other; [exact Hm|].
    intros E. apply (Hl e); [now left | now symmetry]. }
  intros H. now apply G.
Qed.

Lemma forZoneTargets_unknown {W} (client : Client W) zonesByName bl t targets :
  In t targets -> map_get zonesByName (normalizeHostname t) = None ->
  forall buckets w, exists e w',
    forZoneTargets client zonesByName bl targets buckets w = (Throw e, w').
Proof.
  intros Hin Hn. induction targets as [|t0 targets IH]; [contradiction|].
  intros buckets w. simpl.
  destruct (map_get zonesByName (normalizeHostname t0)) as [z|] eqn:G.
  - destruct Hin as [->|Hin]; [congruence|].
    unfold bind.
    destruct (listDnsRecords client (zone_id z) None None w) as [[records|e] w1];
      [|eauto].
    now apply IH.
  - unfold throw. eauto.
Qed.

(** X8.  A configured whole zone that the provider does not list under
    that name (names compared trimmed and lower-cased) fails target
    discovery: [collectZoneTargets] throws, whatever else is configured. *)
Theorem collectZoneTargets_unknown_zone :
  forall (W : Type) (client : Client W) (config : AppConfig) (w w0 : W)
         (zones : list CloudflareZone) (zoneName : string),
    listZones client w = (Ok zones, w0) ->
    In zoneName (zoneTargets config) ->
    (forall z, In z zones ->
               normalizeHostname (zone_name z) <> normalizeHostname zoneName) ->
    exists e w', collectZoneTargets client config w = (Throw e, w').
Proof.
  intros W client config w w0 zones zoneName Hz Hin Hno.
  unfold collectZoneTargets, bind. rewrite Hz.
  destruct (length zones =? 0)%nat; [unfold throw; eauto|]. cbv zeta.
  match goal with
  | |- context [forHostnameTargets ?a ?b ?c ?d w0] =>
      destruct (forHostnameTargets (W := W) a b c d w0) as [[b1|e] w1]
  end; [|eauto].
  match goal with
  | |- context [forZoneTargets client ?m ?b ?t b1 w1] =>
      destruct (@forZoneTargets_unknown W client m b zoneName t Hin) with
        (buckets := b1) (w := w1) as (e & w2 & ->); [|eauto]
  end.
  apply map_from_missing. intros e He. apply in_map_iff in He.
  destruct He as (z & <- & Hzin). simpl. now apply Hno.
Qed.

Lemma collectZoneTargets_unknown_zone_witness :
  exists e,
    fst (collectZoneTargets providerClient
           {| apiToken := "token"; hostnameTargets := ["home.example.com"];
              zoneTargets := ["example.org"]; blacklist := [];
              includeIPv4 := true; includeIPv6 := false;
              updateIntervalSeconds := 300; proxied := true |}
           (exampleProvider [])) = Throw e.
Proof.
  destruct (@collectZoneTargets_unknown_zone _ providerClient
              {| apiToken := "token"; hostnameTargets := ["home.example.com"];
                 zoneTargets := ["example.org"]; blacklist := [];
                 includeIPv4 := true; includeIPv6 := false;
                 updateIntervalSeconds := 300; proxied := true |}
              (exampleProvider []) (exampleProvider []) [exampleZone]
              "example.org" eq_refl (or_introl eq_refl)) as (e & w' & H).
  - intros z [<-|[]]. discriminate.
  - exists e. now rewrite H.
Defined.

Lemma map_has_keys {V} (m : JsMap V) k :
  map_has m k = true <-> In k (List.map fst m).
Proof.
  unfold map_has. induction m as [|[k' v'] m IH]; simpl.
  - split; [discriminate | contradiction].
  - destruct (String.eqb_spec k' k) as [->|N].
    + split; auto.
    + rewrite IH. split; [auto | intros [E|H]; [contradiction | exact H]].
Qed.

Lemma map_set_keys {V} (m : JsMap V) k v :
  List.map fst (map_set m k v) =
    if map_has m k then List.map fst m else List.map fst m ++ [k].
Proof.
  unfold map_has. induction m as [|[k' v'] m IH]; simpl; [reflexivity|].
  destruct (String.eqb_spec k' k) as [->|N]; simpl; [reflexivity|].
  rewrite IH. now destruct (map_get m k).
Qed.

Lemma map_set_NoDup {V} (m : JsMap V) k v :
  NoDup (List.map fst m) -> NoDup (List.map fst (map_set m k v)).
Proof.
  intros N. rewrite map_set_keys. destruct (map_has m k) eqn:H; [exact N|].
  apply NoDup_app; [exact N | constructor; [intros []|constructor] |].
  intros a Ha [<-|[]]. apply map_has_keys in Ha. congruence.
Qed.

Lemma map_set_nonempty {V} (m : JsMap V) k v : map_set m k v <> [].
Proof.
  destruct m as [|[k' v'] m]; simpl; [discriminate|].
  destruct (String.eqb k' k); discriminate.
Qed.

Lemma ltb_asym a b : String.ltb a b = true -> String.ltb b a = false.
Proof.
  unfold String.ltb. rewrite (String.compare_antisym a b).
  destruct (String.compare b a); simpl; congruence.
Qed.

Lemma insertSorted_perm x l : Permutation (insertSorted x l) (x :: l).
Proof.
  induction l as [|y l IH]; simpl; [reflexivity|].
  destruct (String.ltb x y); [reflexivity|].
  rewrite IH. apply perm_swap.
Qed.

Lemma sortStrings_perm l : Permutation (sortStrings l) l.
Proof.
  unfold sortStrings.
  assert (forall acc, Permutation
            (fold_left (fun a x => insertSorted x a) l acc) (acc ++ l)) as G.
  { induction l as [|x l IH]; intros acc; simpl.
    - now rewrite app_nil_r.
    - rewrite IH, insertSorted_perm. apply Permutation_middle. }
  exact (G []).
Qed.

Lemma insertSorted_Ascending x l :
  Ascending l -> Ascending (insertSorted x l).
Proof.
  unfold Ascending. induction l as [|y l IH]; intros S; simpl.
  - repeat constructor.
  - destruct (String.ltb x y) eqn:L.
    + constructor; [exact S|]. constructor. now apply ltb_asym.
    + inversion S as [|? ? S' H']; subst.
      constructor; [now apply IH|].
      destruct l as [|y' l]; simpl.
      * constructor. exact L.
      * destruct (String.ltb x y'); constructor; [exact L|].
        now inversion H'.
Qed.

Lemma sortStrings_Ascending l : Ascending (sortStrings l).
Proof.
  unfold sortStrings.
  assert (forall acc, Ascending acc ->
            Ascending (fold_left (fun a x => insertSorted x a) l acc)) as G.
  { induction l as [|x l IH]; intros acc S; simpl; [exact S|].
    apply IH. now apply insertSorted_Ascending. }
  apply G. constructor.
Qed.

Lemma appendHostname_Good buckets zoneId hostname :
  GoodBuckets buckets -> GoodBuckets (appendHostname buckets zoneId hostname).
Proof.
  intros [N G]. unfold appendHostname. cbv zeta. split.
  - now apply map_set_NoDup.
  - intros zid b Hin. apply In_map_set in Hin.
    destruct Hin as [Hin|[-> ->]]; [exact (G _ _ Hin)|].
    assert (forall old,
              (old = [] \/ (old <> [] /\ NoDup (List.map fst old) /\
                 forall k v, In (k, v) old -> normalizeHostname v = k)) ->
              let b := if negb (map_has old (normalizeHostname hostname))
                       then map_set old (normalizeHostname hostname) hostname
                       else old in
              b <> [] /\ NoDup (List.map fst b) /\
              forall k v, In (k, v) b -> normalizeHostname v = k) as K.
    { intros old Hold b.
      destruct (map_has old (normalizeHostname hostname)) eqn:E; subst b; simpl.
      - destruct Hold as [->|Hold]; [discriminate | exact Hold].
      - split; [apply map_set_nonempty|]. split.
        + apply map_set_NoDup. destruct Hold as [->|(_ & X & _)];
            [constructor | exact X].
        + intros k v Hkv. apply In_map_set in Hkv.
          destruct Hkv as [Hkv|[-> ->]]; [|reflexivity].
          destruct Hold as [->|(_ & _ & X)]; [contradiction | now apply X]. }
    destruct (map_get buckets zoneId) as [old|] eqn:E.
    + apply K. right. apply map_get_In in E. exact (G _ _ E).
    + apply K. now left.
Qed.

Section ShapeFacts.
Context {W : Type}.
Variable client : Client W.

Lemma forHostnameTargets_Good zones bl targets : forall buckets w buckets' w',
  forHostnameTargets (W := W) zones bl targets buckets w = (Ok buckets', w') ->
  GoodBuckets buckets -> GoodBuckets buckets'.
Proof.
  induction targets as [|t targets IH]; intros buckets w buckets' w' H G;
    simpl in H.
  - apply ret_Ok in H. now destruct H as [<- _].
  - destruct (isBlacklisted t bl); [eauto|].
    destruct (findZoneForHostname t zones) as [z|]; [|discriminate].
    eapply IH; [exact H|]. now apply appendHostname_Good.
Qed.

Lemma appendAll_Good zoneId names : forall buckets,
  GoodBuckets buckets ->
  GoodBuckets
    (fold_left (fun b name => appendHostname b zoneId name) names buckets).
Proof.
  induction names as [|n names IH]; intros buckets G; simpl; [exact G|].
  apply IH. now apply appendHostname_Good.
Qed.

Lemma forZoneTargets_Good zonesByName bl targets :
  forall buckets w buckets' w',
    forZoneTargets client zonesByName bl targets buckets w = (Ok buckets', w') ->
    GoodBuckets buckets -> GoodBuckets buckets'.
Proof.
  induction targets as [|t targets IH]; intros buckets w buckets' w' H G;
    simpl in H.
  - apply ret_Ok in H. now destruct H as [<- _].
  - destruct (map_get zonesByName (normalizeHostname t)) as [z|];
      [|discriminate].
    apply bind_Ok in H. destruct H as (records & w1 & _ & H).
    eapply IH; [exact H|]. apply appendAll_Good.
    now apply appendHostname_Good.
Qed.

Lemma buildResults_ids zones entries : forall w targets w',
  buildResults (W := W)
    (map_from (List.map (fun z => (zone_id z, z)) zones)) entries w
    = (Ok targets, w') ->
  List.map (fun t => zone_id (zone t)) targets = List.map fst entries.
Proof.
  induction entries as [|[zid ns] entries IH]; intros w targets w' H;
    simpl in H.
  - apply ret_Ok in H. now destruct H as [<- _].
  - destruct (map_get _ zid) as [z|] eqn:G; [|discriminate].
    apply bind_Ok in H. destruct H as (more & w1 & Hm & H).
    apply ret_Ok in H. destruct H as [<- _]. simpl.
    apply zonesById_key in G. rewrite G. f_equal. eapply IH; eauto.
Qed.
End ShapeFacts.

(** X9.  The target sets [collectZoneTargets] returns: one entry per
    zone id; no entry without hostnames; the hostnames of an entry
    ascend by code units and no two of them are the same name after
    trimming and lower-casing. *)
Theorem collectZoneTargets_shape :
  forall (W : Type) (client : Client W) (config : AppConfig) (w w' : W)
         (targets : list ZoneHostTargets),
    collectZoneTargets client config w = (Ok targets, w') ->
    NoDup (List.map (fun t => zone_id (zone t)) targets) /\
    forall entry, In entry targets ->
      hostnames entry <> [] /\
      Ascending (hostnames entry) /\
      NoDup (List.map normalizeHostname (hostnames entry)).
Proof.
  intros W client config w w' targets H. unfold collectZoneTargets in H.
  apply bind_Ok in H. destruct H as (zones & w0 & Hz & H).
  destruct (length zones =? 0)%nat; [discriminate|]. cbv zeta in H.
  apply bind_Ok in H. destruct H as (b1 & w1 & H1 & H).
  apply bind_Ok in H. destruct H as (b2 & w2 & H2 & H).
  assert (GoodBuckets b2) as [N G].
  { eapply forZoneTargets_Good; [exact H2|].
    eapply forHostnameTargets_Good; [exact H1|].
    split; [constructor | intros ? ? []]. }
  split.
  - rewrite (buildResults_ids _ _ _ H). exact N.
  - intros entry Hin.
    destruct (buildResults_from _ _ _ H _ Hin) as (zid & names & Hn & ->).
    destruct (G _ _ Hn) as (Hne & Hk & Hv).
    pose proof (sortStrings_perm (map_values names)) as P.
    split; [|split].
    + intros E. rewrite E in P. apply Permutation_nil in P.
      unfold map_values in P. destruct names; [now apply Hne | discriminate].
    + apply sortStrings_Ascending.
    + apply (Permutation_NoDup
               (l := List.map normalizeHostname (map_values names))).
      * apply Permutation_map. now symmetry.
      * unfold map_values. rewrite map_map.
        erewrite map_ext_in; [exact Hk|].
        intros [k v] Hkv. simpl. now apply Hv.
Qed.

Lemma collectZoneTargets_shape_witness :
  let config :=
    {| apiToken := "token";
       hostnameTargets := ["www.example.com"; "Home.Example.com";
                           "home.example.com"; "svc.api.example.com"];
       zoneTargets := []; blacklist := []; includeIPv4 := true;
       includeIPv6 := false; updateIntervalSeconds := 300;
       proxied := true |} in
  collectZoneTargets providerClient config twoZones
    = (Ok [{| zone := exampleZone;
              hostnames := ["Home.Example.com"; "www.example.com"] |};
           {| zone := apiZone; hostnames := ["svc.api.example.com"] |}],
       twoZones) /\
  Ascending ["Home.Example.com"; "www.example.com"].
Proof.
  intros config.
  assert (E : collectZoneTargets providerClient config twoZones
              = (Ok [{| zone := exampleZone;
                        hostnames := ["Home.Example.com"; "www.example.com"] |};
                     {| zone := apiZone;
                        hostnames := ["svc.api.example.com"] |}], twoZones))
    by reflexivity.
  split; [exact E|].
  destruct (@collectZoneTargets_shape _ _ _ _ _ _ E) as (_ & Hall).
  exact (proj1 (proj2 (Hall _ (or_introl eq_refl)))).
Defined.

Lemma Collected_more bl seen bucket r :
  Collected bl seen bucket ->
  (isHostRecord r = false \/ isBlacklisted (rec_name r) bl = true \/
   In (normalizeHostname (rec_name r)) (List.map fst bucket)) ->
  Collected bl (seen ++ [r]) bucket.
Proof.
  intros (N & Hs & Hc) Hr. split; [exact N|]. split.
  - intros k v Hkv. destruct (Hs k v Hkv) as (E & r0 & Hr0 & X).
    split; [exact E|]. exists r0. split; [apply in_or_app; now left | exact X].
  - intros r0 Hr0 H0 B0. apply in_app_or in Hr0.
    destruct Hr0 as [Hr0|[E|[]]]; [now apply Hc|]. subst r0.
    destruct Hr as [X|[X|X]]; [congruence | congruence | exact X].
Qed.

Lemma collectStep_Collected bl seen bucket r :
  Collected bl seen bucket ->
  Collected bl (seen ++ [r]) (collectStep bl bucket r).
Proof.
  intros C. unfold collectStep. fold (isHostRecord r).
  destruct (isHostRecord r) eqn:Hh; simpl;
    [|apply Collected_more; auto].
  destruct (isBlacklisted (rec_name r) bl) eqn:Hb;
    [apply Collected_more; auto|].
  destruct (map_has bucket (normalizeHostname (rec_name r))) eqn:M; simpl.
  - apply Collected_more; [exact C|]. right. right. now apply map_has_keys.
  - destruct C as (N & Hs & Hc). split; [now apply map_set_NoDup|]. split.
    + intros k v Hkv. apply In_map_set in Hkv.
      destruct Hkv as [Hkv|[-> ->]].
      * destruct (Hs k v Hkv) as (E & r0 & Hr0 & X).
        split; [exact E|]. exists r0.
        split; [apply in_or_app; now left | exact X].
      * split; [reflexivity|]. exists r.
        split; [apply in_or_app; right; now left | auto].
    + intros r0 Hr0 H0 B0. rewrite map_set_keys, M.
      apply in_or_app. apply in_app_or in Hr0.
      destruct Hr0 as [Hr0|[E|[]]]; [left; now apply Hc|].
      subst r0. right. now left.
Qed.

Lemma collect_fold_Collected bl records : forall seen bucket,
  Collected bl seen bucket ->
  Collected bl (seen ++ records) (fold_left (collectStep bl) records bucket).
Proof.
  induction records as [|r records IH]; intros seen bucket C; simpl.
  - now rewrite app_nil_r.
  - replace (seen ++ r :: records) with ((seen ++ [r]) ++ records)
      by (now rewrite <- app_assoc).
    apply IH. now apply collectStep_Collected.
Qed.

(** X10.  The hostnames [collectHostnamesFromZoneRecords] returns for a
    zone: each is the name, as spelled, of an A, AAAA or CNAME record
    that is off the blacklist; every such record is represented by a
    name that equals its own after trimming and lower-casing; no two
    returned names are equal in that sense. *)
Theorem collectHostnames_characterised :
  forall (records : list CloudflareDnsRecord) (blacklist : list string),
    let names := collectHostnamesFromZoneRecords records blacklist in
    NoDup (List.map normalizeHostname names) /\
    (forall name, In name names ->
       exists r, In r records /\ rec_name r = name /\
                 isHostRecord r = true /\
                 isBlacklisted name blacklist = false) /\
    (forall r, In r records -> isHostRecord r = true ->
       isBlacklisted (rec_name r) blacklist = false ->
       exists name, In name names /\
                    normalizeHostname name = normalizeHostname (rec_name r)).
Proof.
  intros records bl names. subst names.
  unfold collectHostnamesFromZoneRecords, map_values.
  destruct (@collect_fold_Collected bl records [] [])
    as (N & Hs & Hc).
  { split; [constructor|]. split; [intros ? ? [] | intros ? []]. }
  simpl in Hs, Hc.
  set (bucket := fold_left (collectStep bl) records []) in *.
  split; [|split].
  - rewrite map_map. erewrite map_ext_in; [exact N|].
    intros [k v] Hkv. simpl. now apply Hs.
  - intros name Hin. apply in_map_iff in Hin.
    destruct Hin as ([k v] & <- & Hkv). simpl.
    destruct (Hs k v Hkv) as (_ & r & X). exists r. exact X.
  - intros r Hr Hh Hb. specialize (Hc r Hr Hh Hb).
    apply in_map_iff in Hc. destruct Hc as ([k v] & E & Hkv). simpl in E.
    exists v. split.
    + apply in_map_iff. exists (k, v). auto.
    + destruct (Hs k v Hkv) as (X & _). congruence.
Qed.

Lemma collectHostnames_characterised_witness :
  In "home.example.com"
     (collectHostnamesFromZoneRecords [homeA1; homeAAAA; homeCname] []) /\
  exists r,
    In r [homeA1; homeAAAA; homeCname] /\ rec_name r = "home.example.com" /\
    isHostRecord r = true /\ isBlacklisted "home.example.com" [] = false.
Proof.
  assert (In "home.example.com"
            (collectHostnamesFromZoneRecords [homeA1; homeAAAA; homeCname] []))
    as Hin by (vm_compute; now left).
  split; [exact Hin|].
  pose proof (collectHostnames_characterised [homeA1; homeAAAA; homeCname] [])
    as H.
  cbv zeta in H. destruct H as (_ & Sound & _).
  exact (Sound _ Hin).
Defined.

(** ** The address resolver, continued *)

Lemma lookup_Ok {W} (fetch : Fetch W) (isIP : string -> nat) url w ip w' :
  (let* body := fetchText fetch url in
   let text := trim body in
   ipSchema_parse isIP text ;; ret text) w = (Ok ip, w') ->
  exists response,
    fetch (lookupRequest url) w = (Ok response, w') /\
    resp_ok response = true /\ ip = trim (resp_body response).
Proof.
  unfold fetchText, ipSchema_parse, bind, lookupRequest.
  destruct (fetch _ w) as [[response|e] w1]; [|discriminate].
  destruct (resp_ok response) eqn:O; simpl; [|discriminate]. unfold ret.
  destruct (isIP (trim (resp_body response)) =? 0)%nat; simpl;
    [discriminate|].
  intros X. inversion X; subst. eauto.
Qed.

(** X11.  What a successful [resolvePublicAddresses] holds: nothing for
    a family that was not requested, and for a requested family the
    body, trimmed, of an answer with an ok status from that family's
    echo service (the IPv6 lookup being the one started after the IPv4
    lookup when both are requested). *)
Theorem resolvePublicAddresses_result :
  forall (W : Type) (fetch : Fetch W) (isIP : string -> nat)
         (includeIPv4 includeIPv6 : bool) (w w' : W)
         (ips : ResolvedIpAddresses),
    resolvePublicAddresses fetch isIP includeIPv4 includeIPv6 w
      = (Ok ips, w') ->
    let w1 := if includeIPv4 then snd (requestIPv4 fetch isIP w) else w in
    (if includeIPv4 then
       exists response,
         fetch (lookupRequest "https://api.ipify.org") w = (Ok response, w1) /\
         resp_ok response = true /\
         ipv4 ips = Some (trim (resp_body response))
     else ipv4 ips = None) /\
    (if includeIPv6 then
       exists response,
         fetch (lookupRequest "https://api64.ipify.org") w1
           = (Ok response, w') /\
         resp_ok response = true /\
         ipv6 ips = Some (trim (resp_body response))
     else ipv6 ips = None /\ w' = w1).
Proof.
  intros W fetch isIP v4 v6 w w' ips H w1. subst w1.
  unfold resolvePublicAddresses, startTask, bind in H.
  destruct v4, v6; simpl in H.
  - destruct (requestIPv4 fetch isIP w) as [[ip4|e] w2] eqn:E4; simpl in H.
    2:{ destruct (requestIPv6 fetch isIP w2) as [[ip6|e'] w3];
          discriminate. }
    destruct (requestIPv6 fetch isIP w2) as [[ip6|e'] w3] eqn:E6;
      simpl in H; try discriminate.
    inversion H; subst. simpl.
    apply lookup_Ok in E4. apply lookup_Ok in E6.
    destruct E4 as (r4 & F4 & O4 & ->). destruct E6 as (r6 & F6 & O6 & ->).
    split; eauto.
  - destruct (requestIPv4 fetch isIP w) as [[ip4|e] w2] eqn:E4;
      simpl in H; try discriminate.
    inversion H; subst. simpl. apply lookup_Ok in E4.
    destruct E4 as (r4 & F4 & O4 & ->). split; eauto.
  - destruct (requestIPv6 fetch isIP w) as [[ip6|e] w2] eqn:E6;
      simpl in H; try discriminate.
    inversion H; subst. simpl. apply lookup_Ok in E6.
    destruct E6 as (r6 & F6 & O6 & ->). split; eauto.
  - discriminate.
Qed.

Lemma resolvePublicAddresses_result_witness :
  let ips := {| ipv4 := Some "203.0.113.5"; ipv6 := None |} in
  resolvePublicAddresses loggingFetch exampleIsIP true false []
    = (Ok ips, ["https://api.ipify.org"]) /\
  (exists response,
     loggingFetch (lookupRequest "https://api.ipify.org") []
       = (Ok response, ["https://api.ipify.org"]) /\
     resp_ok response = true /\
     ipv4 ips = Some (trim (resp_body response))) /\
  ipv6 ips = None.
Proof.
  intros ips.
  assert (resolvePublicAddresses loggingFetch exampleIsIP true false []
            = (Ok ips, ["https://api.ipify.org"])) as E by reflexivity.
  split; [exact E|].
  destruct (resolvePublicAddresses_result loggingFetch exampleIsIP
              true false [] E) as (H4 & H6 & _).
  split; [exact H4 | exact H6].
Defined.

(** ** The update orchestrator *)

Section OrchestratorFacts.
Context {W : Type}.
Variable client : Client W.
Variable config : AppConfig.
Variable ips : ResolvedIpAddresses.

Lemma forHostnames_Ok z names : forall acc w done w',
  forHostnames client config z names ips acc w = (Ok done, w') ->
  snd done = snd acc + length names.
Proof.
  induction names as [|name rest IH]; intros acc w done w' H; simpl in H.
  - inversion H; subst. simpl. lia.
  - unfold bind in H.
    destruct (reconcileHostname _ _ _ _ _ _ w) as [[changes|e] w1];
      [|discriminate].
    apply IH in H. simpl in *. lia.
Qed.

Lemma forZones_Ok targets : forall acc w done w',
  forZones client config targets ips acc w = (Ok done, w') ->
  snd done = snd acc + length (flat_map hostnames targets).
Proof.
  induction targets as [|t rest IH]; intros acc w done w' H; simpl in H.
  - inversion H; subst. simpl. lia.
  - unfold bind in H.
    destruct (forHostnames _ _ _ _ _ _ w) as [[acc1|e] w1] eqn:E;
      [|discriminate].
    apply forHostnames_Ok in E. apply IH in H.
    simpl. rewrite length_app. lia.
Qed.
End OrchestratorFacts.

(** X13.  The summary of a pass that succeeded: the addresses were
    resolved, then the targets collected; [zoneCount] is the number of
    zone targets, [hostnameCount] the number of hostnames over all of
    them, [timestamp] the text of the clock read when the pass began and
    [durationMs] the clock at the end less the clock at the start. *)
Theorem performUpdate_summary :
  forall (W : Type) (client : Client W) (fetch : Fetch W)
         (isIP : string -> nat) (dateNow : W -> Z)
         (toISOString : Z -> string) (config : AppConfig) (w w' : W)
         (summary : UpdateSummary),
    performUpdate client fetch isIP dateNow toISOString config w
      = (Ok summary, w') ->
    exists ips w1 targets w2,
      resolvePublicAddresses fetch isIP (includeIPv4 config)
        (includeIPv6 config) w = (Ok ips, w1) /\
      collectZoneTargets client config w1 = (Ok targets, w2) /\
      zoneCount summary = length targets /\
      hostnameCount summary = length (flat_map hostnames targets) /\
      timestamp summary = toISOString (dateNow w) /\
      durationMs summary = (dateNow w' - dateNow w)%Z.
Proof.
  intros W client fetch isIP dateNow toISOString config w w' summary H.
  unfold performUpdate, bind in H.
  destruct (resolvePublicAddresses _ _ _ _ w) as [[ips|e] w1] eqn:R;
    [|discriminate].
  destruct (collectZoneTargets client config w1) as [[targets|e] w2] eqn:C;
    [|discriminate].
  destruct (forZones _ _ _ _ _ w2) as [[done|e] w3] eqn:E; [|discriminate].
  inversion H; subst. simpl. apply forZones_Ok in E.
  exists ips, w1, targets, w2. repeat split; auto.
Qed.

Lemma performUpdate_summary_witness :
  exists summary,
    examplePass [homeCname] = Ok summary /\
    zoneCount summary = 1 /\ hostnameCount summary = 1 /\
    durationMs summary = 4%Z.
Proof.
  destruct (performUpdate passClient passFetch exampleIsIP pw_clock
              (fun _ => "2024-01-01T00:00:00.000Z") exampleConfig
              (passWorld [homeCname])) as [[summary|e] w'] eqn:E;
    [|vm_compute in E; discriminate].
  destruct (performUpdate_summary _ _ _ _ _ _ _ E)
    as (ips & w1 & targets & w2 & R & C & Z & Hn & _ & D).
  exists summary. unfold examplePass. rewrite E.
  vm_compute in R. inversion R; subst ips w1.
  vm_compute in C. inversion C; subst targets w2.
  assert (pw_clock w' = 4%Z) as K
    by (vm_compute in E; inversion E; reflexivity).
  rewrite K in D.
  repeat split; assumption.
Defined.

(** X14.  A pass whose address resolution fails ends there: it throws
    the resolver's error and the world is the one the lookups left, so
    the provider has not been asked anything, whatever client is used. *)
Theorem performUpdate_unresolved :
  forall (W : Type) (client : Client W) (fetch : Fetch W)
         (isIP : string -> nat) (dateNow : W -> Z)
         (toISOString : Z -> string) (config : AppConfig) (w w1 : W)
         (e : JsError),
    resolvePublicAddresses fetch isIP (includeIPv4 config)
      (includeIPv6 config) w = (Throw e, w1) ->
    performUpdate client fetch isIP dateNow toISOString config w
      = (Throw e, w1).
Proof.
  intros W client fetch isIP dateNow toISOString config w w1 e H.
  unfold performUpdate, bind. now rewrite H.
Qed.

Lemma performUpdate_unresolved_witness :
  exists e w1,
    performUpdate passClient passFetch exampleIsIP pw_clock
      (fun _ => "2024-01-01T00:00:00.000Z")
      {| apiToken := "token"; hostnameTargets := ["home.example.com"];
         zoneTargets := []; blacklist := []; includeIPv4 := true;
         includeIPv6 := true; updateIntervalSeconds := 300;
         proxied := true |}
      (passWorld []) = (Throw e, w1) /\
    pw_provider w1 = exampleProvider [] /\ pw_clock w1 = 0%Z.
Proof.
  eexists. eexists. split.
  - apply performUpdate_unresolved. vm_compute. reflexivity.
  - split; reflexivity.
Defined.

(** ** Change totals *)

Lemma bumpKind_fold entries : forall counts,
  fold_left bumpKind entries counts
    = {| n_create := n_create counts + countKind create entries;
         n_update := n_update counts + countKind update entries;
         n_delete := n_delete counts + countKind delete entries;
         n_skip := n_skip counts + countKind skip entries |}.
Proof.
  induction entries as [|c entries IH]; intros counts.
  - simpl. unfold countKind. simpl. destruct counts. simpl.
    now rewrite !Nat.add_0_r.
  - simpl. rewrite IH. rewrite !countKind_cons. unfold bumpKind.
    destruct (kind c); simpl; f_equal; lia.
Qed.

Lemma countKind_total l :
  countKind create l + countKind update l + countKind delete l
    + countKind skip l = length l.
Proof.
  induction l as [|c l IH]; [reflexivity|].
  rewrite !countKind_cons. simpl. destruct (kind c); simpl; lia.
Qed.

(** X15.  The totals [summarizeChangeKinds] logs: each counter is the
    number of changes of its kind, the four add up to the number of
    changes, the totals of a pass are the sums of the totals of its
    zones, and [summarizeKinds] of the dashboard computes the same
    totals. *)
Theorem summarizeChangeKinds_totals :
  forall (entries more : list RecordChange),
    let counts := summarizeChangeKinds entries in
    (n_create counts = countKind create entries /\
     n_update counts = countKind update entries /\
     n_delete counts = countKind delete entries /\
     n_skip counts = countKind skip entries) /\
    n_create counts + n_update counts + n_delete counts + n_skip counts
      = length entries /\
    summarizeChangeKinds (entries ++ more)
      = {| n_create := n_create counts
                       + n_create (summarizeChangeKinds more);
           n_update := n_update counts
                       + n_update (summarizeChangeKinds more);
           n_delete := n_delete counts
                       + n_delete (summarizeChangeKinds more);
           n_skip := n_skip counts + n_skip (summarizeChangeKinds more) |} /\
    summarizeKinds entries = counts.
Proof.
  intros entries more counts. subst counts.
  unfold summarizeChangeKinds, summarizeKinds.
  rewrite !bumpKind_fold. simpl.
  split; [auto|]. split; [apply countKind_total|]. split.
  - rewrite !countKind_app. reflexivity.
  - reflexivity.
Qed.

(** ** The scheduler, continued *)

(** X16.  Only the settlement of a pass writes the results: [start],
    [stop], a timer tick and [trigger] up to its await leave
    [lastSuccess] and [lastError] as they were, and with them what
    [snapshot] reports of the last pass. *)
Theorem scheduler_results_written_at_settlement :
  forall (ev : Event) (sys sys' : System),
    step ev sys = Some sys' ->
    match ev with EvSettle _ _ => False | _ => True end ->
    lastSuccess (vars sys') = lastSuccess (vars sys) /\
    lastError (vars sys') = lastError (vars sys) /\
    snap_lastSuccess (snapshot (vars sys'))
      = snap_lastSuccess (snapshot (vars sys)) /\
    snap_lastError (snapshot (vars sys'))
      = snap_lastError (snapshot (vars sys)).
Proof.
  intros ev sys sys' H NotSettle.
  assert (lastSuccess (vars (requestPass sys)) = lastSuccess (vars sys) /\
          lastError (vars (requestPass sys)) = lastError (vars sys)) as [R1 R2]
    by (unfold requestPass, execute_enter;
        destruct (running (vars sys)); split; reflexivity).
  unfold snapshot. simpl.
  destruct ev as [ms| | | |now o]; simpl in H; [| | | |contradiction].
  - destruct (timer (vars sys)); inversion H; subst; simpl; auto.
  - inversion H; subst. simpl. auto.
  - destruct (timer (vars sys)); inversion H; subst; auto.
  - inversion H; subst. auto.
Qed.

Lemma scheduler_results_written_at_settlement_witness :
  let sys := {| vars := afterSuccess; pending := 0; calls := 1 |} in
  exists sys',
    step EvTrigger sys = Some sys' /\
    running (vars sys') = true /\
    lastSuccess (vars sys') = Some oldSummary /\
    lastError (vars sys') = None.
Proof.
  intros sys. eexists. split; [reflexivity|]. split; [reflexivity|].
  destruct (@scheduler_results_written_at_settlement EvTrigger sys _
              eq_refl I) as (S1 & E1 & _).
  split; [exact S1 | exact E1].
Defined.

(** X17.  [stop] only disarms the timer.  The flag [running], the
    results, a pass in flight and the count of calls stay as they were;
    no tick comes afterwards; a pass in flight still settles into the
    results; and [trigger] still runs a pass when none is running. *)
Theorem stop_only_disarms :
  forall (sys : System),
    exists sys1,
      step EvStop sys = Some sys1 /\
      timer (vars sys1) = None /\
      snapshot (vars sys1) = snapshot (vars sys) /\
      pending sys1 = pending sys /\ calls sys1 = calls sys /\
      step EvTick sys1 = None /\
      (forall now o n, pending sys = S n ->
         step (EvSettle now o) sys1
           = Some {| vars := execute_settle now o (vars sys1);
                     pending := n; calls := calls sys |}) /\
      (running (vars sys) = false ->
         option_map calls (step EvTrigger sys1) = Some (S (calls sys))).
Proof.
  intros sys. exists (setTimer None sys).
  split; [reflexivity|]. split; [reflexivity|]. split; [reflexivity|].
  split; [reflexivity|]. split; [reflexivity|]. split; [reflexivity|].
  split.
  - intros now o n P. simpl. now rewrite P.
  - intros R. simpl. unfold requestPass, execute_enter. simpl.
    now rewrite R.
Qed.

(** X18.  [start] on a started scheduler does nothing: the timer armed
    by the first [start] stays, with its period, and no pass is
    requested. *)
Theorem start_twice_is_start_once :
  forall (sys sys1 : System) (intervalMs again : Z),
    step (EvStart intervalMs) sys = Some sys1 ->
    step (EvStart again) sys1 = Some sys1.
Proof.
  intros sys sys1 i j H. simpl in H.
  destruct (timer (vars sys)) as [t|] eqn:T.
  - inversion H; subst. simpl. now rewrite T.
  - inversion H; subst. reflexivity.
Qed.

Lemma start_twice_is_start_once_witness :
  exists sys1,
    step (EvStart 300000) initialSystem = Some sys1 /\
    step (EvStart 1000) sys1 = Some sys1 /\
    timer (vars sys1) = Some 300000%Z /\ calls sys1 = 1.
Proof.
  eexists. split; [reflexivity|]. split; [|split; reflexivity].
  apply (@start_twice_is_start_once initialSystem _ 300000 1000).
  reflexivity.
Defined.

(** X19.  A pass that ends, in success or in failure, frees the
    scheduler: after the settlement [running] is off, so the next
    request, [trigger] or the tick of an armed timer, calls
    [performUpdate] again.  A failed pass does not end the schedule. *)
Theorem scheduler_runs_again_after_settlement :
  forall (sys : System) (n : nat) (now : string)
         (o : Outcome UpdateSummary),
    pending sys = S n ->
    exists sys1,
      step (EvSettle now o) sys = Some sys1 /\
      running (vars sys1) = false /\
      timer (vars sys1) = timer (vars sys) /\
      (exists sys2, step EvTrigger sys1 = Some sys2 /\
                    calls sys2 = S (calls sys) /\
                    running (vars sys2) = true) /\
      (timer (vars sys) <> None ->
       exists sys2, step EvTick sys1 = Some sys2 /\
                    calls sys2 = S (calls sys) /\
                    running (vars sys2) = true).
Proof.
  intros sys n now o P. simpl. rewrite P. eexists. split; [reflexivity|].
  destruct o as [summary|e]; simpl;
    (split; [reflexivity|]; split; [reflexivity|]; split;
     [eexists; split; [reflexivity|]; split; reflexivity|];
     intros T; destruct (timer (vars sys)); [|contradiction];
     eexists; split; [reflexivity|]; split; reflexivity).
Qed.

Lemma scheduler_runs_again_after_settlement_witness :
  let sys := {| vars := {| timer := Some 300000%Z; running := true;
                           lastSuccess := None; lastError := None |};
                pending := 1; calls := 1 |} in
  exists sys1 sys2,
    step (EvSettle "2024-01-01T00:05:01.000Z" (Throw rateLimited)) sys
      = Some sys1 /\
    step EvTick sys1 = Some sys2 /\ calls sys2 = 2.
Proof.
  intros sys.
  destruct (@scheduler_runs_again_after_settlement sys 0
              "2024-01-01T00:05:01.000Z" (Throw rateLimited) eq_refl)
    as (sys1 & S1 & _ & _ & _ & Tick).
  destruct Tick as (sys2 & S2 & C & _); [discriminate|].
  exists sys1, sys2. auto.
Defined.

(** ** Worker start-up *)

(** X20.  The worker starts its scheduler at most once.  Loading the
    module with auto start on starts it: [setInterval] is given the
    configured period in milliseconds and one pass is called.  The
    period Node arms is the configured one when that is between 1 and
    2147483 seconds, and one millisecond when it is longer, the delay
    then being beyond what [setInterval] takes.  With auto start off
    (the production build phase) nothing is armed or called.
    [ensureSchedulerStarted] afterwards, any number of times, changes
    nothing, and it never starts a scheduler when auto start is off. *)
Theorem ensureSchedulerStarted_once :
  forall (autoStart : bool) (config : AppConfig) (rt : Runtime),
    let loaded := loadRuntime autoStart config in
    let seconds := updateIntervalSeconds config in
    timer (vars (scheduler loaded))
      = (if autoStart then Some (seconds * 1000)%Z else None) /\
    (autoStart = true -> (1 <= seconds <= 2147483)%Z ->
       option_map intervalOf (timer (vars (scheduler loaded)))
         = Some (seconds * 1000)%Z) /\
    (autoStart = true -> (2147483 < seconds)%Z ->
       option_map intervalOf (timer (vars (scheduler loaded)))
         = Some 1%Z) /\
    calls (scheduler loaded) = (if autoStart then 1 else 0) /\
    ensureSchedulerStarted autoStart config loaded = loaded /\
    ensureSchedulerStarted autoStart config
      (ensureSchedulerStarted autoStart config rt)
      = ensureSchedulerStarted autoStart config rt /\
    ensureSchedulerStarted false config rt = rt.
Proof.
  intros autoStart config rt loaded seconds. subst loaded seconds.
  unfold loadRuntime, ensureSchedulerStarted.
  destruct autoStart; simpl.
  - split; [reflexivity|]. split.
    { intros _ R. unfold intervalOf, TIMEOUT_MAX. f_equal.
      destruct (Z.leb_spec 1 (updateIntervalSeconds config * 1000));
        destruct (Z.leb_spec (updateIntervalSeconds config * 1000) 2147483647);
        simpl; lia. }
    split.
    { intros _ R. unfold intervalOf, TIMEOUT_MAX. f_equal.
      destruct (Z.leb_spec 1 (updateIntervalSeconds config * 1000));
        destruct (Z.leb_spec (updateIntervalSeconds config * 1000) 2147483647);
        simpl; lia. }
    split; [reflexivity|]. split; [reflexivity|]. split; [|reflexivity].
    destruct (schedulerStarted rt) eqn:S; simpl;
      [now rewrite S | reflexivity].
  - repeat split; discriminate.
Qed.

Lemma ensureSchedulerStarted_once_witness :
  let loaded := loadRuntime true exampleConfig in
  timer (vars (scheduler loaded)) = Some 300000%Z /\
  option_map intervalOf (timer (vars (scheduler loaded))) = Some 300000%Z /\
  calls (scheduler loaded) = 1.
Proof.
  intros loaded.
  destruct (ensureSchedulerStarted_once true exampleConfig loaded)
    as (Ht & Hp & _ & Hc & _).
  split; [exact Ht|]. split; [|exact Hc].
  apply Hp; [reflexivity|]. simpl. lia.
Defined.

(** X21.  The manual update of the dashboard.  Right after a load with
    auto start on, the pass of [start] is still in flight, so the
    [trigger] of [triggerUpdate] runs to the guard only: one call of
    [performUpdate] has been made, not two.  With auto start off
    [triggerUpdate] calls [performUpdate] once and arms no timer. *)
Theorem triggerUpdate_after_load :
  forall (autoStart : bool) (config : AppConfig),
    let rt := triggerUpdate_request autoStart config
                (loadRuntime autoStart config) in
    calls (scheduler rt) = 1 /\ pending (scheduler rt) = 1 /\
    running (vars (scheduler rt)) = true /\
    timer (vars (scheduler rt))
      = (if autoStart then Some (updateIntervalSeconds config * 1000)%Z
         else None).
Proof.
  intros autoStart config rt. subst rt.
  destruct autoStart; repeat split; reflexivity.
Qed.

(** ** The provider client, continued *)

Section ClientWire.
Context {W : Type}.
Variable platform : Platform W.
Variable this : ClientObject.

(** [request] sends one request, and what it leaves of the world is
    what that request left. *)
Lemma request_sends (T : Type) path options w :
  snd (CloudflareClient.request platform this T path options w)
    = snd (fetch platform
             {| req_url :=
                  match opt_searchParams options with
                  | Some params =>
                      appendSearchParams platform (baseUrl this ++ path)
                        params
                  | None => (baseUrl this ++ path)%string
                  end;
                req_method :=
                  match opt_method options with
                  | Some m => m
                  | None => "GET"
                  end;
                req_headers :=
                  [("Authorization", ("Bearer " ++ token this)%string);
                   ("Content-Type", "application/json")];
                req_body :=
                  option_map (JSON_stringify platform) (opt_body options) |}
             w).
Proof.
  unfold CloudflareClient.request. cbv zeta. unfold bind.
  match goal with
  | |- context [fetch platform ?r w] =>
      destruct (fetch platform r w) as [[response|e] w1]
  end; [|reflexivity].
  unfold ret, throw. simpl.
  destruct (0 <? String.length (resp_body response))%nat.
  - destruct (JSON_parse platform T (resp_body response)) as [| |env];
      simpl; try reflexivity.
    + destruct (resp_ok response); reflexivity.
    + destruct (negb (resp_ok response) || negb (success env)); reflexivity.
  - simpl. destruct (resp_ok response); reflexivity.
Qed.
End ClientWire.

(** X22.  What the writing methods of the client hand to the platform.
    Each makes exactly one request.  Its address is, as text before the
    platform's URL parser normalises it, the base URL followed by the
    path of the zone's records; it carries the bearer token and the JSON
    content type.  [createDnsRecord] makes a POST with the input as
    JSON, [updateDnsRecord] a PUT of the input to the path of the
    record, [deleteDnsRecord] a DELETE without a body to the path of the
    record. *)
Theorem client_writes_on_the_wire :
  forall (W : Type) (platform : Platform W) (this : ClientObject)
         (zoneId recordId : string) (input : DnsRecordInput) (w : W),
    let headers :=
      [("Authorization", ("Bearer " ++ token this)%string);
       ("Content-Type", "application/json")] in
    let records := (baseUrl this ++ "/zones/" ++ zoneId ++ "/dns_records")%string in
    let record :=
      (baseUrl this ++ "/zones/" ++ zoneId ++ "/dns_records/" ++ recordId)%string in
    snd (CloudflareClient.createDnsRecord platform this zoneId input w)
      = snd (fetch platform
               {| req_url := records; req_method := "POST";
                  req_headers := headers;
                  req_body := Some (JSON_stringify platform input) |} w) /\
    snd (CloudflareClient.updateDnsRecord platform this zoneId recordId input w)
      = snd (fetch platform
               {| req_url := record; req_method := "PUT";
                  req_headers := headers;
                  req_body := Some (JSON_stringify platform input) |} w) /\
    snd (CloudflareClient.deleteDnsRecord platform this zoneId recordId w)
      = snd (fetch platform
               {| req_url := record; req_method := "DELETE";
                  req_headers := headers; req_body := None |} w).
Proof.
  intros W platform this zoneId recordId input w headers records record.
  assert (forall (T A : Type) path options (k : CloudflareResponse T -> A),
            snd ((let* response :=
                    CloudflareClient.request platform this T path options in
                  ret (k response)) w)
            = snd (CloudflareClient.request platform this T path options w))
    as Same.
  { intros T A path options k. unfold bind, ret.
    destruct (CloudflareClient.request platform this T path options w)
      as [[response|e] w1]; reflexivity. }
  unfold CloudflareClient.createDnsRecord, CloudflareClient.updateDnsRecord,
    CloudflareClient.deleteDnsRecord.
  rewrite 2!Same.
  rewrite (Same _ unit _ _ (fun _ => tt)).
  rewrite !request_sends. simpl.
  subst headers records record.
  repeat split; reflexivity.
Qed.



(** ** Hostnames in canonical form *)

Lemma isWhiteSpace_lowerChar c : isWhiteSpace (lowerChar c) = isWhiteSpace c.
Proof. destruct c as [[] [] [] [] [] [] [] []]; reflexivity. Qed.

Lemma lowerChar_twice c : lowerChar (lowerChar c) = lowerChar c.
Proof. destruct c as [[] [] [] [] [] [] [] []]; reflexivity. Qed.

Lemma toLowerCase_twice s : toLowerCase (toLowerCase s) = toLowerCase s.
Proof.
  induction s as [|c r IH]; [reflexivity|].
  simpl. now rewrite lowerChar_twice, IH.
Qed.

Lemma trimStart_toLowerCase s :
  trimStart (toLowerCase s) = toLowerCase (trimStart s).
Proof.
  induction s as [|c r IH]; [reflexivity|].
  simpl. rewrite isWhiteSpace_lowerChar.
  destruct (isWhiteSpace c); [exact IH | reflexivity].
Qed.

Lemma trimEnd_toLowerCase s :
  trimEnd (toLowerCase s) = toLowerCase (trimEnd s).
Proof.
  induction s as [|c r IH]; [reflexivity|].
  simpl. rewrite IH, isWhiteSpace_lowerChar.
  destruct (trimEnd r); simpl; [|reflexivity].
  now destruct (isWhiteSpace c).
Qed.

Lemma trimEnd_twice s : trimEnd (trimEnd s) = trimEnd s.
Proof.
  induction s as [|c r IH]; [reflexivity|].
  simpl. destruct (trimEnd r) as [|d r'] eqn:E.
  - destruct (isWhiteSpace c) eqn:Wc; simpl; [reflexivity|].
    now rewrite Wc.
  - simpl. simpl in IH. rewrite IH. reflexivity.
Qed.

Lemma trimStart_head s :
  match trimStart s with
  | EmptyString => True
  | String c _ => isWhiteSpace c = false
  end.
Proof.
  induction s as [|c r IH]; [exact I|].
  simpl. destruct (isWhiteSpace c) eqn:Wc; [exact IH | exact Wc].
Qed.

Lemma trimStart_trimEnd s :
  match s with
  | EmptyString => True
  | String c _ => isWhiteSpace c = false
  end ->
  trimStart (trimEnd s) = trimEnd s.
Proof.
  destruct s as [|c r]; [reflexivity|]. intros Wc.
  simpl. destruct (trimEnd r); rewrite ?Wc; simpl; now rewrite Wc.
Qed.

Lemma trim_twice s : trim (trim s) = trim s.
Proof.
  unfold trim. rewrite trimStart_trimEnd by apply trimStart_head.
  apply trimEnd_twice.
Qed.

Lemma normalizeHostname_twice s :
  normalizeHostname (normalizeHostname s) = normalizeHostname s.
Proof.
  unfold normalizeHostname, trim.
  rewrite trimStart_toLowerCase, trimEnd_toLowerCase, toLowerCase_twice.
  fold (trim s). fold (trim (trim s)). now rewrite trim_twice.
Qed.

Lemma isAsciiChar_lowerChar c :
  isAsciiChar c = true -> isAsciiChar (lowerChar c) = true.
Proof. destruct c as [[] [] [] [] [] [] [] []]; intros H; exact H || reflexivity. Qed.

Lemma isAscii_toLowerCase s :
  isAsciiString s = true -> isAsciiString (toLowerCase s) = true.
Proof.
  induction s as [|c r IH]; [auto|]. simpl. intros H.
  apply andb_true_iff in H. destruct H as [Hc Hr].
  now rewrite (isAsciiChar_lowerChar _ Hc), IH.
Qed.

Lemma isAscii_trimStart s :
  isAsciiString s = true -> isAsciiString (trimStart s) = true.
Proof.
  induction s as [|c r IH]; [auto|]. simpl. intros H.
  destruct (isWhiteSpace c); [|exact H].
  apply andb_true_iff in H. now apply IH.
Qed.

Lemma isAscii_trimEnd s :
  isAsciiString s = true -> isAsciiString (trimEnd s) = true.
Proof.
  induction s as [|c r IH]; [auto|]. simpl. intros H.
  apply andb_true_iff in H. destruct H as [Hc Hr]. specialize (IH Hr).
  destruct (trimEnd r) as [|d r'].
  - destruct (isWhiteSpace c); [reflexivity|]. simpl. now rewrite Hc.
  - simpl. simpl in IH. now rewrite Hc, IH.
Qed.

Lemma isAscii_trim s : isAsciiString s = true -> isAsciiString (trim s) = true.
Proof. intros H. unfold trim. now apply isAscii_trimEnd, isAscii_trimStart. Qed.

(** X24.  On ASCII text [normalizeHostname] gives a canonical form: the
    result is ASCII text again and applying the function to it changes
    nothing.  So for an ASCII hostname and zones with ASCII names, the
    owning zone of the hostname and its standing on the blacklist do not
    depend on the case of its letters or on white space around it, and
    the key under which [appendHostname] files a hostname is the key of
    every such spelling of it. *)
Theorem normalizeHostname_canonical :
  forall (hostname : string) (zones : list CloudflareZone)
         (blacklist : list string),
    isAsciiString hostname = true ->
    Forall (fun z => isAsciiString (zone_name z) = true) zones ->
    let canonical := normalizeHostname hostname in
    isAsciiString canonical = true /\
    normalizeHostname canonical = canonical /\
    findZoneForHostname canonical zones = findZoneForHostname hostname zones /\
    isBlacklisted canonical blacklist = isBlacklisted hostname blacklist /\
    forall buckets zoneId,
      List.map fst (appendHostname buckets zoneId canonical)
        = List.map fst (appendHostname buckets zoneId hostname) /\
      forall bucket bucket',
        map_get (appendHostname buckets zoneId canonical) zoneId
          = Some bucket ->
        map_get (appendHostname buckets zoneId hostname) zoneId
          = Some bucket' ->
        List.map fst bucket = List.map fst bucket'.
Proof.
  intros hostname zones blacklist Ascii _ canonical. subst canonical.
  split; [now apply isAscii_toLowerCase, isAscii_trim|].
  split; [apply normalizeHostname_twice|].
  split; [unfold findZoneForHostname; now rewrite normalizeHostname_twice|].
  split; [unfold isBlacklisted; now rewrite normalizeHostname_twice|].
  intros buckets zoneId. unfold appendHostname.
  rewrite normalizeHostname_twice. split.
  - rewrite !map_set_keys. reflexivity.
  - intros bucket bucket'. rewrite !map_get_set_same.
    intros X Y. inversion X; inversion Y; subst.
    destruct (map_has _ (normalizeHostname hostname)); simpl;
      [reflexivity|]. rewrite !map_set_keys. reflexivity.
Qed.

Lemma normalizeHostname_canonical_witness :
  normalizeHostname "  Svc.API.Example.COM " = "svc.api.example.com" /\
  normalizeHostname "svc.api.example.com" = "svc.api.example.com" /\
  findZoneForHostname "  Svc.API.Example.COM " [exampleZone; apiZone]
    = Some apiZone /\
  findZoneForHostname "svc.api.example.com" [exampleZone; apiZone]
    = Some apiZone.
Proof.
  destruct (@normalizeHostname_canonical "  Svc.API.Example.COM "
              [exampleZone; apiZone] [])
    as (_ & Twice & Zone & _).
  - reflexivity.
  - repeat constructor.
  - split; [reflexivity|]. split; [exact Twice|]. split; [reflexivity|].
    exact (eq_trans Zone eq_refl).
Defined.

(** ** The configuration *)

Lemma hasChar_splitComma v : forall piece,
  In piece (splitComma v) -> hasChar ","%char piece = false.
Proof.
  induction v as [|c rest IH]; intros piece H; simpl in H.
  - destruct H as [<-|[]]. reflexivity.
  - destruct (Ascii.eqb c ","%char) eqn:C.
    + destruct H as [<-|H]; [reflexivity | now apply IH].
    + destruct (splitComma rest) as [|first more].
      * destruct H as [<-|[]]. simpl. now rewrite C.
      * destruct H as [<-|H].
        -- simpl. rewrite C. apply IH. now left.
        -- apply IH. now right.
Qed.

Lemma hasChar_trimStart c s :
  hasChar c s = false -> hasChar c (trimStart s) = false.
Proof.
  induction s as [|d r IH]; [auto|]. simpl. intros H.
  apply orb_false_iff in H. destruct H as [H1 H2].
  destruct (isWhiteSpace d); [auto|]. simpl. now rewrite H1, H2.
Qed.

Lemma hasChar_trimEnd c s :
  hasChar c s = false -> hasChar c (trimEnd s) = false.
Proof.
  induction s as [|d r IH]; [auto|]. simpl. intros H.
  apply orb_false_iff in H. destruct H as [H1 H2]. specialize (IH H2).
  destruct (trimEnd r) as [|d' r'].
  - destruct (isWhiteSpace d); [reflexivity|]. simpl. now rewrite H1.
  - simpl. simpl in IH. now rewrite H1, IH.
Qed.

Lemma parseList_In value entry :
  In entry (parseList value) ->
  entry <> EmptyString /\
  exists v piece,
    value = Some v /\ In piece (splitComma v) /\ entry = trim piece.
Proof.
  unfold parseList. destruct value as [v|]; [|intros []].
  destruct (String.length (trim v) =? 0)%nat; [intros []|].
  intros H. apply filter_In in H. destruct H as [H L].
  apply in_map_iff in H. destruct H as (piece & <- & Hp).
  split; [|eauto].
  intros E. rewrite E in L. discriminate.
Qed.

Lemma isAscii_splitComma v : forall piece,
  isAsciiString v = true -> In piece (splitComma v) ->
  isAsciiString piece = true.
Proof.
  induction v as [|c rest IH]; intros piece A H; simpl in H.
  - destruct H as [<-|[]]. reflexivity.
  - simpl in A. apply andb_true_iff in A. destruct A as [Ac Ar].
    destruct (Ascii.eqb c ","%char).
    + destruct H as [<-|H]; [reflexivity | now apply IH].
    + destruct (splitComma rest) as [|first more].
      * destruct H as [<-|[]]. simpl. now rewrite Ac.
      * destruct H as [<-|H].
        -- simpl. rewrite Ac. apply IH; [exact Ar | now left].
        -- apply IH; [exact Ar | now right].
Qed.

(** X25.  The entries of a list read by [parseList] from an ASCII
    value: each is a piece between commas of the value, trimmed; none is
    empty, none begins or ends with white space (trimming it again
    changes nothing), none holds a comma, and each is ASCII text.  A
    missing or blank value gives the empty list. *)
Theorem parseList_entries :
  forall (value : option string),
    (forall v, value = Some v -> isAsciiString v = true) ->
    (isBlank value = true -> parseList value = []) /\
    forall entry, In entry (parseList value) ->
      entry <> EmptyString /\ trim entry = entry /\
      hasChar ","%char entry = false /\
      isAsciiString entry = true /\
      exists v piece,
        value = Some v /\ In piece (splitComma v) /\ entry = trim piece.
Proof.
  intros value Ascii. split.
  - unfold isBlank, parseList. destruct value as [v|]; [|reflexivity].
    now intros ->.
  - intros entry H. apply parseList_In in H.
    destruct H as (N & v & piece & -> & Hp & ->).
    split; [exact N|]. split; [apply trim_twice|]. split; [|split; [|eauto]].
    + unfold trim. apply hasChar_trimEnd, hasChar_trimStart.
      eapply hasChar_splitComma; eauto.
    + apply isAscii_trim. eapply isAscii_splitComma; [|exact Hp].
      now apply Ascii.
Qed.

Lemma parseList_entries_witness :
  parseList (exampleEnv "TARGET_HOSTNAMES")
    = ["home.example.com"; "vpn.example.com"] /\
  trim "vpn.example.com" = "vpn.example.com" /\
  hasChar ","%char "vpn.example.com" = false.
Proof.
  assert (parseList (exampleEnv "TARGET_HOSTNAMES")
            = ["home.example.com"; "vpn.example.com"]) as E by reflexivity.
  split; [exact E|].
  destruct (@parseList_entries (exampleEnv "TARGET_HOSTNAMES")) as (_ & H).
  - intros v Ev. vm_compute in Ev. inversion Ev. reflexivity.
  - destruct (H "vpn.example.com") as (_ & T & C & _).
    + rewrite E. right. now left.
    + split; [exact T | exact C].
Defined.

Lemma andThen_Ok {A B} (m : Outcome A) (k : A -> Outcome B) b :
  andThen m k = Ok b -> exists a, m = Ok a /\ k a = Ok b.
Proof. destruct m as [a|e]; simpl; [eauto | discriminate]. Qed.

Lemma parseInterval_positive parseInt value fallback key n :
  (0 < fallback)%Z ->
  parseInterval parseInt value fallback key = Ok n -> (0 < n)%Z.
Proof.
  intros F. unfold parseInterval. destruct value as [v|].
  - destruct (String.length (trim v) =? 0)%nat.
    + intros X. inversion X; subst. exact F.
    + destruct (parseInt v) as [parsed|]; [|discriminate].
      destruct (Z.leb_spec parsed 0); [discriminate|].
      intros X. inversion X; subst. assumption.
  - intros X. inversion X; subst. exact F.
Qed.

(** X26.  Every configuration [loadConfig] returns: the token is the
    one of the environment and is not empty; the three lists are those
    [parseList] reads, and there is a hostname target or a zone target;
    an address family is on; the period is positive, whatever
    [parseInt] reports.  With the optional settings missing or blank
    the configuration has IPv4 on, IPv6 off, the period 300 seconds and
    proxying on. *)
Theorem loadConfig_invariants :
  forall (parseInt : string -> option Z) (env : Env) (config : AppConfig),
    loadConfig parseInt env = Ok config ->
    (env "CLOUDFLARE_API_TOKEN" = Some (apiToken config) /\
     apiToken config <> EmptyString) /\
    (hostnameTargets config = parseList (env "TARGET_HOSTNAMES") /\
     zoneTargets config = parseList (env "TARGET_ZONES") /\
     blacklist config = parseList (env "BLACKLIST_HOSTNAMES") /\
     (hostnameTargets config <> [] \/ zoneTargets config <> [])) /\
    (includeIPv4 config = true \/ includeIPv6 config = true) /\
    (0 < updateIntervalSeconds config)%Z /\
    (isBlank (env "INCLUDE_IPV4") = true -> includeIPv4 config = true) /\
    (isBlank (env "INCLUDE_IPV6") = true -> includeIPv6 config = false) /\
    (isBlank (env "UPDATE_INTERVAL_SECONDS") = true ->
       updateIntervalSeconds config = 300%Z) /\
    (isBlank (env "CLOUDFLARE_PROXIED") = true -> proxied config = true).
Proof.
  intros parseInt env config H. unfold loadConfig in H.
  apply andThen_Ok in H. destruct H as (parsed & P & H).
  unfold envSchema_parse in P.
  destruct (env "CLOUDFLARE_API_TOKEN") as [t|] eqn:T; [|discriminate].
  destruct (String.length t <? 1)%nat eqn:L; [discriminate|].
  inversion P; subst parsed. clear P.
  destruct ((length (parseList (env "TARGET_HOSTNAMES")) =? 0)%nat &&
            (length (parseList (env "TARGET_ZONES")) =? 0)%nat) eqn:Tg;
    [discriminate|].
  apply andThen_Ok in H. destruct H as (v4 & B4 & H).
  apply andThen_Ok in H. destruct H as (v6 & B6 & H).
  destruct (negb v4 && negb v6) eqn:Fam; [discriminate|].
  apply andThen_Ok in H. destruct H as (n & Iv & H).
  apply andThen_Ok in H. destruct H as (px & Bp & H).
  rewrite T in H. inversion H; subst config. simpl. clear H.
  assert (forall value fallback key b,
            parseBoolean value fallback key = Ok b ->
            isBlank value = true -> b = fallback) as Blank.
  { intros value fallback key b X Y. unfold parseBoolean, isBlank in *.
    destruct value as [v|]; [rewrite Y in X|]; now inversion X. }
  split; [split; [reflexivity|]|].
  { intros ->. discriminate. }
  split; [repeat split; try reflexivity|].
  { apply andb_false_iff in Tg. destruct Tg as [X|X]; [left | right];
      intros E; rewrite E in X; discriminate. }
  split; [destruct v4, v6; auto; discriminate|].
  split; [eapply parseInterval_positive; [|exact Iv]; lia|].
  split; [intros Y; exact (Blank _ _ _ _ B4 Y)|].
  split; [intros Y; exact (Blank _ _ _ _ B6 Y)|].
  split; [|intros Y; exact (Blank _ _ _ _ Bp Y)].
  intros Y. unfold parseInterval, isBlank in *.
  destruct (env "UPDATE_INTERVAL_SECONDS") as [v|];
    [rewrite Y in Iv|]; now inversion Iv.
Qed.

Lemma loadConfig_invariants_witness :
  exists config,
    loadConfig exampleParseInt exampleEnv = Ok config /\
    hostnameTargets config = ["home.example.com"; "vpn.example.com"] /\
    includeIPv4 config = true /\ includeIPv6 config = false /\
    (0 < updateIntervalSeconds config)%Z /\ proxied config = true.
Proof.
  destruct (loadConfig exampleParseInt exampleEnv) as [config|e] eqn:E;
    [|vm_compute in E; discriminate].
  destruct (@loadConfig_invariants exampleParseInt exampleEnv config E)
    as (_ & (Hh & _) & _ & Pos & V4 & V6 & _ & Px).
  exists config. split; [reflexivity|].
  split; [rewrite Hh; reflexivity|].
  split; [apply V4; reflexivity|].
  split; [apply V6; reflexivity|].
  split; [exact Pos | apply Px; reflexivity].
Defined.

(** ** Failures of target discovery *)

Lemma map_from_keys {V} (entries : list (string * V)) k :
  In k (List.map fst entries) -> map_get (map_from entries) k <> None.
Proof.
  unfold map_from.
  assert (forall l (m : JsMap V),
            In k (List.map fst m) \/ In k (List.map fst l) ->
            In k (List.map fst
                    (fold_left (fun m e => map_set m (fst e) (snd e)) l m)))
    as G.
  { induction l as [|e l IH]; intros m H; simpl.
    - destruct H as [H|[]]. exact H.
    - apply IH. rewrite map_set_keys. simpl in H.
      destruct H as [H|[H|H]]; [left | left | now right].
      + destruct (map_has m (fst e)); [exact H|].
        apply in_or_app. now left.
      + subst k. destruct (map_has m (fst e)) eqn:M;
          [now apply map_has_keys|]. apply in_or_app. right. now left. }
  intros H. specialize (G entries [] (or_intror H)).
  apply map_has_keys in G. unfold map_has in G.
  destruct (map_get _ k); [discriminate | discriminate].
Qed.

Lemma appendHostname_KnownIds zones buckets zoneId hostname :
  KnownIds zones buckets -> In zoneId (List.map zone_id zones) ->
  KnownIds zones (appendHostname buckets zoneId hostname).
Proof.
  intros K Hz zid H. unfold appendHostname in H. cbv zeta in H.
  rewrite map_set_keys in H.
  destruct (map_has buckets zoneId); [now apply K|].
  apply in_app_or in H. destruct H as [H|[<-|[]]]; [now apply K | exact Hz].
Qed.

Lemma appendAll_KnownIds zones zoneId names : forall buckets,
  KnownIds zones buckets -> In zoneId (List.map zone_id zones) ->
  KnownIds zones
    (fold_left (fun b name => appendHostname b zoneId name) names buckets).
Proof.
  induction names as [|n names IH]; intros buckets K Hz; simpl; [exact K|].
  apply IH; [|exact Hz]. now apply appendHostname_KnownIds.
Qed.

Section DiscoveryFailures.
Context {W : Type}.
Variable client : Client W.
Variable zones : list CloudflareZone.

Lemma forHostnameTargets_outcome bl targets : forall buckets w,
  KnownIds zones buckets ->
  match forHostnameTargets (W := W) zones bl targets buckets w with
  | (Ok buckets', w') => w' = w /\ KnownIds zones buckets'
  | (Throw e, w') =>
      w' = w /\
      exists hostname,
        In hostname targets /\
        e = newError ("No Cloudflare zone found for hostname " ++ hostname)
  end.
Proof.
  induction targets as [|t targets IH]; intros buckets w K; simpl.
  - auto.
  - assert (forall b, KnownIds zones b ->
              match forHostnameTargets (W := W) zones bl targets b w with
              | (Ok buckets', w') => w' = w /\ KnownIds zones buckets'
              | (Throw e, w') =>
                  w' = w /\
                  exists hostname,
                    (t = hostname \/ In hostname targets) /\
                    e = newError
                          ("No Cloudflare zone found for hostname " ++ hostname)
              end) as Rest.
    { intros b Kb. specialize (IH b w Kb).
      destruct (forHostnameTargets zones bl targets b w) as [[b'|e] w'];
        [exact IH|].
      destruct IH as (-> & h & Hh & ->). eauto. }
    destruct (isBlacklisted t bl); [now apply Rest|].
    pose proof (findZoneForHostname_best t zones) as Best.
    destruct (findZoneForHostname t zones) as [z|]; simpl in Best.
    + apply Rest. apply appendHostname_KnownIds; [exact K|].
      apply in_map. apply Best.
    + unfold throw. eauto.
Qed.

Lemma forZoneTargets_outcome bl targets : forall buckets w,
  KnownIds zones buckets ->
  match forZoneTargets client
          (map_from (List.map (fun z => (normalizeHostname (zone_name z), z))
                       zones))
          bl targets buckets w with
  | (Ok buckets', w') => KnownIds zones buckets'
  | (Throw e, w') =>
      (exists zoneName,
         In zoneName targets /\
         e = newError ("No Cloudflare zone found for domain " ++ zoneName)) \/
      (exists z w0,
         In z zones /\
         listDnsRecords client (zone_id z) None None w0 = (Throw e, w'))
  end.
Proof.
  induction targets as [|t targets IH]; intros buckets w K; simpl.
  - exact K.
  - destruct (map_get _ (normalizeHostname t)) as [z|] eqn:G.
    2:{ unfold throw. left. eauto. }
    apply map_from_In in G. apply in_map_iff in G.
    destruct G as (z' & E & Hz). inversion E; subst z'. clear E.
    unfold bind.
    destruct (listDnsRecords client (zone_id z) None None w)
      as [[records|e] w1] eqn:L.
    2:{ right. eauto. }
    match goal with
    | |- context [forZoneTargets client ?m bl targets ?b w1] =>
        specialize (IH b w1)
    end.
    match type of IH with
    | ?P -> _ => assert P as Kb
    end.
    { apply appendAll_KnownIds; [|now apply in_map].
      apply appendHostname_KnownIds; [exact K | now apply in_map]. }
    specialize (IH Kb).
    match goal with
    | |- context [forZoneTargets client ?m bl targets ?b w1] =>
        destruct (forZoneTargets client m bl targets b w1) as [[b'|e] w2]
    end; [exact IH|].
    destruct IH as [(zn & Hzn & ->)|IH]; [left; eauto | now right].
Qed.

Lemma buildResults_total entries : forall w,
  KnownIds zones entries ->
  exists targets,
    buildResults (W := W)
      (map_from (List.map (fun z => (zone_id z, z)) zones)) entries w
      = (Ok targets, w).
Proof.
  induction entries as [|[zid names] entries IH]; intros w K; simpl.
  - unfold ret. eauto.
  - assert (In zid (List.map zone_id zones)) as Hz by (apply K; now left).
    destruct (map_get (map_from (List.map (fun z => (zone_id z, z)) zones)) zid)
      as [z|] eqn:G.
    + destruct (IH w) as (more & Hm).
      { intros k Hk. apply K. now right. }
      unfold bind. rewrite Hm. unfold ret. eauto.
    + exfalso. revert G. apply map_from_keys.
      rewrite map_map. simpl. exact Hz.
Qed.
End DiscoveryFailures.

(** X27.  Why target discovery fails.  When [collectZoneTargets]
    throws, the error is that of a provider call it made ([listZones],
    or [listDnsRecords] of a listed zone), or says that the provider
    lists no zone, or names a configured hostname for which no zone was
    found, or names a configured zone that was not found.  Buckets are
    only filed under ids of listed zones, so the error about missing
    zone metadata is never thrown by the code. *)
Theorem collectZoneTargets_failures :
  forall (W : Type) (client : Client W) (config : AppConfig) (w w' : W)
         (e : JsError),
    collectZoneTargets client config w = (Throw e, w') ->
    listZones client w = (Throw e, w') \/
    (exists zones w0 z,
       listZones client w = (Ok zones, w0) /\ In z zones /\
       exists w1, listDnsRecords client (zone_id z) None None w1
                    = (Throw e, w')) \/
    e = newError "No Cloudflare zones available for the configured token" \/
    (exists hostname,
       In hostname (hostnameTargets config) /\
       e = newError ("No Cloudflare zone found for hostname " ++ hostname)) \/
    (exists zoneName,
       In zoneName (zoneTargets config) /\
       e = newError ("No Cloudflare zone found for domain " ++ zoneName)).
Proof.
  intros W client config w w' e H.
  unfold collectZoneTargets in H. unfold bind at 1 in H.
  destruct (listZones client w) as [[zones|e0] w0] eqn:Z.
  2:{ left. now inversion H. }
  right.
  destruct (length zones =? 0)%nat.
  { inversion H; subst. auto. }
  cbv zeta in H. unfold bind at 1 in H.
  pose proof (@forHostnameTargets_outcome W zones
                (List.map normalizeHostname (blacklist config))
                (hostnameTargets config) [] w0) as H1.
  destruct (forHostnameTargets zones _ (hostnameTargets config) [] w0)
    as [[b1|e1] w1].
  2:{ destruct H1 as (_ & h & Hh & ->); [intros ? []|].
      inversion H; subst. eauto 6. }
  destruct H1 as (-> & K1); [intros ? []|].
  unfold bind at 1 in H.
  pose proof (@forZoneTargets_outcome W client zones
                (List.map normalizeHostname (blacklist config))
                (zoneTargets config) b1 w0 K1) as H2.
  destruct (forZoneTargets client _ _ (zoneTargets config) b1 w0)
    as [[b2|e2] w2].
  2:{ inversion H; subst.
      destruct H2 as [(zn & Hzn & ->)|(z & w1 & Hz & L)]; eauto 10. }
  destruct (@buildResults_total W zones b2 w2 H2) as (targets & B).
  rewrite B in H. discriminate.
Qed.

Lemma collectZoneTargets_failures_witness :
  collectZoneTargets providerClient
    {| apiToken := "token"; hostnameTargets := ["printer.lan"];
       zoneTargets := []; blacklist := []; includeIPv4 := true;
       includeIPv6 := false; updateIntervalSeconds := 300; proxied := true |}
    (exampleProvider [])
  = (Throw (newError "No Cloudflare zone found for hostname printer.lan"),
     exampleProvider []).
Proof.
  destruct (collectZoneTargets providerClient
              {| apiToken := "token"; hostnameTargets := ["printer.lan"];
                 zoneTargets := []; blacklist := []; includeIPv4 := true;
                 includeIPv6 := false; updateIntervalSeconds := 300;
                 proxied := true |}
              (exampleProvider [])) as [[targets|e] w'] eqn:E;
    [vm_compute in E; discriminate|].
  assert (w' = exampleProvider []) as ->
    by (vm_compute in E; now inversion E).
  destruct (@collectZoneTargets_failures _ _ _ _ _ _ E)
    as [F|[F|[F|[F|F]]]].
  - discriminate.
  - destruct F as (zones & w0 & z & _ & _ & w1 & F). discriminate.
  - subst e. vm_compute in E. discriminate.
  - destruct F as (h & [<-|[]] & ->). reflexivity.
  - destruct F as (zn & [] & _).
Defined.

Section DiscoveryReads.
Context {W : Type}.
Variable client : Client W.
Hypothesis listDnsRecords_reads :
  forall zoneId name type w, snd (listDnsRecords client zoneId name type w) = w.

Lemma forHostnameTargets_world zones bl targets : forall buckets w,
  snd (forHostnameTargets (W := W) zones bl targets buckets w) = w.
Proof.
  induction targets as [|t targets IH]; intros buckets w; simpl;
    [reflexivity|].
  destruct (isBlacklisted t bl); [apply IH|].
  destruct (findZoneForHostname t zones); [apply IH | reflexivity].
Qed.

Lemma forZoneTargets_world zonesByName bl targets : forall buckets w,
  snd (forZoneTargets client zonesByName bl targets buckets w) = w.
Proof.
  induction targets as [|t targets IH]; intros buckets w; simpl;
    [reflexivity|].
  destruct (map_get zonesByName (normalizeHostname t)) as [z|];
    [|reflexivity].
  unfold bind. pose proof (listDnsRecords_reads (zone_id z) None None w) as L.
  destruct (listDnsRecords client (zone_id z) None None w) as [[records|e] w1];
    simpl in L; subst w1; [apply IH | reflexivity].
Qed.

Lemma buildResults_world zonesById entries : forall w,
  snd (buildResults (W := W) zonesById entries w) = w.
Proof.
  induction entries as [|[zid names] entries IH]; intros w; simpl;
    [reflexivity|].
  destruct (map_get zonesById zid) as [z|]; [|reflexivity].
  unfold bind. specialize (IH w).
  destruct (buildResults zonesById entries w) as [[more|e] w1];
    simpl in *; exact IH.
Qed.
End DiscoveryReads.

(** X28.  Target discovery only reads.  With a client whose listing
    calls leave the world as it is, [collectZoneTargets] leaves the
    world as it is, whatever the creating, updating and deleting calls
    of the client would do and whether discovery returns or throws:
    none of them is called. *)
Theorem collectZoneTargets_only_reads :
  forall (W : Type) (client : Client W) (config : AppConfig) (w : W),
    (forall w0, snd (listZones client w0) = w0) ->
    (forall zoneId name type w0,
       snd (listDnsRecords client zoneId name type w0) = w0) ->
    snd (collectZoneTargets client config w) = w.
Proof.
  intros W client config w Zr Lr.
  unfold collectZoneTargets. unfold bind at 1.
  specialize (Zr w).
  destruct (listZones client w) as [[zones|e] w0]; simpl in Zr; subst w0;
    [|reflexivity].
  destruct (length zones =? 0)%nat; [reflexivity|].
  cbv zeta. unfold bind at 1.
  match goal with
  | |- context [forHostnameTargets ?a ?b ?c ?d w] =>
      pose proof (@forHostnameTargets_world W a b c d w) as H1;
      destruct (forHostnameTargets (W := W) a b c d w) as [[b1|e1] w1]
  end; simpl in H1; subst w1; [|reflexivity].
  unfold bind at 1.
  match goal with
  | |- context [forZoneTargets client ?m ?b ?t b1 w] =>
      pose proof (@forZoneTargets_world W client Lr m b t b1 w) as H2;
      destruct (forZoneTargets client m b t b1 w) as [[b2|e2] w2]
  end; simpl in H2; subst w2; [|reflexivity].
  apply buildResults_world.
Qed.

Lemma collectZoneTargets_only_reads_witness :
  snd (collectZoneTargets providerClient apexConfig apexProvider)
    = apexProvider.
Proof.
  apply collectZoneTargets_only_reads.
  - intros w0. reflexivity.
  - intros zoneId name type w0. reflexivity.
Defined.
